(** * Prospect Discovery Pipeline: a shallow embedding and its properties

    The first part follows the layout of the Python package
    [modules/prospect_research] and of [shared/odoo_client.py]:

    - [PyStr]: the [str] methods the code calls ([lower], [strip], [split],
      the [in] operator, [replace], [title]);
    - [Re]: a backtracking matcher for the regular expressions of
      [normalizer.py];
    - [Normalizer]: [ProspectRecord], [to_odoo_values],
      [parse_google_address];
    - [Fuzz]: the scorer [thefuzz.fuzz.token_sort_ratio];
    - [Config]: the stream configuration;
    - [Effects]: the outside world, the run state (call trace and URL
      cache) and the state-and-exception monad of the effectful code;
    - [OdooClient], [Deduplicator], [BaseAdapter], [GoogleMaps],
      [TradeData], [Main].

    The second part, [Vocabulary], holds the notions the statements are
    written in and the example inputs; the third part holds the proofs.

    Modelling conventions.  A Python [str] is a Rocq [string]; only ASCII
    code points carry case or count as whitespace or digits, every other
    byte is an opaque character.  [time.sleep] and logging have no
    counterpart.  The exceptions are those that derive from [Exception].
    Each call that leaves the process (an XML-RPC call made through
    [OdooClient._execute], an HTTP GET) is answered by an oracle that sees
    the whole trace of earlier calls, and is appended to that trace. *)

From Stdlib Require Import ZArith Ascii String List Lia Bool.
From stdpp Require Import base gmap strings list.

Local Open Scope Z_scope.

(* ===================================================================== *)
(** * Python string methods *)
(* ===================================================================== *)

Module PyStr.

Definition code (c : ascii) : N := N_of_ascii c.

Definition between (lo hi : N) (c : ascii) : bool :=
  ((lo <=? code c) && (code c <=? hi))%N.

Definition is_upper : ascii -> bool := between 65 90.
Definition is_lower : ascii -> bool := between 97 122.
Definition is_digit : ascii -> bool := between 48 57.
Definition is_alpha (c : ascii) : bool := is_upper c || is_lower c.
Definition is_alnum (c : ascii) : bool := is_alpha c || is_digit c.

(** Whitespace as [str.strip], [str.split] and [\s] see it, below 128:
    TAB, LF, VT, FF, CR, the four separators FS GS RS US, and SPACE. *)
Definition is_space (c : ascii) : bool :=
  between 9 13 c || between 28 32 c.

Definition lower_char (c : ascii) : ascii :=
  if is_upper c then ascii_of_N (code c + 32) else c.

Definition upper_char (c : ascii) : ascii :=
  if is_lower c then ascii_of_N (code c - 32) else c.

Fixpoint map_chars (f : ascii -> ascii) (s : string) : string :=
  match s with
  | EmptyString => EmptyString
  | String c t => String (f c) (map_chars f t)
  end.

(** [s.lower()] and [s.upper()] *)
Definition lower : string -> string := map_chars lower_char.
Definition upper : string -> string := map_chars upper_char.

Definition is_empty (s : string) : bool :=
  match s with EmptyString => true | _ => false end.

Fixpoint all_chars (p : ascii -> bool) (s : string) : bool :=
  match s with
  | EmptyString => true
  | String c t => p c && all_chars p t
  end.

(** [s.lstrip()], [s.rstrip()], [s.strip()] *)
Fixpoint lstrip (s : string) : string :=
  match s with
  | EmptyString => EmptyString
  | String c t => if is_space c then lstrip t else s
  end.

Fixpoint rstrip (s : string) : string :=
  match s with
  | EmptyString => EmptyString
  | String c t =>
      let r := rstrip t in
      if is_space c && is_empty r then EmptyString else String c r
  end.

Definition strip (s : string) : string := rstrip (lstrip s).

(** [s.split(sep)] for a one-character separator: never the empty list. *)
Fixpoint split (sep : ascii) (s : string) : list string :=
  match s with
  | EmptyString => [EmptyString]
  | String c t =>
      if Ascii.eqb c sep then EmptyString :: split sep t
      else match split sep t with
           | [] => [String c EmptyString]
           | p :: ps => String c p :: ps
           end
  end.

(** [sep.join(parts)] *)
Fixpoint join (sep : string) (parts : list string) : string :=
  match parts with
  | [] => EmptyString
  | [p] => p
  | p :: ps => p +:+ sep +:+ join sep ps
  end.

Fixpoint starts_with (pre s : string) : bool :=
  match pre, s with
  | EmptyString, _ => true
  | String a p, String b t => Ascii.eqb a b && starts_with p t
  | String _ _, EmptyString => false
  end.

(** [sub in s] *)
Fixpoint contains (s sub : string) : bool :=
  starts_with sub s ||
  match s with
  | EmptyString => false
  | String _ t => contains t sub
  end.

(** [s.replace(old, new)] for a one-character [old]. *)
Fixpoint replace_char (old : ascii) (new : string) (s : string) : string :=
  match s with
  | EmptyString => EmptyString
  | String c t =>
      if Ascii.eqb c old then new +:+ replace_char old new t
      else String c (replace_char old new t)
  end.

(** [s.title()]: a letter is upper-cased when the character before it is
    not a letter and lower-cased otherwise. *)
Fixpoint title_from (prev_cased : bool) (s : string) : string :=
  match s with
  | EmptyString => EmptyString
  | String c t =>
      if is_alpha c
      then String (if prev_cased then lower_char c else upper_char c)
                  (title_from true t)
      else String c (title_from false t)
  end.

Definition title : string -> string := title_from false.

(** [s[:n]] *)
Fixpoint take (n : nat) (s : string) : string :=
  match n, s with
  | S n', String c t => String c (take n' t)
  | _, _ => EmptyString
  end.

End PyStr.

(* ===================================================================== *)
(** * Regular expressions, with the matching order of Python's [re] *)
(* ===================================================================== *)

Module Re.
Import PyStr.

Inductive regex : Type :=
| Eps                              (* the empty pattern *)
| Chr (p : ascii -> bool)          (* one character of a class *)
| Seq (r1 r2 : regex)              (* r1 r2 *)
| Alt (r1 r2 : regex)              (* r1|r2, the left branch tried first *)
| Star (r : regex)                 (* r*, greedy *)
| Group (n : nat) (r : regex)      (* capturing group number n *)
| Eos.                             (* $ *)

Definition Opt (r : regex) : regex := Alt r Eps.          (* r?, greedy *)

Fixpoint Rep (n : nat) (r : regex) : regex :=             (* r{n} *)
  match n with
  | O => Eps
  | S n' => Seq r (Rep n' r)
  end.

Fixpoint Lit (s : string) : regex :=                      (* literal text *)
  match s with
  | EmptyString => Eps
  | String c t => Seq (Chr (Ascii.eqb c)) (Lit t)
  end.

(** Group number ↦ the text the group matched last. *)
Abbreviation captures := (gmap nat string).

(** What was consumed between the input [s] and the rest [s']. *)
Definition consumed (s s' : string) : string :=
  take (String.length s - String.length s') s.

(** [$] holds at the end and just before a final line feed. *)
Definition at_end (s : string) : bool :=
  match s with
  | EmptyString => true
  | String c EmptyString => Ascii.eqb c "010"
  | _ => false
  end.

(** One more iteration of [r*], or none.  [body] matches [r]; an
    iteration must consume input, and [fuel], the length of the input,
    bounds the number of iterations. *)
Fixpoint star_loop {R : Type}
         (body : string -> captures ->
                 (string -> captures -> option R) -> option R)
         (k : string -> captures -> option R)
         (fuel : nat) (s : string) (caps : captures) : option R :=
  match fuel with
  | O => k s caps
  | S fuel' =>
      match body s caps
              (fun s' caps' =>
                 if (String.length s' <? String.length s)%nat
                 then star_loop body k fuel' s' caps' else None) with
      | Some x => Some x
      | None => k s caps
      end
  end.

(** Backtracking search in continuation-passing style: [k] receives the
    rest of the input and the captures, and its first success is the
    answer. *)
Fixpoint mtch {R : Type} (r : regex) (s : string) (caps : captures)
         (k : string -> captures -> option R) {struct r} : option R :=
  match r with
  | Eps => k s caps
  | Chr p =>
      match s with
      | String c t => if p c then k t caps else None
      | EmptyString => None
      end
  | Seq r1 r2 => mtch r1 s caps (fun s' caps' => mtch r2 s' caps' k)
  | Alt r1 r2 =>
      match mtch r1 s caps k with
      | Some x => Some x
      | None => mtch r2 s caps k
      end
  | Star r1 =>
      star_loop (fun s' caps' k' => mtch r1 s' caps' k') k
                (String.length s) s caps
  | Group n r1 =>
      mtch r1 s caps (fun s' caps' => k s' (<[n := consumed s s']> caps'))
  | Eos => if at_end s then k s caps else None
  end.

(** [re.match(r, s)]: the captures of a match at the start of [s]. *)
Definition re_match (r : regex) (s : string) : option captures :=
  mtch r s ∅ (fun _ caps => Some caps).

(** The rest of the input after a match at the start of [s]. *)
Definition match_rest (r : regex) (s : string) : option string :=
  mtch r s ∅ (fun s' _ => Some s').

(** [re.sub(r, "", s)]: scan left to right, delete every match. *)
Fixpoint sub_empty_from (r : regex) (fuel : nat) (s : string) : string :=
  match fuel with
  | O => s
  | S fuel' =>
      let skip :=
        match s with
        | EmptyString => EmptyString
        | String c t => String c (sub_empty_from r fuel' t)
        end in
      match match_rest r s with
      | Some s' =>
          if (String.length s' <? String.length s)%nat
          then sub_empty_from r fuel' s'
          else skip
      | None => skip
      end
  end.

Definition sub_empty (r : regex) (s : string) : string :=
  sub_empty_from r (S (String.length s)) s.

End Re.

(* ===================================================================== *)
(** * Exceptions *)
(* ===================================================================== *)

(** The exceptions the modelled code raises or catches; all of them derive
    from Python's [Exception]. *)
Inductive exn : Type :=
| IndexError
| EnvironmentError
| RequestException
| OtherException (msg : string).

Inductive outcome (A : Type) : Type :=
| Ret (a : A)
| Raise (e : exn).
Arguments Ret {A} a.
Arguments Raise {A} e.

Definition is_ret {A} (o : outcome A) : bool :=
  match o with Ret _ => true | Raise _ => false end.

(** Sequencing of pure computations that may raise. *)
Definition obind {A B} (o : outcome A) (f : A -> outcome B) : outcome B :=
  match o with
  | Ret a => f a
  | Raise e => Raise e
  end.

(** [l[i]] on a Python list. *)
Definition index {A} (l : list A) (i : nat) : outcome A :=
  match l !! i with
  | Some x => Ret x
  | None => Raise IndexError
  end.

(** Values stored in the dicts exchanged with Odoo. *)
Inductive value : Type :=
| VStr (s : string)
| VInt (z : Z)
| VBool (b : bool).

(** Python truthiness. *)
Definition truthy (v : value) : bool :=
  match v with
  | VStr s => negb (PyStr.is_empty s)
  | VInt z => negb (z =? 0)
  | VBool b => b
  end.

(* ===================================================================== *)
(** * normalizer.py *)
(* ===================================================================== *)

Module Normalizer.
Import PyStr Re.

(** The dataclass.  [rating] (a float) and [raw] (the debugging copy of
    the source payload) are read by none of the functions below and are
    left out. *)
Record ProspectRecord : Type := {
  partner_name : string;
  street : option string;
  city : option string;
  state_code : option string;
  zip : option string;
  country_code : string;
  phone : option string;
  website : option string;
  description : option string;
  x_data_source : option string;
  x_bd_stream : option string;
  x_enrichment_status : string;
  x_already_importing : option bool;
  x_import_source_country : option string;
  x_current_supplier : option string;
  x_property_type : option string;
  x_estimated_spaces : option Z;
  place_id : option string
}.

(** [ProspectRecord(partner_name=name)]: every default of the dataclass. *)
Definition new_record (name : string) : ProspectRecord := {|
  partner_name := name;
  street := None; city := None; state_code := None; zip := None;
  country_code := "US";
  phone := None; website := None; description := None;
  x_data_source := None; x_bd_stream := None;
  x_enrichment_status := "pending";
  x_already_importing := None; x_import_source_country := None;
  x_current_supplier := None; x_property_type := None;
  x_estimated_spaces := None; place_id := None
|}.

(** [_make_lead_title]; the separator is an em dash between two spaces. *)
Definition _make_lead_title (partner_name stream : string) : string :=
  let stream_label := title (replace_char "_" " " stream) in
  partner_name +:+ " — " +:+ stream_label.

(** [if field: values[key] = field] for a string field. *)
Definition put_str (key : string) (field : option string)
           (values : gmap string value) : gmap string value :=
  match field with
  | Some s => if is_empty s then values else <[key := VStr s]> values
  | None => values
  end.

(** [if ident: values[key] = ident] for an integer identifier. *)
Definition put_id (key : string) (ident : option Z)
           (values : gmap string value) : gmap string value :=
  match ident with
  | Some z => if z =? 0 then values else <[key := VInt z]> values
  | None => values
  end.

(** [if field is not None: values[key] = field] *)
Definition put_some (key : string) (field : option value)
           (values : gmap string value) : gmap string value :=
  match field with
  | Some v => <[key := v]> values
  | None => values
  end.

Definition to_odoo_values (self : ProspectRecord) (stream : string)
           (stage_id : Z) (state_id country_id : option Z)
  : gmap string value :=
  let name := _make_lead_title (partner_name self) stream in
  let values : gmap string value :=
    <["x_enrichment_status" := VStr (x_enrichment_status self)]>
    (<["x_bd_stream" := VStr stream]>
    (<["stage_id" := VInt stage_id]>
    (<["partner_name" := VStr (partner_name self)]>
    (<["name" := VStr name]> ∅)))) in
  (* Address *)
  let values := put_str "street" (street self) values in
  let values := put_str "city" (city self) values in
  let values := put_id "state_id" state_id values in
  let values := put_str "zip" (zip self) values in
  let values := put_id "country_id" country_id values in
  (* Contact *)
  let values := put_str "phone" (phone self) values in
  let values := put_str "website" (website self) values in
  (* Description *)
  let values := put_str "description" (description self) values in
  (* Custom fields *)
  let values := put_str "x_data_source" (x_data_source self) values in
  let values :=
    put_some "x_already_importing" (VBool <$> x_already_importing self)
             values in
  let values :=
    put_str "x_import_source_country" (x_import_source_country self)
            values in
  let values :=
    put_str "x_current_supplier" (x_current_supplier self) values in
  let values := put_str "x_property_type" (x_property_type self) values in
  let values :=
    put_some "x_estimated_spaces" (VInt <$> x_estimated_spaces self)
             values in
  values.

(** [,?\s*(USA|United States|US)\s*$] *)
Definition country_suffix : regex :=
  Seq (Opt (Chr (Ascii.eqb ",")))
 (Seq (Star (Chr is_space))
 (Seq (Group 1 (Alt (Lit "USA") (Alt (Lit "United States") (Lit "US"))))
 (Seq (Star (Chr is_space))
      Eos))).

(** [([A-Z]{2})\s*(\d{5}(?:-\d{4})?)?] *)
Definition state_zip_re : regex :=
  Seq (Group 1 (Rep 2 (Chr is_upper)))
 (Seq (Star (Chr is_space))
      (Opt (Group 2 (Seq (Rep 5 (Chr is_digit))
                         (Opt (Seq (Chr (Ascii.eqb "-"))
                                   (Rep 4 (Chr is_digit)))))))).

(** The result dict of [parse_google_address]: the values are [None] or
    a [str]. *)
Abbreviation address := (gmap string (option string)).

(** [[p.strip() for p in address.split(",")]] *)
Definition comma_parts (address : string) : list string :=
  strip <$> split "," address.

(** Lines 168-172: [m = re.match(...)] and the two group reads. *)
Definition parse_state_zip (state_zip : string) (result : address)
  : address :=
  match re_match state_zip_re state_zip with
  | Some m => <["zip" := m !! 2%nat]> (<["state_code" := m !! 1%nat]> result)
  | None => result
  end.

Definition parse_google_address (formatted_address : string)
  : outcome address :=
  let result : address :=
    <["zip" := None]> (<["state_code" := None]>
    (<["city" := None]> (<["street" := None]> ∅))) in
  if is_empty formatted_address then Ret result
  else
    let address := strip (sub_empty country_suffix formatted_address) in
    let parts := comma_parts address in
    if (3 <=? length parts)%nat then
      obind (index parts 0) (fun p0 =>
      let result := <["street" := Some p0]> result in
      obind (index parts 1) (fun p1 =>
      let result := <["city" := Some p1]> result in
      obind (index parts 2) (fun p2 =>
      let state_zip := strip p2 in
      Ret (parse_state_zip state_zip result))))
    else if (length parts =? 2)%nat then
      obind (index parts 0) (fun p0 =>
      let result := <["city" := Some p0]> result in
      obind (index parts 1) (fun p1 =>
      let state_zip := strip p1 in
      Ret (parse_state_zip state_zip result)))
    else if (length parts =? 1)%nat then
      obind (index parts 0) (fun p0 =>
      let result := <["city" := Some p0]> result in
      Ret result)
    else Ret result.

End Normalizer.

(* ===================================================================== *)
(** * thefuzz: [fuzz.token_sort_ratio] *)
(* ===================================================================== *)

(** [thefuzz] is a dependency of [odoo_client.py], not part of the
    repository.  The scorer is written out here after the library
    (thefuzz 0.20 and later, on rapidfuzz): both strings go through
    [utils.full_process], their whitespace-separated tokens are sorted and
    joined by one space, and the score is the normalised Indel similarity
    [100 * 2 * lcs / (len1 + len2)] of the two joined strings, rounded to
    the nearest integer (halves to the even one).  The library rounds a
    float; here the quotient is exact. *)
Module Fuzz.
Import PyStr.

(** [utils.full_process(s, force_ascii=True)]: drop the characters from
    128 on, lower-case, turn what is not a letter or digit into a space,
    strip. *)
Fixpoint ascii_only (s : string) : string :=
  match s with
  | EmptyString => EmptyString
  | String c t =>
      if (code c <? 128)%N then String c (ascii_only t) else ascii_only t
  end.

Definition full_process (s : string) : string :=
  strip (map_chars (fun c => if is_alnum c then c else " "%char)
                   (lower (ascii_only s))).

(** [s.split()]: the maximal runs of characters that are not whitespace.
    [cur] is the token being read, in reverse. *)
Fixpoint tokens_from (cur : list ascii) (s : string) : list string :=
  let flush (rest : list string) :=
    match cur with
    | [] => rest
    | _ => string_of_list_ascii (rev cur) :: rest
    end in
  match s with
  | EmptyString => flush []
  | String c t =>
      if is_space c then flush (tokens_from [] t)
      else tokens_from (c :: cur) t
  end.

Definition tokens : string -> list string := tokens_from [].

(** [sorted(tokens)], by code points. *)
Fixpoint insert_sorted (x : string) (l : list string) : list string :=
  match l with
  | [] => [x]
  | y :: l' => if String.leb x y then x :: l else y :: insert_sorted x l'
  end.

Definition sorted (l : list string) : list string :=
  foldr insert_sorted [] l.

(** One row of the longest-common-subsequence table: [prev] is the row
    above without its first column, [diag] and [left] are the entries
    above-left and left of the next cell. *)
Fixpoint lcs_row (x : ascii) (b : string) (prev : list nat)
         (diag left : nat) : list nat :=
  match b, prev with
  | String y b', up :: prev' =>
      let cur := if Ascii.eqb x y then S diag else Nat.max up left in
      cur :: lcs_row x b' prev' up cur
  | _, _ => []
  end.

Fixpoint lcs_rows (a b : string) (row : list nat) : list nat :=
  match a with
  | EmptyString => row
  | String x a' => lcs_rows a' b (lcs_row x b row 0 0)
  end.

Definition lcs (a b : string) : nat :=
  List.last (lcs_rows a b (repeat 0%nat (String.length b))) 0%nat.

(** [int(round(q))] for the quotient [q = n / d], [0 < d]. *)
Definition round_half_even (n d : Z) : Z :=
  let q := n / d in
  let r := n mod d in
  if 2 * r <? d then q
  else if d <? 2 * r then q + 1
  else if Z.even q then q else q + 1.

(** [rapidfuzz.fuzz.ratio], rounded. *)
Definition ratio (a b : string) : Z :=
  let total := Z.of_nat (String.length a + String.length b) in
  if total =? 0 then 100
  else round_half_even (200 * Z.of_nat (lcs a b)) total.

Definition token_sort_ratio (s1 s2 : string) : Z :=
  let key s := join " " (sorted (tokens (full_process s))) in
  ratio (key s1) (key s2).

End Fuzz.

(* ===================================================================== *)
(** * The stream configuration (config/<stream>.yaml) *)
(* ===================================================================== *)

(** The YAML dicts, with the keys the code reads.  A key the file leaves
    out takes the default the code passes to [dict.get]. *)
Module Config.

(** [data_sources.<adapter name>] *)
Record AdapterConfig : Type := {
  enabled : bool;
  search_queries : list string;
  fetch_details : bool;
  max_results_per_query : Z;
  hs_codes : list string;
  exclude_suppliers_from : list string
}.

Definition DEFAULT_MAX_RESULTS : Z := 20.

(** The empty dict [{}]. *)
Definition empty_config : AdapterConfig := {|
  enabled := false;
  search_queries := [];
  fetch_details := false;
  max_results_per_query := DEFAULT_MAX_RESULTS;
  hs_codes := [];
  exclude_suppliers_from := []
|}.

(** [target_profile]; [cities] and [priority_states] sit under its
    [geography] key. *)
Record Profile : Type := {
  cities : list string;
  priority_states : list string;
  exclude_operators : list string
}.

Record StreamConfig : Type := {
  target_profile : Profile;
  data_sources : gmap string AdapterConfig;
  dedup_match_on : option (list string)
}.

End Config.

(* ===================================================================== *)
(** * Effects: the outside world, the run state, the monad *)
(* ===================================================================== *)

Module Effects.

(** An Odoo search domain: triples [field, operator, value]. *)
Abbreviation domain := (list (string * string * string)).

(** A dict of field values, as Odoo returns and receives them. *)
Abbreviation dict := (gmap string value).

(** The calls that leave the process. *)
Inductive call : Type :=
| SearchRead (dom : domain) (fields : list string) (limit : option Z)
    (* _execute("crm.lead", "search_read", dom, fields=.., limit=..) *)
| Create (values : dict)
    (* _execute("crm.lead", "create", values) *)
| Search (model : string) (dom : domain)
    (* _execute(model, "search", dom) *)
| HttpGet (url : string).
    (* self._session.get(url, timeout=15) and raise_for_status() *)

(** A call and whether it returned ([true]) or raised ([false]). *)
Abbreviation event := (call * bool)%type.

(** The collaborators.  Every answer may depend on all earlier calls. *)
Record World : Type := {
  execute_search_read :
    list event -> domain -> list string -> option Z -> outcome (list dict);
  execute_create : list event -> dict -> outcome Z;
  execute_search : list event -> string -> domain -> outcome (list Z);
  http_get : list event -> string -> outcome string;
  environ : gmap string string;
  stream_config : string -> outcome Config.StreamConfig
}.

(** What a run changes: the trace of calls, oldest first, and the
    [_url_cache] of the [TradeDataAdapter] instance. *)
Record state : Type := {
  trace : list event;
  url_cache : gmap string string
}.

Definition initial : state := {| trace := []; url_cache := ∅ |}.

Definition M (A : Type) : Type := state -> outcome A * state.

Definition ret {A} (a : A) : M A := fun st => (Ret a, st).

Definition raise {A} (e : exn) : M A := fun st => (Raise e, st).

Definition bind {A B} (c : M A) (f : A -> M B) : M B :=
  fun st =>
    match c st with
    | (Ret a, st') => f a st'
    | (Raise e, st') => (Raise e, st')
    end.

(** [try: c  except Exception as exc: h exc] *)
Definition try_except {A} (c : M A) (h : exn -> M A) : M A :=
  fun st =>
    match c st with
    | (Ret a, st') => (Ret a, st')
    | (Raise e, st') => h e st'
    end.

(** A pure computation that may raise. *)
Definition lift {A} (o : outcome A) : M A := fun st => (o, st).

(** Make the call [c], answered by [answer] from the trace so far. *)
Definition perform {A} (c : call) (answer : list event -> outcome A)
  : M A :=
  fun st =>
    let r := answer (trace st) in
    (r, {| trace := trace st ++ [(c, is_ret r)];
           url_cache := url_cache st |}).

(** [for x in l: acc = body acc x] *)
Fixpoint for_each {A B} (body : B -> A -> M B) (acc : B) (l : list A)
  : M B :=
  match l with
  | [] => ret acc
  | x :: l' => bind (body acc x) (fun acc' => for_each body acc' l')
  end.

End Effects.

Notation "'do' x <- c ;; k" := (Effects.bind c (fun x => k))
  (at level 10, x pattern, c at level 99, k at level 200).

(* ===================================================================== *)
(** * shared/odoo_client.py *)
(* ===================================================================== *)

Module OdooClient.
Import PyStr Effects.

(** Fuzzy match threshold for deduplication (0-100, higher = stricter) *)
Definition FUZZY_MATCH_THRESHOLD : Z := 85.

Section Client.
Variable w : World.

(** [from_env]: the four variables must be set and not empty.  The
    client object itself carries only connection data; its XML-RPC
    transport, with authentication and session renewal, is
    [execute_*] of the world. *)
Definition from_env : M unit :=
  let required := ["ODOO_URL"; "ODOO_DB"; "ODOO_USER"; "ODOO_API_KEY"] in
  let missing :=
    List.filter (fun v => match environ w !! v with
                          | Some s => is_empty s
                          | None => true
                          end) required in
  match missing with
  | [] => ret tt
  | _ => raise EnvironmentError
  end.

Definition default_fields : list string :=
  ["id"; "name"; "partner_name"; "contact_name"; "email_from";
   "phone"; "city"; "stage_id"; "x_bd_stream"; "x_lead_score";
   "x_enrichment_status"; "x_last_personal_contact"].

Definition search_leads (dom : domain) (fields : option (list string))
           (limit : option Z) : M (list dict) :=
  let fields := default default_fields fields in
  perform (SearchRead dom fields limit)
          (fun tr => execute_search_read w tr dom fields limit).

Definition create_lead (values : dict) : M Z :=
  perform (Create values) (fun tr => execute_create w tr values).

(** [(d.get(key) or "")]: the text of a field; a truthy value that is
    not a [str] has no [lower] method. *)
Definition text_or_empty (d : dict) (key : string) : outcome string :=
  match d !! key with
  | None => Ret ""
  | Some v =>
      if truthy v then
        match v with
        | VStr s => Ret s
        | _ => Raise (OtherException "AttributeError")
        end
      else Ret ""
  end.

(** The body of the loop over [candidates]. *)
Definition score_candidate (partner_name : string)
           (matches : list dict) (candidate : dict)
  : outcome (list dict) :=
  obind (text_or_empty candidate "partner_name") (fun cname =>
  let ratio := Fuzz.token_sort_ratio (lower partner_name) (lower cname) in
  if FUZZY_MATCH_THRESHOLD <=? ratio then
    let candidate := <["_fuzzy_score" := VInt ratio]> candidate in
    (* the debug line reads candidate["partner_name"] *)
    match candidate !! "partner_name" with
    | Some _ => Ret (matches ++ [candidate])
    | None => Raise (OtherException "KeyError")
    end
  else Ret matches).

Fixpoint score_candidates (partner_name : string) (matches : list dict)
         (candidates : list dict) : outcome (list dict) :=
  match candidates with
  | [] => Ret matches
  | c :: cs =>
      obind (score_candidate partner_name matches c) (fun matches' =>
      score_candidates partner_name matches' cs)
  end.

(** The coarse filter of [search_duplicate]: the first five characters of
    the name, and the city when one is given. *)
Definition duplicate_domain (partner_name : string) (city : option string)
  : domain :=
  let dom := [("partner_name", "ilike", take 5 partner_name)] in
  match city with
  | Some c => if is_empty c then dom else dom ++ [("city", "ilike", c)]
  | None => dom
  end.

Definition duplicate_fields : list string :=
  ["id"; "partner_name"; "city"; "x_bd_stream"].

Definition search_duplicate (partner_name : string)
           (city : option string) : M (list dict) :=
  do candidates <-
    search_leads (duplicate_domain partner_name city)
                 (Some duplicate_fields) (Some 50) ;;
  lift (score_candidates partner_name [] candidates).

(** [ids[0] if ids else None] *)
Definition first_id (ids : list Z) : option Z := head ids.

Definition get_state_id (state_code country_code : string)
  : M (option Z) :=
  let dom := [("code", "=", upper state_code);
              ("country_id.code", "=", upper country_code)] in
  do ids <- perform (Search "res.country.state" dom)
                    (fun tr => execute_search w tr "res.country.state" dom) ;;
  ret (first_id ids).

Definition get_stage_id (stage_name : string) : M (option Z) :=
  let dom := [("name", "=", stage_name)] in
  do ids <- perform (Search "crm.stage" dom)
                    (fun tr => execute_search w tr "crm.stage" dom) ;;
  ret (first_id ids).

End Client.
End OdooClient.

(* ===================================================================== *)
(** * modules/prospect_research/deduplicator.py *)
(* ===================================================================== *)

Module Deduplicator.
Import PyStr Effects Normalizer.

Section Dedup.
Variable w : World.

(** [if field:] on an optional string. *)
Definition nonempty (o : option string) : bool :=
  match o with
  | Some s => negb (is_empty s)
  | None => false
  end.

(** The list comprehension that keeps the matches on the same street. *)
Fixpoint same_street (street_lower : string) (matches : list dict)
  : outcome (list dict) :=
  match matches with
  | [] => Ret []
  | m :: ms =>
      obind (OdooClient.text_or_empty m "street") (fun st =>
      obind (same_street street_lower ms) (fun rest =>
      if String.eqb (strip (lower st)) street_lower
      then Ret (m :: rest) else Ret rest))
  end.

(** The log line of a hit reads [m["partner_name"]] of the first three
    matches; [search_duplicate] returns only dicts that have the key. *)
Definition is_duplicate (record : ProspectRecord)
           (match_on : list string) : M bool :=
  if is_empty (partner_name record)
     || is_empty (strip (partner_name record))
  then ret false
  else
    (* city is used as a secondary narrowing filter for the Odoo query *)
    let city :=
      if bool_decide ("city" ∈ match_on) then city record else None in
    do matches <- OdooClient.search_duplicate w (partner_name record) city ;;
    match matches with
    | [] => ret false
    | _ =>
        do matches <-
          (if bool_decide ("street" ∈ match_on) && nonempty (street record)
           then
             let street_lower :=
               strip (lower (default "" (street record))) in
             lift (same_street street_lower matches)
           else ret matches) ;;
        match matches with
        | [] => ret false
        | _ => ret true
        end
    end.

(** The loop body of [split_new_and_duplicate]. *)
Definition split_step (match_on : list string)
           (acc : list ProspectRecord * list ProspectRecord)
           (rec : ProspectRecord)
  : M (list ProspectRecord * list ProspectRecord) :=
  let '(new_records, duplicate_records) := acc in
  do dup <- is_duplicate rec match_on ;;
  if dup then ret (new_records, duplicate_records ++ [rec])
  else ret (new_records ++ [rec], duplicate_records).

Definition split_new_and_duplicate (records : list ProspectRecord)
           (match_on : list string)
  : M (list ProspectRecord * list ProspectRecord) :=
  for_each (split_step match_on) ([], []) records.

End Dedup.
End Deduplicator.

(* ===================================================================== *)
(** * modules/prospect_research/adapters/base.py *)
(* ===================================================================== *)

Module BaseAdapter.
Import Effects Normalizer Config.

(** The interface: a name and [fetch].  [fetch] should not raise, but
    nothing in the type prevents it. *)
Record Adapter : Type := {
  name : string;
  fetch : AdapterConfig -> string -> Profile -> M (list ProspectRecord)
}.

Definition get_adapter_config (a : Adapter)
           (data_sources_config : gmap string AdapterConfig)
  : AdapterConfig :=
  default empty_config (data_sources_config !! name a).

Definition is_enabled (a : Adapter)
           (data_sources_config : gmap string AdapterConfig) : bool :=
  enabled (default empty_config (data_sources_config !! name a)).

End BaseAdapter.

(* ===================================================================== *)
(** * modules/prospect_research/adapters/google_maps.py *)
(* ===================================================================== *)

Module GoogleMaps.
Import PyStr Effects Normalizer Config.

Section Adapter.
(** [self._api_key] *)
Variable api_key : string.
(** [query_template.format(city=city)], which raises on a template
    with other fields. *)
Variable str_format : string -> string -> outcome string.
(** [self._search_text(client, query, stream, fetch_details,
    max_results)]: the paginated Places text search of one query. *)
Variable _search_text :
  string -> string -> bool -> Z -> M (list ProspectRecord).

Definition _get_client : M unit :=
  if is_empty api_key then raise EnvironmentError else ret tt.

(** [rec.place_id or rec.partner_name.lower()] *)
Definition dedup_key (rec : ProspectRecord) : string :=
  match place_id rec with
  | Some p => if is_empty p then lower (partner_name rec) else p
  | None => lower (partner_name rec)
  end.

(** [exclude_operators and any(op in name_lower for op in
    exclude_operators)] *)
Definition excluded (exclude_operators : list string)
           (rec : ProspectRecord) : bool :=
  match exclude_operators with
  | [] => false
  | _ =>
      let name_lower := lower (partner_name rec) in
      existsb (fun op => contains name_lower op) exclude_operators
  end.

(** The body of [for rec in records]. *)
Definition accept (exclude_operators : list string)
           (acc : list ProspectRecord * gset string)
           (rec : ProspectRecord)
  : list ProspectRecord * gset string :=
  let '(all_records, seen_place_ids) := acc in
  (* Deduplicate by place_id within this run *)
  let pid := dedup_key rec in
  if bool_decide (pid ∈ seen_place_ids) then acc
  else
    let seen_place_ids := {[pid]} ∪ seen_place_ids in
    (* Apply exclude_operators filter *)
    if excluded exclude_operators rec then (all_records, seen_place_ids)
    else (all_records ++ [rec], seen_place_ids).

Definition fetch_city (stream : string) (fetch_details : bool)
           (max_per_query : Z) (exclude_operators : list string)
           (query_template : string)
           (acc : list ProspectRecord * gset string) (city : string)
  : M (list ProspectRecord * gset string) :=
  do query <- lift (str_format query_template city) ;;
  let query := strip query in
  do records <- _search_text query stream fetch_details max_per_query ;;
  ret (foldl (accept exclude_operators) acc records).

Definition fetch (adapter_config : AdapterConfig) (stream : string)
           (profile : Profile) : M (list ProspectRecord) :=
  let queries := search_queries adapter_config in
  let fetch_details := Config.fetch_details adapter_config in
  let max_per_query := max_results_per_query adapter_config in
  let exclude_operators := lower <$> exclude_operators profile in
  let cities :=
    match cities profile with
    | [] => [""]
    | cs => cs
    end in
  match queries with
  | [] => ret []
  | _ =>
      do _ <- _get_client ;;
      do acc <-
        for_each
          (fun acc query_template =>
             for_each (fetch_city stream fetch_details max_per_query
                                  exclude_operators query_template)
                      acc cities)
          ([], ∅) queries ;;
      ret (fst acc)
  end.

Definition adapter : BaseAdapter.Adapter :=
  {| BaseAdapter.name := "google_maps"; BaseAdapter.fetch := fetch |}.

End Adapter.
End GoogleMaps.

(* ===================================================================== *)
(** * modules/prospect_research/adapters/trade_data.py *)
(* ===================================================================== *)

Module TradeData.
Import PyStr Effects Normalizer Config.

Definition BASE_URL : string := "https://www.your-trade-data-service.com".
(** [HS_CODE_URL.format(hs_code=h)] and [SEARCH_URL.format(query=q)] *)
Definition HS_CODE_URL (hs_code : string) : string :=
  BASE_URL +:+ "/hs-code/" +:+ hs_code.
Definition SEARCH_URL (query : string) : string :=
  BASE_URL +:+ "/search?q=" +:+ query.

Section Adapter.
Variable w : World.
(** [urllib.parse.quote_plus] *)
Variable quote_plus : string -> string.
(** The BeautifulSoup side of the parser: the card elements that
    [_find_cards] selects in a page, and [_parse_single_card]. *)
Variable card : Type.
Variable _find_cards : string -> list card.
Variable _parse_single_card :
  card -> string -> string -> option ProspectRecord.

Definition _get_cached (url : string) : M (option string) :=
  fun st =>
    match url_cache st !! url with
    | Some html => (Ret (Some html), st)
    | None =>
        match perform (HttpGet url) (fun tr => http_get w tr url) st with
        | (Ret html, st') =>
            (Ret (Some html),
             {| trace := trace st';
                url_cache := <[url := html]> (url_cache st') |})
        | (Raise RequestException, st') => (Ret None, st')
        | (Raise e, st') => (Raise e, st')
        end
    end.

(** The exclude_from test of one record. *)
Definition all_suppliers_excluded (exclude_from : list string)
           (rec : ProspectRecord) : bool :=
  match exclude_from, x_import_source_country rec with
  | _ :: _, Some sc =>
      if is_empty sc then false
      else
        let countries := (fun c => upper (strip c)) <$> split "," sc in
        forallb (fun c => bool_decide (c ∈ exclude_from))
                (List.filter (fun c => negb (is_empty c)) countries)
  | _, _ => false
  end.

Definition _parse_company_cards (html stream : string)
           (exclude_from priority_states : list string)
           (hs_code : string) : list ProspectRecord :=
  let cards := _find_cards html in
  omap (fun c =>
          match _parse_single_card c stream hs_code with
          | None => None
          | Some rec =>
              if all_suppliers_excluded exclude_from rec then None
              else Some rec
          end) cards.

Definition _fetch_by_hs_code (hs_code stream : string)
           (exclude_from priority_states : list string)
  : M (list ProspectRecord) :=
  (* Normalize HS code for URL: "3923.30" → "39233000" *)
  let hs_normalized := replace_char " " "" (replace_char "." "" hs_code) in
  let hs_normalized :=
    if (String.length hs_normalized =? 6)%nat
    then hs_normalized +:+ "00" else hs_normalized in
  let url := HS_CODE_URL hs_normalized in
  do html <- _get_cached url ;;
  match html with
  | None => ret []
  | Some html =>
      let records :=
        _parse_company_cards html stream exclude_from priority_states
                             hs_code in
      match records with
      | [] =>
          (* Fallback: try keyword search using the hs_code directly *)
          let fallback_url := SEARCH_URL (quote_plus hs_code) in
          do html2 <- _get_cached fallback_url ;;
          match html2 with
          | Some h2 =>
              if is_empty h2 then ret records
              else ret (_parse_company_cards h2 stream exclude_from
                                             priority_states hs_code)
          | None => ret records
          end
      | _ => ret records
      end
  end.

(** The body of [for rec in records] in [fetch]. *)
Definition keep_first (acc : list ProspectRecord * gset string)
           (rec : ProspectRecord) : list ProspectRecord * gset string :=
  let '(all_records, seen_names) := acc in
  let key := strip (lower (partner_name rec)) in
  if bool_decide (key ∈ seen_names) then acc
  else (all_records ++ [rec], {[key]} ∪ seen_names).

Definition fetch (adapter_config : AdapterConfig) (stream : string)
           (profile : Profile) : M (list ProspectRecord) :=
  let hs_codes := Config.hs_codes adapter_config in
  let exclude_from := upper <$> exclude_suppliers_from adapter_config in
  let priority_states := Config.priority_states profile in
  match hs_codes with
  | [] => ret []
  | _ =>
      do acc <-
        for_each
          (fun acc hs_code =>
             do records <- _fetch_by_hs_code hs_code stream exclude_from
                                             priority_states ;;
             ret (foldl keep_first acc records))
          ([], ∅) hs_codes ;;
      ret (fst acc)
  end.

Definition adapter : BaseAdapter.Adapter :=
  {| BaseAdapter.name := "trade_data"; BaseAdapter.fetch := fetch |}.

End Adapter.
End TradeData.

(* ===================================================================== *)
(** * modules/prospect_research/main.py *)
(* ===================================================================== *)

Module Main.
Import PyStr Effects Normalizer Config BaseAdapter.

Section Orchestrator.
Variable w : World.
(** Registry of all available adapters *)
Variable ADAPTERS : list Adapter.

(** Call getter(), return result or log a warning and return None. *)
Definition _get_or_warn (getter : M (option Z)) : M (option Z) :=
  try_except getter (fun _ => ret None).

(** The state codes of the records, each once.  The source iterates
    over a [set]; here the codes come in the order of their first
    record. *)
Definition distinct_state_codes (records : list ProspectRecord)
  : list string :=
  remove_dups
    (omap (fun r => match state_code r with
                    | Some c => if is_empty c then None else Some c
                    | None => None
                    end) records).

Definition _resolve_state_ids (records : list ProspectRecord)
  : M (gmap string (option Z)) :=
  for_each
    (fun (cache : gmap string (option Z)) code =>
       do id <- OdooClient.get_state_id w code "US" ;;
       ret (<[code := id]> cache))
    ∅ (distinct_state_codes records).

Definition _get_country_id : M (option Z) :=
  let dom := [("code", "=", "US")] in
  try_except
    (do ids <- perform (Search "res.country" dom)
                       (fun tr => execute_search w tr "res.country" dom) ;;
     ret (OdooClient.first_id ids))
    (fun _ => ret None).

(** Lines 124-140: the loop over the registry. *)
Definition run_adapter (data_sources : gmap string AdapterConfig)
           (stream : string) (profile : Profile)
           (all_records : list ProspectRecord) (adapter : Adapter)
  : M (list ProspectRecord) :=
  if negb (is_enabled adapter data_sources) then ret all_records
  else
    let adapter_cfg := get_adapter_config adapter data_sources in
    try_except
      (do records <- fetch adapter adapter_cfg stream profile ;;
       ret (all_records ++ records))
      (fun _ => ret all_records).

Definition run_adapters (data_sources : gmap string AdapterConfig)
           (stream : string) (profile : Profile)
  : M (list ProspectRecord) :=
  for_each (run_adapter data_sources stream profile) [] ADAPTERS.

(** The counters of the creation loop. *)
Record counters : Type := {
  created : Z;
  skipped_limit : Z;
  errors : Z
}.

(** [limit is not None and created >= limit] *)
Definition limit_reached (limit : option Z) (created : Z) : bool :=
  match limit with
  | Some n => n <=? created
  | None => false
  end.

(** Lines 166-204: the body of [for rec in new_records]. *)
Definition create_step (stream : string) (dry_run : bool)
           (limit : option Z) (research_stage_id us_country_id : option Z)
           (state_id_cache : gmap string (option Z))
           (c : counters) (rec : ProspectRecord) : M counters :=
  if limit_reached limit (created c) then
    ret {| created := created c;
           skipped_limit := skipped_limit c + 1;
           errors := errors c |}
  else
    let state_id :=
      match state_code rec with
      | Some code =>
          if is_empty code then None
          else default None (state_id_cache !! code)
      | None => None
      end in
    let values :=
      to_odoo_values rec stream (default 0 research_stage_id)
                     state_id us_country_id in
    if dry_run then
      ret {| created := created c + 1;
             skipped_limit := skipped_limit c;
             errors := errors c |}
    else
      try_except
        (do lead_id <- OdooClient.create_lead w values ;;
         ret {| created := created c + 1;
                skipped_limit := skipped_limit c;
                errors := errors c |})
        (fun _ =>
           ret {| created := created c;
                  skipped_limit := skipped_limit c;
                  errors := errors c + 1 |}).

Definition create_leads (stream : string) (dry_run : bool)
           (limit : option Z) (research_stage_id us_country_id : option Z)
           (state_id_cache : gmap string (option Z))
           (new_records : list ProspectRecord) : M counters :=
  for_each (create_step stream dry_run limit research_stage_id
                        us_country_id state_id_cache)
           {| created := 0; skipped_limit := 0; errors := 0 |}
           new_records.

(** The summary dict. *)
Definition summary (total_fetched created skipped_dedup skipped_limit
                    errors : Z) : gmap string Z :=
  <["errors" := errors]> (<["skipped_limit" := skipped_limit]>
  (<["skipped_dedup" := skipped_dedup]> (<["created" := created]>
  (<["total_fetched" := total_fetched]> ∅)))).

Definition len {A} (l : list A) : Z := Z.of_nat (length l).

(** Everything after the adapters ran (lines 142-223). *)
Definition process (stream : string) (dry_run : bool) (limit : option Z)
           (match_on : list string)
           (research_stage_id us_country_id : option Z)
           (all_records : list ProspectRecord) : M (gmap string Z) :=
  match all_records with
  | [] => ret (summary 0 0 0 0 0)
  | _ =>
      (* Deduplicate against Odoo *)
      do split <-
        Deduplicator.split_new_and_duplicate w all_records match_on ;;
      let '(new_records, duplicate_records) := split in
      (* Resolve state IDs in bulk *)
      do state_id_cache <- _resolve_state_ids new_records ;;
      (* Create leads *)
      do c <- create_leads stream dry_run limit research_stage_id
                           us_country_id state_id_cache new_records ;;
      ret (summary (len all_records) (created c) (len duplicate_records)
                   (skipped_limit c) (errors c))
  end.

Definition run (stream : string) (dry_run : bool) (limit : option Z)
  : M (gmap string Z) :=
  do config <- lift (stream_config w stream) ;;
  let profile := target_profile config in
  let data_sources := Config.data_sources config in
  let match_on :=
    default ["partner_name"; "city"] (dedup_match_on config) in
  (* Connect to Odoo and resolve IDs *)
  do _ <- OdooClient.from_env w ;;
  do research_stage_id <-
    _get_or_warn (OdooClient.get_stage_id w "Research") ;;
  do us_country_id <- _get_country_id ;;
  match research_stage_id, dry_run with
  | None, false => ret (<["errors" := 1]> (<["created" := 0]> ∅))
  | _, _ =>
      (* Run enabled adapters *)
      do all_records <- run_adapters data_sources stream profile ;;
      process stream dry_run limit match_on research_stage_id
              us_country_id all_records
  end.

End Orchestrator.
End Main.

(* ===================================================================== *)
(** * Vocabulary of the statements, and example inputs *)
(* ===================================================================== *)

Module Vocabulary.
Import PyStr Re Normalizer Effects Config.

(** What [put_str] leaves under its own key. *)
Definition present_text (field : option string) : option value :=
  match field with
  | Some s => if is_empty s then None else Some (VStr s)
  | None => None
  end.

(** The optional text fields and the payload key each is written to. *)
Definition optional_text_fields
  : list (string * (ProspectRecord -> option string)) :=
  [ ("street", street); ("city", city); ("zip", zip);
    ("phone", phone); ("website", website);
    ("description", description);
    ("x_data_source", x_data_source);
    ("x_import_source_country", x_import_source_country);
    ("x_current_supplier", x_current_supplier);
    ("x_property_type", x_property_type) ].

(** The four keys of the dict [parse_google_address] returns. *)
Definition address_keys : gset string :=
  {[ "street"; "city"; "state_code"; "zip" ]}.

(** The dict with the four keys at [None]. *)
Definition blank_address : address :=
  <["zip" := None]> (<["state_code" := None]>
  (<["city" := None]> (<["street" := None]> ∅))).

(** The address without its country, cut at the commas. *)
Definition address_parts (formatted_address : string) : list string :=
  comma_parts (strip (sub_empty country_suffix formatted_address)).

(** The dict with the given street, city, state code and zip. *)
Definition address_of (street city state_code zip : option string)
  : address :=
  <["zip" := zip]> (<["state_code" := state_code]>
  (<["city" := city]> (<["street" := street]> ∅))).

(** Every cell of a table row is bounded by the number of characters of
    the first string read so far ([i]) and by its own column. *)
Definition row_bounded (i j0 : nat) (row : list nat) : Prop :=
  forall j v, row !! j = Some v -> (v <= i /\ v <= j0 + j + 1)%nat.

(** The text the scorer reads from a lead: its name, and "" when the
    field is [False] or missing. *)
Definition name_of (candidate : dict) : string :=
  match candidate !! "partner_name" with
  | Some (VStr s) => s
  | _ => ""
  end.

(** The similarity ratio of a candidate name and an existing lead. *)
Definition score (partner_name : string) (candidate : dict) : Z :=
  Fuzz.token_sort_ratio (lower partner_name) (lower (name_of candidate)).

Definition is_match (partner_name : string) (candidate : dict) : bool :=
  OdooClient.FUZZY_MATCH_THRESHOLD <=? score partner_name candidate.

(** A match as [search_duplicate] returns it: the lead with its score. *)
Definition with_score (partner_name : string) (candidate : dict) : dict :=
  <["_fuzzy_score" := VInt (score partner_name candidate)]> candidate.

(** A lead as [search_read] returns it when [partner_name] is among the
    fields asked for: a string, or [False] for an empty field. *)
Definition named (candidate : dict) : Prop :=
  (exists s, candidate !! "partner_name" = Some (VStr s))
  \/ candidate !! "partner_name" = Some (VBool false).

(** The city [is_duplicate] passes to [search_duplicate]. *)
Definition query_city (record : ProspectRecord) (match_on : list string)
  : option string :=
  if bool_decide ("city" ∈ match_on) then city record else None.

(** ** Example inputs *)

Definition odoo_environ : gmap string string :=
  <["ODOO_URL" := "https://odoo.example.com/"]>
  (<["ODOO_DB" := "bd"]> (<["ODOO_USER" := "bot"]>
  (<["ODOO_API_KEY" := "secret"]> ∅))).

Definition no_adapters_config : StreamConfig := {|
  target_profile :=
    {| cities := ["Syracuse"]; priority_states := ["NY"];
       exclude_operators := [] |};
  data_sources := ∅;
  dedup_match_on := None
|}.

(** An Odoo that holds the given leads and returns all of them to every
    [search_read], accepts every [create], knows every stage, state and
    country under the identifier 7; no web page can be fetched. *)
Definition world_of_leads (leads : list dict) (config : StreamConfig)
  : World := {|
  execute_search_read := fun _ _ _ _ => Ret leads;
  execute_create := fun tr _ => Ret (Z.of_nat (length tr));
  execute_search := fun _ _ _ => Ret [7];
  http_get := fun _ _ => Raise RequestException;
  environ := odoo_environ;
  stream_config := fun _ => Ret config
|}.

Definition lead (id : Z) (partner_name city : string) : dict :=
  <["id" := VInt id]> (<["partner_name" := VStr partner_name]>
  (<["city" := VStr city]> (<["x_bd_stream" := VStr "stream_c"]> ∅))).

Definition prospect (partner_name city : string) : ProspectRecord :=
  {| partner_name := partner_name;
     street := None; city := Some city; state_code := Some "NY"; zip := None;
     country_code := "US";
     phone := None; website := None; description := None;
     x_data_source := Some "trade_data"; x_bd_stream := Some "stream_c";
     x_enrichment_status := "pending";
     x_already_importing := Some true; x_import_source_country := None;
     x_current_supplier := None; x_property_type := None;
     x_estimated_spaces := None; place_id := None |}.

(** ** Reasoning about effectful code *)

(** From a state in [P], the computation [c] ends in a state in [Q a] when
    it returns [a], and in a state in [E] when it raises. *)
Definition triple {A} (P : state -> Prop) (c : M A)
           (Q : A -> state -> Prop) (E : state -> Prop) : Prop :=
  forall st, P st ->
             match c st with
             | (Ret a, st') => Q a st'
             | (Raise _, st') => E st'
             end.

(** [sub] occurs in [s]. *)
Definition substring (sub s : string) : Prop :=
  exists pre post, s = pre +:+ sub +:+ post.

(** A Places result: a name and a place identifier. *)
Definition place (partner_name place_id : string) : ProspectRecord :=
  {| partner_name := partner_name;
     street := None; city := Some "Syracuse"; state_code := Some "NY";
     zip := Some "13202"; country_code := "US";
     phone := None; website := None; description := None;
     x_data_source := Some "google_maps"; x_bd_stream := Some "stream_a";
     x_enrichment_status := "pending";
     x_already_importing := None; x_import_source_country := None;
     x_current_supplier := None; x_property_type := None;
     x_estimated_spaces := None; place_id := Some place_id |}.

(** A Places search that answers every query with the same results, and
    [str.format] on templates that have no field. *)
Definition canned_search (results : list ProspectRecord)
  : string -> string -> bool -> Z -> M (list ProspectRecord) :=
  fun _ _ _ _ => ret results.

Definition format_plain (template city : string) : outcome string :=
  Ret template.

Definition parking_config : AdapterConfig := {|
  enabled := true;
  search_queries := ["parking lot Syracuse"];
  fetch_details := false;
  max_results_per_query := 20;
  hs_codes := [];
  exclude_suppliers_from := []
|}.

Definition profile_excluding (operators : list string) : Profile :=
  {| cities := []; priority_states := []; exclude_operators := operators |}.

Definition sample_places : list ProspectRecord :=
  [ place "Clinton Square Parking" "ChIJ_abc123";
    place "Example Operator - Downtown" "ChIJ_xyz456";
    place "Canal Street Garage" "ChIJ_def789" ].

(** The GET requests for [url] in a trace, and those that succeeded. *)
Definition is_get (url : string) (ev : event) : bool :=
  match ev.1 with
  | HttpGet u => String.eqb u url
  | _ => false
  end.

Definition requests (url : string) (tr : list event) : nat :=
  length (List.filter (is_get url) tr).

Definition downloads (url : string) (tr : list event) : nat :=
  length (List.filter (fun ev => is_get url ev && ev.2) tr).

(** Since the first [n] events of the trace, no page was downloaded twice,
    and every page downloaded since then is cached. *)
Definition cache_consistent_from (n : nat) (st : state) : Prop :=
  (n <= length (trace st))%nat
  /\ forall url,
       (downloads url (drop n (trace st)) <= 1)%nat
       /\ ((1 <= downloads url (drop n (trace st)))%nat ->
           is_Some (url_cache st !! url)).

(** The same over the whole trace. *)
Definition cache_consistent (st : state) : Prop := cache_consistent_from 0 st.

(** The events that [st'] has after those of [st]. *)
Definition events_since (st st' : state) : list event :=
  drop (length (trace st)) (trace st').

(** A trade-data page parser that finds no card, and an identity in place
    of [quote_plus] (exact on digits, letters and the dot). *)
Definition no_cards (html : string) : list unit := [].
Definition no_record (c : unit) (stream hs_code : string)
  : option ProspectRecord := None.
Definition quote_safe (s : string) : string := s.

Definition codes_config (codes : list string) : AdapterConfig := {|
  enabled := true;
  search_queries := [];
  fetch_details := false;
  max_results_per_query := 20;
  hs_codes := codes;
  exclude_suppliers_from := ["US"]
|}.

(** What each adapter of the registry adds to the aggregate, in order:
    the records its [fetch] returns, and nothing when it is disabled or
    its [fetch] raises.  The next adapter starts from the state the
    previous one left. *)
Fixpoint contributions (adapters : list BaseAdapter.Adapter)
         (data_sources : gmap string AdapterConfig) (stream : string)
         (profile : Profile) (st : state) : list (list ProspectRecord) :=
  match adapters with
  | [] => []
  | a :: rest =>
      if BaseAdapter.is_enabled a data_sources then
        match BaseAdapter.fetch a
                (BaseAdapter.get_adapter_config a data_sources)
                stream profile st with
        | (Ret records, st') =>
            records :: contributions rest data_sources stream profile st'
        | (Raise _, st') =>
            [] :: contributions rest data_sources stream profile st'
        end
      else [] :: contributions rest data_sources stream profile st
  end.

(** The state after the adapters of the registry ran. *)
Fixpoint state_after (adapters : list BaseAdapter.Adapter)
         (data_sources : gmap string AdapterConfig) (stream : string)
         (profile : Profile) (st : state) : state :=
  match adapters with
  | [] => st
  | a :: rest =>
      if BaseAdapter.is_enabled a data_sources then
        state_after rest data_sources stream profile
          (BaseAdapter.fetch a
             (BaseAdapter.get_adapter_config a data_sources)
             stream profile st).2
      else state_after rest data_sources stream profile st
  end.

(** The lead-creation attempts in a trace. *)
Definition is_create (ev : event) : bool :=
  match ev.1 with
  | Create _ => true
  | _ => false
  end.

Definition attempts (tr : list event) : Z :=
  Z.of_nat (length (List.filter is_create tr)).

(** No [create] fails. *)
Definition create_never_fails (w : World) : Prop :=
  forall tr values, is_ret (execute_create w tr values) = true.

(** An adapter that returns fixed records, and one that requests a page
    and then fails. *)
Definition fixed_adapter (name : string) (records : list ProspectRecord)
  : BaseAdapter.Adapter :=
  {| BaseAdapter.name := name;
     BaseAdapter.fetch := fun _ _ _ => ret records |}.

Definition failing_adapter (name : string) : BaseAdapter.Adapter :=
  {| BaseAdapter.name := name;
     BaseAdapter.fetch := fun _ _ _ =>
       do _ <- perform (HttpGet "https://example.com/")
                       (fun _ => Ret "<html></html>") ;;
       raise (OtherException "ValueError") |}.

Definition both_enabled_config : StreamConfig := {|
  target_profile := profile_excluding [];
  data_sources :=
    <["broken" := codes_config []]> (<["fixed" := codes_config []]> ∅);
  dedup_match_on := Some ["partner_name"; "city"]
|}.

(** An Odoo without leads whose first [create] fails and whose later ones
    succeed. *)
Definition flaky_world (config : StreamConfig) : World := {|
  execute_search_read := fun _ _ _ _ => Ret [];
  execute_create := fun tr _ =>
    if existsb is_create tr then Ret 42
    else Raise (OtherException "Fault");
  execute_search := fun _ _ _ => Ret [7];
  http_get := fun _ _ => Raise RequestException;
  environ := odoo_environ;
  stream_config := fun _ => Ret config
|}.

(** What holds of the counters and the trace all along the creation loop
    that started in [st0] under the cap [N]: the cap bounds the leads
    created, a record is skipped only once the cap is met, and the
    [create] calls made are the leads created plus the failures. *)
Definition within_cap (w : World) (dry_run : bool) (N : Z) (st0 : state)
           (c : Main.counters) (st : state) : Prop :=
  0 <= Main.created c <= N
  /\ 0 <= Main.skipped_limit c /\ 0 <= Main.errors c
  /\ (0 < Main.skipped_limit c -> Main.created c = N)
  /\ attempts (trace st) =
     attempts (trace st0)
     + (if dry_run then 0 else Main.created c + Main.errors c)
  /\ (create_never_fails w -> Main.errors c = 0).

(** ** Reading patterns declaratively *)

(** [matches r pre rest]: the pattern [r] can consume [pre] when [rest]
    follows it. *)
Inductive matches : regex -> string -> string -> Prop :=
| matches_eps rest : matches Eps "" rest
| matches_chr p c rest : p c = true -> matches (Chr p) (String c "") rest
| matches_seq r1 r2 p1 p2 rest :
    matches r1 p1 (p2 +:+ rest) -> matches r2 p2 rest ->
    matches (Seq r1 r2) (p1 +:+ p2) rest
| matches_alt_l r1 r2 p rest : matches r1 p rest -> matches (Alt r1 r2) p rest
| matches_alt_r r1 r2 p rest : matches r2 p rest -> matches (Alt r1 r2) p rest
| matches_star_nil r rest : matches (Star r) "" rest
| matches_star_cons r p1 p2 rest :
    matches r p1 (p2 +:+ rest) -> matches (Star r) p2 rest ->
    matches (Star r) (p1 +:+ p2) rest
| matches_group n r p rest : matches r p rest -> matches (Group n r) p rest
| matches_eos rest : at_end rest = true -> matches Eos "" rest.

(** The zip code at the start of [t]: five digits, and four more after a
    hyphen when they are there. *)
Definition zip_at (t : string) : option string :=
  match t with
  | String d1 (String d2 (String d3 (String d4 (String d5 u)))) =>
      if forallb is_digit [d1; d2; d3; d4; d5] then
        let five := string_of_list_ascii [d1; d2; d3; d4; d5] in
        match u with
        | String h (String e1 (String e2 (String e3 (String e4 _)))) =>
            if Ascii.eqb "-" h && forallb is_digit [e1; e2; e3; e4]
            then Some (five +:+ string_of_list_ascii [h; e1; e2; e3; e4])
            else Some five
        | _ => Some five
        end
      else None
  | _ => None
  end.

(** The state code and the zip code of a token: two capital letters at its
    start, then whitespace, then possibly a zip code. *)
Definition state_zip_of (tok : string) : option (string * option string) :=
  match tok with
  | String a (String b rest) =>
      if is_upper a && is_upper b
      then Some (String a (String b ""), zip_at (lstrip rest))
      else None
  | _ => None
  end.

(** The matcher of one whitespace character, as [Star] calls it. *)
Definition space_body {R} : string -> captures ->
                            (string -> captures -> option R) -> option R :=
  fun s' caps' k' => mtch (Chr is_space) s' caps' k'.

(** The captures of a match of [state_zip_re] that read the state code
    [st] and the zip code [z]. *)
Definition state_zip_captures (found : string * option string) : captures :=
  match found.2 with
  | Some z => <[2%nat := z]> (<[1%nat := found.1]> ∅)
  | None => <[1%nat := found.1]> ∅
  end.

(** The records of a list that come first with their key, given the keys
    seen before. *)
Fixpoint first_seen (seen : gset string) (records : list ProspectRecord)
  : list ProspectRecord :=
  match records with
  | [] => []
  | r :: rs =>
      if bool_decide (GoogleMaps.dedup_key r ∈ seen) then first_seen seen rs
      else r :: first_seen ({[GoogleMaps.dedup_key r]} ∪ seen) rs
  end.

(** A world whose every web page is [html]. *)
Definition web_world (html : string) : World := {|
  execute_search_read := fun _ _ _ _ => Ret [];
  execute_create := fun tr _ => Ret (Z.of_nat (length tr));
  execute_search := fun _ _ _ => Ret [7];
  http_get := fun _ _ => Ret html;
  environ := odoo_environ;
  stream_config := fun _ => Ret no_adapters_config
|}.

(** ** Further vocabulary *)



(** [z] is written like a zip code: five digits, or five digits, a hyphen
    and four digits. *)
Definition zip_shaped (z : string) : Prop :=
  exists five,
    String.length five = 5%nat /\ all_chars is_digit five = true
    /\ (z = five
        \/ exists four,
             String.length four = 4%nat /\ all_chars is_digit four = true
             /\ z = five +:+ "-" +:+ four).

(** [st] is written like a state code: two capital letters. *)
Definition state_shaped (st : string) : Prop :=
  exists a b, st = String a (String b "")
              /\ is_upper a = true /\ is_upper b = true.

(** [lstrip] leaves a string that does not start with whitespace. *)
Definition starts_clean (s : string) : Prop :=
  match s with
  | EmptyString => True
  | String c _ => is_space c = false
  end.

(** A [search_read] on the leads. *)
Definition is_search_read (ev : event) : bool :=
  match ev.1 with
  | SearchRead _ _ _ => true
  | _ => false
  end.

(** The record has a name to look up. *)
Definition has_name (record : ProspectRecord) : bool :=
  negb (is_empty (partner_name record)
        || is_empty (strip (partner_name record))).

(** The street of a lead as [is_duplicate] reads it, and a lead whose
    street is a string, [False] or missing. *)
Definition street_of (candidate : dict) : string :=
  match candidate !! "street" with
  | Some (VStr s) => s
  | _ => ""
  end.

Definition street_readable (candidate : dict) : Prop :=
  candidate !! "street" = None
  \/ (exists s, candidate !! "street" = Some (VStr s))
  \/ candidate !! "street" = Some (VBool false).

(** The street of a record as [is_duplicate] compares it. *)
Definition street_key (record : ProspectRecord) : string :=
  strip (lower (default "" (street record))).

(** The query [is_duplicate] makes for a record. *)
Definition duplicate_query (record : ProspectRecord)
           (match_on : list string) : call :=
  SearchRead (OdooClient.duplicate_domain (partner_name record)
                                          (query_city record match_on))
             OdooClient.duplicate_fields (Some 50).

(** [st'] is [st] with the events [evs] added. *)
Definition extends (st : state) (evs : list event) (st' : state) : Prop :=
  trace st' = trace st ++ evs /\ url_cache st' = url_cache st.

(** A record with a street. *)
Definition prospect_at (partner_name city street : string)
  : ProspectRecord :=
  {| partner_name := partner_name;
     street := Some street; city := Some city; state_code := Some "NY";
     zip := None; country_code := "US";
     phone := None; website := None; description := None;
     x_data_source := Some "google_maps"; x_bd_stream := Some "stream_a";
     x_enrichment_status := "pending";
     x_already_importing := None; x_import_source_country := None;
     x_current_supplier := None; x_property_type := None;
     x_estimated_spaces := None; place_id := None |}.

(** The lookup [get_state_id] makes for a code in the US. *)
Definition state_lookup (code : string) : call :=
  Search "res.country.state"
         [("code", "=", upper code); ("country_id.code", "=", "US")].

(** The two lookups [run] starts with. *)
Definition stage_lookup : call :=
  Search "crm.stage" [("name", "=", "Research")].
Definition country_lookup : call :=
  Search "res.country" [("code", "=", "US")].

(** The variables [from_env] needs. *)
Definition required_variables : list string :=
  ["ODOO_URL"; "ODOO_DB"; "ODOO_USER"; "ODOO_API_KEY"].

(** The variable is set to something. *)
Definition is_set (w : World) (variable : string) : Prop :=
  exists s, environ w !! variable = Some s /\ s <> "".

(** The call was answered. *)
Definition answered (ev : event) : bool := ev.2.

(** How many of the events satisfy [p]. *)
Definition count (p : event -> bool) (evs : list event) : Z :=
  Z.of_nat (length (List.filter p evs)).

(** The state [st] with the events [evs] added to its trace. *)
Definition after (st : state) (evs : list event) : state :=
  {| trace := trace st ++ evs; url_cache := url_cache st |}.

(** An Odoo in which the "Research" stage does not exist. *)
Definition world_without_stage : World := {|
  execute_search_read := fun _ _ _ _ => Ret [];
  execute_create := fun tr _ => Ret (Z.of_nat (length tr));
  execute_search := fun _ model _ =>
    if String.eqb model "crm.stage" then Ret [] else Ret [7];
  http_get := fun _ _ => Raise RequestException;
  environ := odoo_environ;
  stream_config := fun _ => Ret both_enabled_config
|}.

(** A machine on which the API key of Odoo is not set. *)
Definition world_without_key : World := {|
  execute_search_read := fun _ _ _ _ => Ret [];
  execute_create := fun tr _ => Ret (Z.of_nat (length tr));
  execute_search := fun _ _ _ => Ret [7];
  http_get := fun _ _ => Raise RequestException;
  environ := delete "ODOO_API_KEY" odoo_environ;
  stream_config := fun _ => Ret both_enabled_config
|}.

(** The records collected so far have pairwise different keys, all of
    them among the keys seen. *)
Definition keyed_apart (key : ProspectRecord -> string)
           (acc : list ProspectRecord * gset string) : Prop :=
  NoDup (key <$> acc.1) /\ Forall (fun r => key r ∈ acc.2) acc.1.

(** The key the trade-data adapter compares records by. *)
Definition name_key (rec : ProspectRecord) : string :=
  strip (lower (partner_name rec)).


(** The event is a page request. *)
Definition is_http_get (ev : event) : bool :=
  match ev.1 with
  | HttpGet _ => true
  | _ => false
  end.

(** From [st0] to [st], at most [n] calls were made, all of them page
    requests, and no page was dropped from the cache. *)
Definition fetched_since (st0 : state) (n : nat) (st : state) : Prop :=
  exists evs,
    trace st = trace st0 ++ evs
    /\ Forall (fun ev => is_http_get ev = true) evs
    /\ (length evs <= n)%nat
    /\ url_cache st0 ⊆ url_cache st.

(** The only way a page request fails is [requests.RequestException]. *)
Definition only_request_errors (w : World) : Prop :=
  forall tr url e, http_get w tr url = Raise e -> e = RequestException.

(** A network on which every request fails, and one that is broken in
    another way. *)
Definition offline_world : World := world_of_leads [] no_adapters_config.

Definition broken_world (e : exn) : World := {|
  execute_search_read := fun _ _ _ _ => Ret [];
  execute_create := fun tr _ => Ret (Z.of_nat (length tr));
  execute_search := fun _ _ _ => Ret [7];
  http_get := fun _ _ => Raise e;
  environ := odoo_environ;
  stream_config := fun _ => Ret no_adapters_config
|}.

(** A page parser that finds the same two importers, named alike, on
    every page. *)
Definition two_cards (html : string) : list string :=
  ["Acme Bakery Inc"; " ACME BAKERY INC "].
Definition card_record (c : string) (stream hs_code : string)
  : option ProspectRecord := Some (prospect c "Syracuse").


End Vocabulary.

Import PyStr Re Normalizer Effects Config Vocabulary.

(* ===================================================================== *)
(** * Rules for [triple] *)
(* ===================================================================== *)

Lemma triple_ret {A} (P : state -> Prop) (a : A) (Q : A -> state -> Prop) E :
  (forall st, P st -> Q a st) -> triple P (ret a) Q E.
Proof. intros H st HP. simpl. auto. Qed.

Lemma triple_raise {A} (P : state -> Prop) (e : exn) (Q : A -> state -> Prop)
      (E : state -> Prop) :
  (forall st, P st -> E st) -> triple P (raise e) Q E.
Proof. intros H st HP. simpl. auto. Qed.

Lemma triple_lift {A} (P : state -> Prop) (o : outcome A)
      (Q : A -> state -> Prop) (E : state -> Prop) :
  (forall st, P st -> match o with Ret a => Q a st | Raise _ => E st end) ->
  triple P (lift o) Q E.
Proof. intros H st HP. unfold lift. specialize (H st HP). by destruct o. Qed.

Lemma triple_bind {A B} (P : state -> Prop) (c : M A) (f : A -> M B)
      (R : A -> state -> Prop) (Q : B -> state -> Prop) (E : state -> Prop) :
  triple P c R E -> (forall a, triple (R a) (f a) Q E) ->
  triple P (bind c f) Q E.
Proof.
  intros Hc Hf st HP. unfold bind. specialize (Hc st HP).
  destruct (c st) as [[a|e] st']; [|assumption]. by apply Hf.
Qed.

Lemma triple_try_except {A} (P : state -> Prop) (c : M A) (h : exn -> M A)
      (Q : A -> state -> Prop) (E E' : state -> Prop) :
  triple P c Q E' -> (forall e, triple E' (h e) Q E) ->
  triple P (try_except c h) Q E.
Proof.
  intros Hc Hh st HP. unfold try_except. specialize (Hc st HP).
  destruct (c st) as [[a|e] st']; [assumption|]. by apply Hh.
Qed.

Lemma triple_weaken {A} (P P' : state -> Prop) (c : M A)
      (Q Q' : A -> state -> Prop) (E E' : state -> Prop) :
  triple P' c Q' E' ->
  (forall st, P st -> P' st) -> (forall a st, Q' a st -> Q a st) ->
  (forall st, E' st -> E st) ->
  triple P c Q E.
Proof.
  intros Hc HP HQ HE st Hst. specialize (Hc st (HP st Hst)).
  destruct (c st) as [[a|e] st']; auto.
Qed.

(** A loop keeps an invariant that each turn keeps. *)
Lemma triple_for_each {A B} (I : B -> state -> Prop) (E : state -> Prop)
      (body : B -> A -> M B) (l : list A) :
  (forall acc x, x ∈ l -> triple (I acc) (body acc x) I E) ->
  forall acc, triple (I acc) (for_each body acc l) I E.
Proof.
  induction l as [|x l IH]; intros Hbody acc; simpl.
  - apply triple_ret. auto.
  - eapply triple_bind.
    + apply Hbody. left.
    + intros acc'. apply IH. intros acc'' y Hy. apply Hbody. by right.
Qed.

(** [perform] adds its one event to the trace and leaves the cache. *)
Lemma triple_perform {A} (c : call) (answer : list event -> outcome A)
      (P : state -> Prop) (Q : A -> state -> Prop) (E : state -> Prop) :
  (forall st, P st ->
     let st' := {| trace := trace st ++ [(c, is_ret (answer (trace st)))];
                   url_cache := url_cache st |} in
     match answer (trace st) with
     | Ret a => Q a st'
     | Raise _ => E st'
     end) ->
  triple P (perform c answer) Q E.
Proof.
  intros H st HP. unfold perform. specialize (H st HP). simpl in H.
  by destruct (answer (trace st)).
Qed.

(* ===================================================================== *)
(** * Properties of the structured-API adapter *)
(* ===================================================================== *)

Lemma starts_with_prefix (pre s : string) :
  starts_with pre s = true <-> exists post, s = pre +:+ post.
Proof.
  revert s. induction pre as [|a p IH]; intros s; simpl.
  - split; [eauto|reflexivity].
  - destruct s as [|b t].
    + split; [discriminate|]. intros [post H]. discriminate H.
    + rewrite andb_true_iff, IH. split.
      * intros [Hab [post ->]]. apply Ascii.eqb_eq in Hab as ->. eauto.
      * intros [post H]. inversion H; subst.
        split; [apply Ascii.eqb_refl|eauto].
Qed.

(** The [in] operator on strings is the substring relation. *)
Lemma contains_substring (s sub : string) :
  contains s sub = true <-> substring sub s.
Proof.
  unfold substring. induction s as [|c t IH].
  - simpl. rewrite orb_false_r, starts_with_prefix. split.
    + intros [post H]. exists "", post. exact H.
    + intros (pre & post & H). destruct pre; [eauto|discriminate H].
  - cbn [contains]. rewrite orb_true_iff, starts_with_prefix, IH. split.
    + intros [[post H]|(pre & post & ->)].
      * exists "", post. exact H.
      * exists (String c pre), post. reflexivity.
    + intros (pre & post & H). destruct pre as [|c' pre].
      * left. exists post. exact H.
      * right. inversion H; subst. eauto.
Qed.

(** A record is excluded when its lower-cased name contains one of the
    lower-cased fragments. *)
Lemma excluded_iff (fragments : list string) (rec : ProspectRecord) :
  GoogleMaps.excluded (lower <$> fragments) rec = true <->
  exists frag, frag ∈ fragments
               /\ substring (lower frag) (lower (partner_name rec)).
Proof.
  assert (Hex : existsb (fun op => contains (lower (partner_name rec)) op)
                        (lower <$> fragments) = true <->
                exists frag, frag ∈ fragments
                  /\ substring (lower frag) (lower (partner_name rec))).
  { rewrite existsb_exists. split.
    - intros (op & Hin & Hc). apply list_elem_of_In, list_elem_of_fmap in Hin
        as (frag & -> & Hfrag).
      exists frag. split; [assumption|]. by apply contains_substring.
    - intros (frag & Hfrag & Hsub). exists (lower frag). split.
      + apply list_elem_of_In, list_elem_of_fmap. eauto.
      + by apply contains_substring. }
  unfold GoogleMaps.excluded.
  destruct fragments as [|f fs]; [|exact Hex].
  simpl. split; [discriminate|]. intros (frag & Hin & _).
  by apply not_elem_of_nil in Hin.
Qed.

(** What [accept] does with a record whose key it has not seen. *)
Lemma accept_fresh (ops : list string) (all_records : list ProspectRecord)
      (seen : gset string) (rec : ProspectRecord) :
  GoogleMaps.dedup_key rec ∉ seen ->
  GoogleMaps.accept ops (all_records, seen) rec =
  (if GoogleMaps.excluded ops rec then all_records else all_records ++ [rec],
   {[GoogleMaps.dedup_key rec]} ∪ seen).
Proof.
  intros Hfresh. unfold GoogleMaps.accept.
  rewrite bool_decide_eq_false_2 by assumption.
  by destruct (GoogleMaps.excluded ops rec).
Qed.

(** No record that [accept] lets through is excluded. *)
Lemma accept_keeps_unexcluded (ops : list string)
      (acc : list ProspectRecord * gset string) (rec : ProspectRecord) :
  Forall (fun r => GoogleMaps.excluded ops r = false) acc.1 ->
  Forall (fun r => GoogleMaps.excluded ops r = false)
         (GoogleMaps.accept ops acc rec).1.
Proof.
  destruct acc as [all_records seen]. intros Hall. unfold GoogleMaps.accept.
  destruct (bool_decide _); [assumption|].
  destruct (GoogleMaps.excluded ops rec) eqn:E; [assumption|].
  simpl. apply Forall_app. split; [assumption|]. by constructor.
Qed.

Lemma foldl_accept_keeps_unexcluded (ops : list string)
      (records : list ProspectRecord) :
  forall acc,
    Forall (fun r => GoogleMaps.excluded ops r = false) acc.1 ->
    Forall (fun r => GoogleMaps.excluded ops r = false)
           (foldl (GoogleMaps.accept ops) acc records).1.
Proof.
  induction records as [|r rs IH]; intros acc Hacc; simpl; [assumption|].
  apply IH. by apply accept_keeps_unexcluded.
Qed.

(** Over the results of one query, [accept] keeps the records that come
    first with their key and are not excluded. *)
Lemma foldl_accept_first_seen (ops : list string)
      (records : list ProspectRecord) :
  forall (all_records : list ProspectRecord) (seen : gset string),
    (foldl (GoogleMaps.accept ops) (all_records, seen) records).1 =
    all_records
    ++ List.filter (fun r => negb (GoogleMaps.excluded ops r))
                   (first_seen seen records).
Proof.
  induction records as [|r rs IH]; intros all_records seen;
    cbn [foldl first_seen].
  - simpl. by rewrite app_nil_r.
  - destruct (bool_decide (GoogleMaps.dedup_key r ∈ seen)) eqn:Hseen.
    + apply bool_decide_eq_true in Hseen.
      replace (GoogleMaps.accept ops (all_records, seen) r)
        with (all_records, seen); [apply IH|].
      unfold GoogleMaps.accept. by rewrite bool_decide_eq_true_2.
    + apply bool_decide_eq_false in Hseen.
      rewrite (accept_fresh _ _ _ _ Hseen).
      cbn [List.filter].
      destruct (GoogleMaps.excluded ops r); cbn [negb]; rewrite IH;
        [reflexivity|by rewrite <- app_assoc].
Qed.

(** Whatever [fetch] returns holds no excluded record. *)
Lemma fetch_output_unexcluded (api_key : string)
      (str_format : string -> string -> outcome string)
      (_search_text : string -> string -> bool -> Z -> M (list ProspectRecord))
      (adapter_config : AdapterConfig) (stream : string) (profile : Profile) :
  triple (fun _ => True)
         (GoogleMaps.fetch api_key str_format _search_text adapter_config
                           stream profile)
         (fun out _ =>
            Forall (fun r => GoogleMaps.excluded
                               (lower <$> exclude_operators profile) r = false)
                   out)
         (fun _ => True).
Proof.
  unfold GoogleMaps.fetch.
  destruct (search_queries adapter_config) as [|q qs].
  { apply triple_ret. intros; constructor. }
  set (ops := lower <$> exclude_operators profile).
  set (good := fun (acc : list ProspectRecord * gset string) (_ : state) =>
                 Forall (fun r => GoogleMaps.excluded ops r = false) acc.1).
  eapply triple_bind with (R := fun _ _ => True).
  { intros st _. destruct (GoogleMaps._get_client api_key st) as [[]]; simpl; auto. }
  intros _. eapply triple_bind with (R := good).
  - eapply triple_weaken
      with (P' := good ([], ∅)) (Q' := good) (E' := fun _ => True);
      [|intros; by constructor|auto|auto].
    apply triple_for_each. intros acc query_template _.
    apply triple_for_each. intros acc' city _.
    unfold GoogleMaps.fetch_city.
    eapply triple_bind with (R := fun _ => good acc').
    + apply triple_lift. intros st H. destruct (str_format _ _); simpl; auto.
    + intros query. eapply triple_bind with (R := fun _ => good acc').
      * intros st H. destruct (_search_text _ _ _ _ st) as [[]]; simpl; auto.
      * intros records. apply triple_ret. intros st H.
        by apply foldl_accept_keeps_unexcluded.
  - intros acc. apply triple_ret. auto.
Qed.

Lemma app_singleton_neq {A} (l : list A) (x : A) : l ++ [x] <> l.
Proof.
  intros H. apply (f_equal length) in H. rewrite length_app in H.
  simpl in H. lia.
Qed.

(** C2, as the code has it.  A Places result that [fetch] meets for the
    first time (its key is not among the seen ones) is dropped exactly
    when its lower-cased name contains one of the lower-cased fragments
    of [exclude_operators], and is appended to the output otherwise; of
    the results of a query, the ones that come first with their key and
    are not excluded are kept, in order; what [fetch] returns never holds
    a record whose name contains a fragment.
    With "Example Operator" excluded, "Example Operator - Downtown" is
    dropped and the two other sample places are returned. *)
Theorem exclude_operators_drops_names_containing_a_fragment
        (fragments : list string) (all_records : list ProspectRecord)
        (seen : gset string) (rec : ProspectRecord) :
  GoogleMaps.dedup_key rec ∉ seen ->
  let listed :=
    (exists frag, frag ∈ fragments
                  /\ substring (lower frag) (lower (partner_name rec))) in
  let after :=
    GoogleMaps.accept (lower <$> fragments) (all_records, seen) rec in
  (after.1 = all_records <-> listed)
  /\ (after.1 = all_records ++ [rec] <-> ~ listed)
  /\ (forall records,
        (foldl (GoogleMaps.accept (lower <$> fragments))
               (all_records, seen) records).1 =
        all_records
        ++ List.filter
             (fun r => negb (GoogleMaps.excluded (lower <$> fragments) r))
             (first_seen seen records))
  /\ (forall api_key str_format _search_text adapter_config stream profile st
             out st',
        GoogleMaps.fetch api_key str_format _search_text adapter_config
                         stream profile st = (Ret out, st') ->
        forall r frag,
          r ∈ out -> frag ∈ exclude_operators profile ->
          ~ substring (lower frag) (lower (partner_name r)))
  /\ (GoogleMaps.fetch "key" format_plain (canned_search sample_places)
        parking_config "stream_a" (profile_excluding ["Example Operator"])
        initial).1
     = Ret [ place "Clinton Square Parking" "ChIJ_abc123";
             place "Canal Street Garage" "ChIJ_def789" ].
Proof.
  intros Hfresh listed after. subst after.
  rewrite (accept_fresh _ _ _ _ Hfresh). cbn [fst].
  pose proof (excluded_iff fragments rec) as Hex. fold listed in Hex.
  split; [|split; [|split; [|split]]].
  - destruct (GoogleMaps.excluded (lower <$> fragments) rec).
    + split; [intros _; by apply Hex|reflexivity].
    + split; [intros H; by apply app_singleton_neq in H|].
      intros H. apply Hex in H. discriminate H.
  - destruct (GoogleMaps.excluded (lower <$> fragments) rec).
    + split; [intros H; symmetry in H; by apply app_singleton_neq in H|].
      intros H. destruct H. by apply Hex.
    + split; [|reflexivity]. intros _ H. apply Hex in H. discriminate H.
  - intros records. apply foldl_accept_first_seen.
  - intros api_key str_format _search_text adapter_config stream profile st
           out st' Hfetch r frag Hr Hfrag Hsub.
    pose proof (fetch_output_unexcluded api_key str_format _search_text
                  adapter_config stream profile st I) as Hout.
    rewrite Hfetch in Hout. rewrite Forall_forall in Hout.
    specialize (Hout r Hr).
    assert (GoogleMaps.excluded (lower <$> exclude_operators profile) r
            = true) as Htrue by (apply excluded_iff; eauto).
    congruence.
  - vm_compute. reflexivity.
Qed.

Lemma exclude_operators_drops_names_containing_a_fragment_witness :
  (GoogleMaps.dedup_key (place "Example Operator - Downtown" "ChIJ_xyz456")
     ∉ ({["ChIJ_abc123"]} : gset string))
  /\ (GoogleMaps.accept (lower <$> ["Example Operator"])
        ([place "Clinton Square Parking" "ChIJ_abc123"], {["ChIJ_abc123"]})
        (place "Example Operator - Downtown" "ChIJ_xyz456")).1
     = [place "Clinton Square Parking" "ChIJ_abc123"].
Proof.
  assert (Hfresh :
            GoogleMaps.dedup_key (place "Example Operator - Downtown"
                                        "ChIJ_xyz456")
              ∉ ({["ChIJ_abc123"]} : gset string)).
  { intros H. apply elem_of_singleton in H. discriminate H. }
  split; [exact Hfresh|].
  apply (exclude_operators_drops_names_containing_a_fragment
           ["Example Operator"]
           [place "Clinton Square Parking" "ChIJ_abc123"]
           {["ChIJ_abc123"]}
           (place "Example Operator - Downtown" "ChIJ_xyz456") Hfresh).
  exists "Example Operator". split; [by left|].
  exists "", " - downtown". vm_compute. reflexivity.
Defined.

(** The "is contained by" half of C2 as the specification words it does
    not hold: a place whose name is only a part of an excluded fragment is
    returned. *)
Lemma name_inside_a_fragment_is_kept :
  substring (lower "Example Operator")
            (lower "Example Operator Holdings Inc")
  /\ (GoogleMaps.fetch "key" format_plain
        (canned_search [place "Example Operator" "ChIJ_xyz456"])
        parking_config "stream_a"
        (profile_excluding ["Example Operator Holdings Inc"]) initial).1
     = Ret [place "Example Operator" "ChIJ_xyz456"].
Proof.
  split.
  - exists "", " holdings inc". vm_compute. reflexivity.
  - vm_compute. reflexivity.
Qed.

(* ===================================================================== *)
(** * Properties of the scraped-source adapter *)
(* ===================================================================== *)

Lemma downloads_snoc (url : string) (tr : list event) (ev : event) :
  downloads url (tr ++ [ev]) =
  (downloads url tr + if is_get url ev && ev.2 then 1 else 0)%nat.
Proof.
  unfold downloads. rewrite List.filter_app, length_app. simpl.
  by destruct (is_get url ev && ev.2).
Qed.

Section Cache.
Variable w : World.
Variable quote_plus : string -> string.
Variable card : Type.
Variable _find_cards : string -> list card.
Variable _parse_single_card : card -> string -> string -> option ProspectRecord.
(** The number of events before the stretch of the trace looked at. *)
Variable n : nat.

(** A cached page is returned as it is; the state, and so the trace of
    calls, does not change. *)
Lemma _get_cached_hit (url html : string) (st : state) :
  url_cache st !! url = Some html ->
  TradeData._get_cached w url st = (Ret (Some html), st).
Proof. intros H. unfold TradeData._get_cached. by rewrite H. Qed.

Lemma _get_cached_consistent (url : string) :
  triple (cache_consistent_from n) (TradeData._get_cached w url)
         (fun _ => cache_consistent_from n) (cache_consistent_from n).
Proof.
  intros st [Hn Hst]. unfold TradeData._get_cached.
  destruct (url_cache st !! url) as [html|] eqn:Hc; [by split|].
  unfold perform.
  assert (Hnone : downloads url (drop n (trace st)) = 0%nat).
  { destruct (Hst url) as [_ H].
    destruct (downloads url (drop n (trace st))); [reflexivity|].
    destruct H as [? H]; [lia|]. congruence. }
  assert (Hfail : forall st' : state,
             trace st' = trace st ++ [(HttpGet url, false)] ->
             url_cache st' = url_cache st -> cache_consistent_from n st').
  { intros st' Htr Hca. split; [rewrite Htr, length_app; lia|].
    intros u. rewrite Htr, Hca, drop_app_le, downloads_snoc by assumption.
    cbn [snd]. rewrite andb_false_r, Nat.add_0_r. apply Hst. }
  destruct (http_get w (trace st) url) as [html|e]; cbn [is_ret].
  - split; [cbn [trace]; rewrite length_app; lia|].
    intros u. cbn [trace url_cache].
    rewrite drop_app_le, downloads_snoc by assumption.
    unfold is_get. cbn [fst snd]. rewrite andb_true_r.
    destruct (String.eqb_spec url u) as [->|Hne].
    + rewrite Hnone. split; [lia|]. intros _.
      rewrite lookup_insert_eq. eauto.
    + rewrite Nat.add_0_r, lookup_insert_ne by assumption. apply Hst.
  - destruct e; by apply Hfail.
Qed.

Lemma _fetch_by_hs_code_consistent (hs_code stream : string)
      (exclude_from priority_states : list string) :
  triple (cache_consistent_from n)
         (TradeData._fetch_by_hs_code w quote_plus card _find_cards
            _parse_single_card hs_code stream exclude_from priority_states)
         (fun _ => cache_consistent_from n) (cache_consistent_from n).
Proof.
  unfold TradeData._fetch_by_hs_code.
  eapply triple_bind; [apply _get_cached_consistent|].
  intros [html|]; [|by apply triple_ret].
  destruct (TradeData._parse_company_cards _ _ _ _ _ _ _ _);
    [|by apply triple_ret].
  eapply triple_bind; [apply _get_cached_consistent|].
  intros [h2|]; [|by apply triple_ret].
  destruct (is_empty h2); by apply triple_ret.
Qed.

Lemma fetch_consistent (adapter_config : AdapterConfig) (stream : string)
      (profile : Profile) :
  triple (cache_consistent_from n)
         (TradeData.fetch w quote_plus card _find_cards _parse_single_card
                          adapter_config stream profile)
         (fun _ => cache_consistent_from n) (cache_consistent_from n).
Proof.
  unfold TradeData.fetch.
  destruct (Config.hs_codes adapter_config) as [|c cs];
    [by apply triple_ret|].
  eapply triple_bind with (R := fun _ => cache_consistent_from n);
    [|intros; by apply triple_ret].
  apply (triple_for_each (fun _ => cache_consistent_from n)).
  intros acc hs_code _.
  eapply triple_bind; [apply _fetch_by_hs_code_consistent|].
  intros records. by apply triple_ret.
Qed.

End Cache.

Lemma initial_consistent : cache_consistent initial.
Proof.
  split; [simpl; lia|]. intros url. unfold downloads. simpl. split; lia.
Qed.

(** Whatever the state, nothing happened since its last event. *)
Lemma consistent_from_now (st : state) :
  cache_consistent_from (length (trace st)) st.
Proof.
  split; [lia|]. intros url. rewrite drop_all. unfold downloads. simpl.
  split; lia.
Qed.

(** C3, as the code has it.  Within one [fetch] of the scraped-source
    adapter, from any state and whether [fetch] returns or raises, every
    URL is downloaded successfully at most once.  If no page was
    downloaded twice and every downloaded page is cached before (the
    state of a fresh adapter is such), the same holds after.  A lookup of
    a cached URL returns the cached page and makes no request.  A request
    that fails leaves nothing in the cache, and the next lookup of its
    URL makes a request again.  When the pages can be fetched, the codes
    3923.30 and 392330, which share the page of 39233000, make one
    request for it. *)
Theorem url_downloaded_at_most_once
        (w : World) (quote_plus : string -> string) (card : Type)
        (_find_cards : string -> list card)
        (_parse_single_card : card -> string -> string -> option ProspectRecord)
        (adapter_config : AdapterConfig) (stream : string) (profile : Profile)
        (st : state) :
  let st' := (TradeData.fetch w quote_plus card _find_cards
                _parse_single_card adapter_config stream profile st).2 in
  (forall url, (downloads url (events_since st st') <= 1)%nat)
  /\ (cache_consistent st -> cache_consistent st')
  /\ (forall url html st0,
        url_cache st0 !! url = Some html ->
        TradeData._get_cached w url st0 = (Ret (Some html), st0))
  /\ (forall url st0,
        url_cache st0 !! url = None ->
        http_get w (trace st0) url = Raise RequestException ->
        TradeData._get_cached w url st0 =
        (Ret None, {| trace := trace st0 ++ [(HttpGet url, false)];
                      url_cache := url_cache st0 |}))
  /\ requests (TradeData.HS_CODE_URL "39233000")
       (trace (TradeData.fetch
                 (web_world "<html></html>") quote_safe unit
                 no_cards no_record (codes_config ["3923.30"; "392330"])
                 "stream_c" (profile_excluding []) initial).2) = 1%nat.
Proof.
  intros st'.
  assert (Hkeep : forall n, cache_consistent_from n st ->
                            cache_consistent_from n st').
  { intros n Hst.
    pose proof (fetch_consistent w quote_plus card _find_cards
                  _parse_single_card n adapter_config stream profile st Hst)
      as Hfetch.
    subst st'. destruct (TradeData.fetch _ _ _ _ _ _ _ _ st) as [[a|e] s];
      exact Hfetch. }
  split; [|split; [apply Hkeep|split; [|split]]].
  - intros url. apply (Hkeep _ (consistent_from_now st)).
  - intros url html st0. apply _get_cached_hit.
  - intros url st0 Hmiss Hfail. unfold TradeData._get_cached, perform.
    rewrite Hmiss, Hfail. reflexivity.
  - vm_compute. reflexivity.
Qed.

Lemma url_downloaded_at_most_once_witness :
  cache_consistent initial
  /\ cache_consistent
       (TradeData.fetch
          (world_of_leads [] no_adapters_config) quote_safe unit
          no_cards no_record (codes_config ["3923.30"; "3923.50"])
          "stream_c" (profile_excluding []) initial).2.
Proof.
  split; [exact initial_consistent|].
  apply (url_downloaded_at_most_once
           (world_of_leads [] no_adapters_config) quote_safe unit
           no_cards no_record (codes_config ["3923.30"; "3923.50"])
           "stream_c" (profile_excluding []) initial).
  exact initial_consistent.
Defined.

(** C3 as the specification words it does not hold: when the page of a
    code cannot be fetched, two codes that lead to the same URL make two
    requests for it. *)
Lemma failed_url_is_requested_again :
  requests (TradeData.HS_CODE_URL "39233000")
    (trace (TradeData.fetch
              (world_of_leads [] no_adapters_config) quote_safe unit
              no_cards no_record (codes_config ["3923.30"; "392330"])
              "stream_c" (profile_excluding []) initial).2) = 2%nat.
Proof. vm_compute. reflexivity. Qed.

(* ===================================================================== *)
(** * Properties of the write payload *)
(* ===================================================================== *)

Section Payload.

Lemma lookup_put_str_ne key key' field (values : gmap string value) :
  key ≠ key' -> put_str key field values !! key' = values !! key'.
Proof.
  intros Hne. unfold put_str.
  destruct field as [s|]; [destruct (is_empty s)|]; try reflexivity.
  by rewrite lookup_insert_ne.
Qed.

Lemma lookup_put_str_eq key field (values : gmap string value) :
  values !! key = None ->
  put_str key field values !! key = present_text field.
Proof.
  intros Hnone. unfold put_str, present_text.
  destruct field as [s|]; [destruct (is_empty s)|]; try assumption.
  by rewrite lookup_insert_eq.
Qed.

Lemma lookup_put_id_ne key key' ident (values : gmap string value) :
  key ≠ key' -> put_id key ident values !! key' = values !! key'.
Proof.
  intros Hne. unfold put_id.
  destruct ident as [z|]; [destruct (z =? 0)|]; try reflexivity.
  by rewrite lookup_insert_ne.
Qed.

Lemma lookup_put_some_ne key key' field (values : gmap string value) :
  key ≠ key' -> put_some key field values !! key' = values !! key'.
Proof.
  intros Hne. unfold put_some.
  destruct field; [|reflexivity]. by rewrite lookup_insert_ne.
Qed.

Lemma lookup_put_some_eq key field (values : gmap string value) :
  values !! key = None -> put_some key field values !! key = field.
Proof.
  intros Hnone. unfold put_some.
  destruct field; [|assumption]. by rewrite lookup_insert_eq.
Qed.

(** Walk down the chain of conditional assignments to the one that
    writes the key looked up. *)
Ltac skip_other_keys :=
  repeat first
    [ rewrite lookup_put_str_ne by discriminate
    | rewrite lookup_put_id_ne by discriminate
    | rewrite lookup_put_some_ne by discriminate
    | rewrite lookup_insert_ne by discriminate ].

Ltac lookup_key :=
  unfold to_odoo_values; cbv zeta; skip_other_keys;
  first [ rewrite lookup_put_str_eq | rewrite lookup_put_some_eq ];
  [ reflexivity | skip_other_keys; apply lookup_empty ].

Lemma lookup_optional_text self stream stage_id state_id country_id :
  Forall (fun kf =>
            to_odoo_values self stream stage_id state_id country_id
              !! kf.1 = present_text (kf.2 self))
         optional_text_fields.
Proof.
  unfold optional_text_fields.
  repeat (apply Forall_cons; split; [simpl fst; simpl snd; lookup_key|]).
  constructor.
Qed.

Lemma lookup_already_importing self stream stage_id state_id country_id :
  to_odoo_values self stream stage_id state_id country_id
    !! "x_already_importing" = VBool <$> x_already_importing self.
Proof. lookup_key. Qed.

Lemma lookup_estimated_spaces self stream stage_id state_id country_id :
  to_odoo_values self stream stage_id state_id country_id
    !! "x_estimated_spaces" = VInt <$> x_estimated_spaces self.
Proof. lookup_key. Qed.

(** C4.  In the payload of [to_odoo_values], each key of an optional
    text field of the record is present exactly when the field holds a
    non-empty string, and then carries that string; a field left at
    [None] writes no key, and no key carries an empty string.  The
    boolean [x_already_importing] is written whenever it is not [None]:
    an explicit [False] appears as [False], a field never set leaves the
    key out.  The same holds for the integer [x_estimated_spaces].  (The
    key [x_bd_stream] carries the [stream] argument of the call, not the
    record's field.) *)
Theorem to_odoo_values_omits_unset_fields
        (self : ProspectRecord) (stream : string) (stage_id : Z)
        (state_id country_id : option Z) :
  let values := to_odoo_values self stream stage_id state_id country_id in
  Forall (fun kf : string * (ProspectRecord -> option string) =>
            (forall v, values !! kf.1 = Some v ->
                       exists s, kf.2 self = Some s /\ s <> "" /\ v = VStr s)
            /\ (kf.2 self = None -> values !! kf.1 = None))
         optional_text_fields
  /\ (forall b, x_already_importing self = Some b <->
                values !! "x_already_importing" = Some (VBool b))
  /\ (x_already_importing self = None <->
      values !! "x_already_importing" = None)
  /\ (forall n, x_estimated_spaces self = Some n <->
                values !! "x_estimated_spaces" = Some (VInt n))
  /\ (x_estimated_spaces self = None <->
      values !! "x_estimated_spaces" = None).
Proof.
  intros values. subst values. split; [|split; [|split; [|split]]].
  - eapply Forall_impl; [apply lookup_optional_text|].
    intros [key field] Hlook. simpl in *. rewrite Hlook. split.
    + intros v Hv. unfold present_text in Hv.
      destruct (field self) as [s|]; [|discriminate].
      destruct s; simpl in Hv; [discriminate|].
      inversion Hv. eexists. split; [reflexivity|]. split; [discriminate|reflexivity].
    + intros ->. reflexivity.
  - intros b. rewrite lookup_already_importing.
    destruct (x_already_importing self); simpl; split; congruence.
  - rewrite lookup_already_importing.
    destruct (x_already_importing self); simpl; split; congruence.
  - intros n. rewrite lookup_estimated_spaces.
    destruct (x_estimated_spaces self); simpl; split; congruence.
  - rewrite lookup_estimated_spaces.
    destruct (x_estimated_spaces self); simpl; split; congruence.
Qed.

End Payload.

Lemma to_odoo_values_omits_unset_fields_witness :
  let rec :=
    {| partner_name := "Z Corp";
       street := None; city := Some "Syracuse"; state_code := None;
       zip := Some ""; country_code := "US";
       phone := None; website := None; description := None;
       x_data_source := None; x_bd_stream := None;
       x_enrichment_status := "pending";
       x_already_importing := Some false; x_import_source_country := None;
       x_current_supplier := None; x_property_type := None;
       x_estimated_spaces := None; place_id := None |} in
  let values := to_odoo_values rec "stream_c" 1 None None in
  values !! "x_already_importing" = Some (VBool false)
  /\ values !! "x_estimated_spaces" = None
  /\ values !! "street" = None.
Proof.
  intros rec values.
  destruct (to_odoo_values_omits_unset_fields rec "stream_c" 1 None None)
    as (Htext & Hbool & _ & _ & Hspaces).
  split; [by apply Hbool|]. split; [by apply Hspaces|].
  apply Forall_inv in Htext as [_ Hstreet]. by apply Hstreet.
Defined.

(* ===================================================================== *)
(** * Properties of the matcher *)
(* ===================================================================== *)

(** A successful search ends in a successful call of the continuation,
    and no capture is lost on the way. *)
Lemma mtch_success {R} (r : regex) :
  forall (s : string) (caps : captures)
         (k : string -> captures -> option R) (x : R),
    mtch r s caps k = Some x ->
    exists s' caps',
      k s' caps' = Some x /\
      (forall g, is_Some (caps !! g) -> is_Some (caps' !! g)).
Proof.
  induction r as [|p|r1 IH1 r2 IH2|r1 IH1 r2 IH2|r1 IH1|n r1 IH1|];
    intros s caps k x Hm; simpl in Hm.
  - eauto.
  - destruct s as [|c t]; [discriminate|].
    destruct (p c); [eauto|discriminate].
  - apply IH1 in Hm as (s1 & caps1 & Hm & Hsub1).
    apply IH2 in Hm as (s2 & caps2 & Hm & Hsub2). eauto 6.
  - destruct (mtch r1 s caps k) eqn:E1.
    + inversion Hm; subst. eauto.
    + eauto.
  - revert Hm. generalize (String.length s) as fuel. intros fuel.
    revert s caps. induction fuel as [|fuel IHfuel]; intros s caps Hm;
      simpl in Hm.
    + eauto.
    + match type of Hm with
      | match ?m with _ => _ end = _ => destruct m eqn:E1
      end.
      * inversion Hm; subst.
        apply IH1 in E1 as (s1 & caps1 & Hk & Hsub1).
        destruct (String.length s1 <? String.length s)%nat; [|discriminate].
        apply IHfuel in Hk as (s2 & caps2 & Hk & Hsub2). eauto 6.
      * eauto.
  - apply IH1 in Hm as (s1 & caps1 & Hm & Hsub1).
    exists s1, (<[n := consumed s s1]> caps1). split; [assumption|].
    intros g Hg. destruct (decide (n = g)) as [->|Hne].
    + rewrite lookup_insert_eq. eauto.
    + rewrite lookup_insert_ne by assumption. auto.
  - destruct (at_end s); [eauto|discriminate].
Qed.

(** The state group takes part in every match of [state_zip_re]. *)
Lemma state_zip_match_has_state (tok : string) (m : captures) :
  re_match state_zip_re tok = Some m -> is_Some (m !! 1%nat).
Proof.
  unfold re_match, state_zip_re. intros Hm.
  change (mtch (Seq (Group 1 ?a) ?rest) tok ∅ ?k)
    with (mtch a tok ∅
            (fun s' caps' => mtch rest s' (<[1%nat := consumed tok s']> caps') k))
    in Hm.
  apply mtch_success in Hm as (s1 & caps1 & Hm & _).
  apply mtch_success in Hm as (s2 & caps2 & Hm & Hsub).
  inversion Hm; subst. apply Hsub. rewrite lookup_insert_eq. eauto.
Qed.


(* ===================================================================== *)
(** * Properties of the address parser *)
(* ===================================================================== *)

Create HintDb address.

Lemma dom_blank_address : dom blank_address = address_keys.
Proof.
  unfold blank_address, address_keys.
  rewrite !dom_insert_L, dom_empty_L. set_solver.
Qed.

Lemma dom_insert_address_key (key : string) (v : option string)
      (result : address) :
  key ∈ address_keys -> dom result = address_keys ->
  dom (<[key := v]> result) = address_keys.
Proof.
  intros Hkey Hdom. rewrite dom_insert_L, Hdom.
  apply subseteq_union_1_L. by apply singleton_subseteq_l.
Qed.

Lemma address_key_street : "street" ∈ address_keys.
Proof. unfold address_keys. set_solver. Qed.
Lemma address_key_city : "city" ∈ address_keys.
Proof. unfold address_keys. set_solver. Qed.
Lemma address_key_state_code : "state_code" ∈ address_keys.
Proof. unfold address_keys. set_solver. Qed.
Lemma address_key_zip : "zip" ∈ address_keys.
Proof. unfold address_keys. set_solver. Qed.

#[global] Hint Resolve dom_blank_address dom_insert_address_key address_key_street
     address_key_city address_key_state_code address_key_zip : address.

Lemma dom_parse_state_zip (tok : string) (result : address) :
  dom result = address_keys ->
  dom (parse_state_zip tok result) = address_keys.
Proof.
  intros Hdom. unfold parse_state_zip.
  destruct (re_match state_zip_re tok); auto with address.
Qed.

(** A zip code read from the token comes with a state code. *)
Lemma parse_state_zip_zip_needs_state (tok : string) (result : address) :
  (forall z, result !! "zip" = Some (Some z) ->
             exists st, result !! "state_code" = Some (Some st)) ->
  forall z, parse_state_zip tok result !! "zip" = Some (Some z) ->
            exists st, parse_state_zip tok result !! "state_code" = Some (Some st).
Proof.
  intros Hres z. unfold parse_state_zip.
  destruct (re_match state_zip_re tok) as [m|] eqn:Hm; [|apply Hres].
  intros _. apply state_zip_match_has_state in Hm as [st Hst].
  exists st. rewrite lookup_insert_ne by discriminate.
  rewrite lookup_insert_eq. by rewrite Hst.
Qed.

Lemma length_split (sep : ascii) (s : string) : (1 <= length (split sep s))%nat.
Proof.
  induction s as [|c t IH]; simpl; [lia|].
  destruct (Ascii.eqb c sep); simpl; [lia|].
  destruct (split sep t); simpl in *; lia.
Qed.

Lemma length_address_parts (a : string) : (1 <= length (address_parts a))%nat.
Proof.
  unfold address_parts, comma_parts. rewrite length_fmap. apply length_split.
Qed.

(** The parser, case by case on the number of parts. *)
Lemma parse_google_address_cases (a : string) :
  a <> "" ->
  match address_parts a with
  | p0 :: p1 :: p2 :: _ =>
      parse_google_address a =
      Ret (parse_state_zip (strip p2)
             (<["city" := Some p1]> (<["street" := Some p0]> blank_address)))
  | [p0; p1] =>
      parse_google_address a =
      Ret (parse_state_zip (strip p1) (<["city" := Some p0]> blank_address))
  | [p0] =>
      parse_google_address a = Ret (<["city" := Some p0]> blank_address)
  | [] => False
  end.
Proof.
  intros Hne. pose proof (length_address_parts a) as Hlen.
  unfold parse_google_address. fold (address_parts a). fold blank_address.
  destruct a as [|c a']; [congruence|]. cbn [is_empty].
  destruct (address_parts (String c a')) as [|p0 [|p1 [|p2 ps]]];
    simpl in Hlen; [lia| | |]; reflexivity.
Qed.


(** C10.  For every input string, [parse_google_address] returns (it
    raises nothing), the dict it returns has exactly the keys [street],
    [city], [state_code] and [zip], and its [zip] is a string only when
    its [state_code] is one. *)
Theorem parse_google_address_total (formatted_address : string) :
  exists result : address,
    parse_google_address formatted_address = Ret result
    /\ dom result = address_keys
    /\ (forall z, result !! "zip" = Some (Some z) ->
                  exists st, result !! "state_code" = Some (Some st)).
Proof.
  destruct (decide (formatted_address = "")) as [->|Hne].
  - exists blank_address. split; [reflexivity|].
    split; [apply dom_blank_address|]. intros z Hz. discriminate Hz.
  - pose proof (parse_google_address_cases formatted_address Hne) as Hcase.
    destruct (address_parts formatted_address) as [|p0 [|p1 [|p2 ps]]];
      [destruct Hcase| | |]; rewrite Hcase; eexists; (split; [reflexivity|]).
    + split; [auto with address|]. intros z Hz. discriminate Hz.
    + split; [apply dom_parse_state_zip; auto with address|].
      apply parse_state_zip_zip_needs_state. intros z Hz. discriminate Hz.
    + split; [apply dom_parse_state_zip; auto with address|].
      apply parse_state_zip_zip_needs_state. intros z Hz. discriminate Hz.
Qed.

(* ===================================================================== *)
(** * The patterns of the address parser, read declaratively *)
(* ===================================================================== *)

Lemma append_nil_r (s : string) : s +:+ "" = s.
Proof.
  induction s as [|c t IH]; [reflexivity|].
  change (String c (t +:+ "") = String c t). by rewrite IH.
Qed.

Lemma append_assoc (a b c : string) : (a +:+ b) +:+ c = a +:+ (b +:+ c).
Proof.
  induction a as [|x a IH]; [reflexivity|].
  change (String x ((a +:+ b) +:+ c) = String x (a +:+ (b +:+ c))).
  by rewrite IH.
Qed.

(** The matcher is sound for the declarative reading: what it consumed
    before calling the continuation is matched by the pattern. *)
Lemma mtch_sound {R} (r : regex) :
  forall (s : string) (caps : captures)
         (k : string -> captures -> option R) (x : R),
    mtch r s caps k = Some x ->
    exists pre s' caps',
      s = pre +:+ s' /\ matches r pre s' /\ k s' caps' = Some x.
Proof.
  induction r as [|p|r1 IH1 r2 IH2|r1 IH1 r2 IH2|r1 IH1|n r1 IH1|];
    intros s caps k x Hm; simpl in Hm.
  - exists "", s, caps. repeat split; [constructor|assumption].
  - destruct s as [|c t]; [discriminate|].
    destruct (p c) eqn:Hp; [|discriminate].
    exists (String c ""), t, caps. repeat split; [by constructor|assumption].
  - apply IH1 in Hm as (p1 & s1 & caps1 & -> & Hm1 & Hm).
    apply IH2 in Hm as (p2 & s2 & caps2 & -> & Hm2 & Hk).
    exists (p1 +:+ p2), s2, caps2.
    split; [by rewrite append_assoc|]. split; [by constructor|assumption].
  - destruct (mtch r1 s caps k) eqn:E1.
    + inversion Hm; subst.
      apply IH1 in E1 as (p1 & s1 & caps1 & -> & Hm1 & Hk).
      exists p1, s1, caps1. repeat split; [by apply matches_alt_l|assumption].
    + apply IH2 in Hm as (p2 & s2 & caps2 & -> & Hm2 & Hk).
      exists p2, s2, caps2. repeat split; [by apply matches_alt_r|assumption].
  - revert Hm. generalize (String.length s) as fuel. intros fuel.
    revert s caps. induction fuel as [|fuel IHfuel]; intros s caps Hm;
      simpl in Hm.
    + exists "", s, caps. repeat split; [constructor|assumption].
    + match type of Hm with
      | match ?m with _ => _ end = _ => destruct m eqn:E1
      end.
      * inversion Hm; subst.
        apply IH1 in E1 as (p1 & s1 & caps1 & -> & Hm1 & Hk).
        destruct (String.length s1 <? String.length (p1 +:+ s1))%nat;
          [|discriminate].
        apply IHfuel in Hk as (p2 & s2 & caps2 & -> & Hm2 & Hk).
        exists (p1 +:+ p2), s2, caps2.
        split; [by rewrite append_assoc|].
        split; [by constructor|assumption].
      * exists "", s, caps. repeat split; [constructor|assumption].
  - apply IH1 in Hm as (p1 & s1 & caps1 & -> & Hm1 & Hk).
    exists p1, s1, (<[n := consumed (p1 +:+ s1) s1]> caps1).
    repeat split; [by constructor|assumption].
  - destruct (at_end s) eqn:He; [|discriminate].
    exists "", s, caps. repeat split; [by constructor|assumption].
Qed.

(** ** [\s*] is greedy *)

(** Before a continuation that accepts what is left after all the
    whitespace, [\s*] consumes all of it. *)
Lemma star_space_greedy {R} (k : string -> captures -> option R)
      (caps : captures) :
  forall (fuel : nat) (s : string),
    (String.length s <= fuel)%nat ->
    is_Some (k (lstrip s) caps) ->
    star_loop space_body k fuel s caps = k (lstrip s) caps.
Proof.
  induction fuel as [|fuel IH]; intros s Hlen Hk.
  - destruct s; [reflexivity|simpl in Hlen; lia].
  - destruct s as [|c t]; [reflexivity|].
    cbn [star_loop space_body mtch lstrip] in *.
    destruct (is_space c); [|reflexivity].
    assert (Hlt : (String.length t <? String.length (String c t))%nat = true)
      by (apply Nat.ltb_lt; simpl; lia).
    rewrite Hlt. simpl in Hlen. rewrite IH by (assumption || lia).
    destruct Hk as [x Hx]. by rewrite Hx.
Qed.

(** ** The state/zip token *)

Lemma consumed_refl (s : string) : consumed s s = "".
Proof. unfold consumed. rewrite Nat.sub_diag. by destruct s. Qed.

Lemma consumed_cons (c : ascii) (s s' : string) :
  (String.length s' <= String.length s)%nat ->
  consumed (String c s) s' = String c (consumed s s').
Proof.
  intros Hlen. unfold consumed. simpl String.length.
  replace (S (String.length s) - String.length s')%nat
    with (S (String.length s - String.length s'))%nat by lia.
  reflexivity.
Qed.

Local Arguments consumed : simpl never.

Ltac consumed_text :=
  repeat rewrite consumed_cons by (simpl; lia); rewrite ?consumed_refl.

Ltac case_tests :=
  repeat match goal with
         | |- context [is_digit ?d] =>
             destruct (is_digit d); cbn -[consumed is_digit Ascii.eqb]
         | |- context [Ascii.eqb "-" ?h] =>
             destruct (Ascii.eqb "-" h); cbn -[consumed is_digit Ascii.eqb]
         end.

(** [(\d{5}(?:-\d{4})?)?] reads the zip code at the start of the input,
    and nothing when there is none. *)
Lemma zip_group_match (t : string) (caps : captures) :
  mtch (Opt (Group 2 (Seq (Rep 5 (Chr is_digit))
                          (Opt (Seq (Chr (Ascii.eqb "-"))
                                    (Rep 4 (Chr is_digit)))))))
       t caps (fun _ caps' => Some caps')
  = Some (match zip_at t with
          | Some z => <[2%nat := z]> caps
          | None => caps
          end).
Proof.
  destruct t as [|d1 [|d2 [|d3 [|d4 [|d5 u]]]]]; cbn -[consumed is_digit Ascii.eqb];
    case_tests; try reflexivity.
  destruct u as [|h [|e1 [|e2 [|e3 [|e4 u']]]]]; cbn -[consumed is_digit Ascii.eqb];
    case_tests; consumed_text; reflexivity.
Qed.

(** [state_zip_re] reads what [state_zip_of] describes. *)
Lemma re_match_state_zip (tok : string) :
  re_match state_zip_re tok = state_zip_captures <$> state_zip_of tok.
Proof.
  unfold re_match, state_zip_re, state_zip_of.
  destruct tok as [|a [|b rest]]; cbn -[consumed star_loop Opt is_upper].
  - reflexivity.
  - by destruct (is_upper a).
  - destruct (is_upper a); [|reflexivity].
    destruct (is_upper b); [|reflexivity]. cbn -[consumed star_loop Opt is_upper].
    change (star_loop ?body) with (star_loop (R := captures) space_body).
    rewrite star_space_greedy; [|lia|]; rewrite zip_group_match; [|eauto].
    consumed_text. unfold state_zip_captures. cbn [fst snd].
    by destruct (zip_at (lstrip rest)).
Qed.

(** The two group reads of [parse_state_zip], in terms of
    [state_zip_of]. *)
Lemma parse_state_zip_reads (tok : string) (result : address) :
  parse_state_zip tok result =
  match state_zip_of tok with
  | Some (st, z) => <["zip" := z]> (<["state_code" := Some st]> result)
  | None => result
  end.
Proof.
  unfold parse_state_zip. rewrite re_match_state_zip.
  destruct (state_zip_of tok) as [[st [z|]]|]; reflexivity.
Qed.

(** ** The country suffix *)

(** [\s*$] succeeds only at the very end of the input. *)
Lemma space_then_end (caps : captures) :
  forall (fuel : nat) (s x : string),
    (String.length s <= fuel)%nat ->
    star_loop space_body
      (fun s' caps' => mtch Eos s' caps' (fun s'' _ => Some s''))
      fuel s caps = Some x ->
    x = "".
Proof.
  induction fuel as [|fuel IH]; intros s x Hlen Hm.
  - destruct s; [|simpl in Hlen; lia]. simpl in Hm. congruence.
  - destruct s as [|c t]; [simpl in Hm; congruence|].
    cbn [star_loop space_body mtch] in Hm.
    assert (Hlt : (String.length t <? String.length (String c t))%nat = true)
      by (apply Nat.ltb_lt; simpl; lia).
    rewrite Hlt in Hm. simpl in Hlen.
    destruct (is_space c) eqn:Hc.
    + match type of Hm with
      | match ?m with _ => _ end = _ => destruct m eqn:Hrest
      end.
      * inversion Hm; subst. eapply IH; [|eassumption]. lia.
      * destruct t as [|c' t']; [|simpl in Hm; destruct t'; discriminate].
        destruct fuel; simpl in Hrest; discriminate.
    + simpl in Hm. destruct t; [|discriminate].
      destruct (Ascii.eqb_spec c "010") as [->|]; [|discriminate].
      discriminate Hc.
Qed.

(** A match of [country_suffix] runs to the end of the input. *)
Lemma country_suffix_runs_to_end (s s' : string) :
  match_rest country_suffix s = Some s' -> s' = "".
Proof.
  unfold match_rest, country_suffix. intros Hm.
  change (mtch (Seq ?a (Seq ?b (Seq ?c ?d))) s ∅ ?k)
    with (mtch a s ∅ (fun s1 c1 =>
            mtch b s1 c1 (fun s2 c2 =>
              mtch c s2 c2 (fun s3 c3 => mtch d s3 c3 k)))) in Hm.
  apply mtch_success in Hm as (s1 & c1 & Hm & _).
  apply mtch_success in Hm as (s2 & c2 & Hm & _).
  apply mtch_success in Hm as (s3 & c3 & Hm & _).
  eapply space_then_end; [|exact Hm]. lia.
Qed.

Lemma sub_empty_from_nil (fuel : nat) :
  sub_empty_from country_suffix fuel "" = "".
Proof. destruct fuel; reflexivity. Qed.

(** What [re.sub] removes from an address is at its end, and is matched by
    [country_suffix]. *)
Lemma sub_empty_country_suffix (fuel : nat) :
  forall s : string,
    exists suf,
      s = sub_empty_from country_suffix fuel s +:+ suf
      /\ (suf = "" \/ matches country_suffix suf "").
Proof.
  induction fuel as [|fuel IH]; intros s.
  { exists "". split; [by rewrite append_nil_r|by left]. }
  assert (Hskip :
    exists suf,
      s = match s with
          | "" => ""
          | String c t => String c (sub_empty_from country_suffix fuel t)
          end +:+ suf
      /\ (suf = "" \/ matches country_suffix suf "")).
  { destruct s as [|c t]; [exists ""; split; [reflexivity|by left]|].
    destruct (IH t) as (suf & Ht & Hsuf). exists suf. split; [|assumption].
    change (String c t = String c (sub_empty_from country_suffix fuel t +:+ suf)).
    by rewrite <- Ht. }
  cbn [sub_empty_from].
  destruct (match_rest country_suffix s) as [s'|] eqn:Hm; [|exact Hskip].
  destruct (String.length s' <? String.length s)%nat; [|exact Hskip].
  pose proof (country_suffix_runs_to_end _ _ Hm) as ->.
  rewrite sub_empty_from_nil. exists s. split; [reflexivity|]. right.
  unfold match_rest in Hm.
  apply mtch_sound in Hm as (pre & s' & caps' & -> & Hpre & Hk).
  inversion Hk; subst s'. by rewrite append_nil_r.
Qed.

(** Cutting at a separator loses nothing: joining the parts with the
    separator gives the string back. *)
Lemma join_split (sep : ascii) (s : string) :
  join (String sep "") (split sep s) = s.
Proof.
  induction s as [|c t IH]; [reflexivity|]. simpl split.
  pose proof (length_split sep t) as Hlen.
  destruct (Ascii.eqb_spec c sep) as [->|Hne].
  - destruct (split sep t) as [|p ps]; [simpl in Hlen; lia|].
    change (join (String sep "") ("" :: p :: ps))
      with (String sep (join (String sep "") (p :: ps))).
    by rewrite IH.
  - destruct (split sep t) as [|p ps]; [simpl in Hlen; lia|].
    destruct ps as [|q ps].
    + simpl in *. by rewrite IH.
    + change (join (String sep "") (String c p :: q :: ps))
        with (String c (join (String sep "") (p :: q :: ps))).
      by rewrite IH.
Qed.

(** C5.  [parse_google_address] removes the trailing country from the
    address (what it removes is at the end and matches
    [,?\s*(USA|United States|US)\s*$]), cuts the rest at the commas
    (joining the parts with commas gives the rest back) and strips the
    parts.  With three parts or more, part 0 is the street, part 1 the
    city and part 2 the state/zip token; with two parts, part 0 is the
    city and part 1 the token; a single part is the city alone.  The
    token gives a state code when it starts with two capital letters, and
    a zip code when five digits, or five digits, a hyphen and four digits,
    follow after optional whitespace.  On
    "123 Main St, Syracuse, NY 13202, USA" the result is street
    "123 Main St", city "Syracuse", state code "NY", zip "13202"; on
    "Rochester, NY, USA" it is city "Rochester", state code "NY", and
    neither street nor zip. *)
Theorem parse_google_address_algorithm (formatted_address : string) :
  formatted_address <> "" ->
  let without_country := sub_empty country_suffix formatted_address in
  (exists suffix,
     formatted_address = without_country +:+ suffix
     /\ (suffix = "" \/ matches country_suffix suffix ""))
  /\ join "," (split "," (strip without_country)) = strip without_country
  /\ address_parts formatted_address
     = strip <$> split "," (strip without_country)
  /\ match address_parts formatted_address with
     | p0 :: p1 :: p2 :: _ =>
         parse_google_address formatted_address =
         Ret (parse_state_zip (strip p2)
                (<["city" := Some p1]>
                   (<["street" := Some p0]> blank_address)))
     | [p0; p1] =>
         parse_google_address formatted_address =
         Ret (parse_state_zip (strip p1)
                (<["city" := Some p0]> blank_address))
     | [p0] =>
         parse_google_address formatted_address =
         Ret (<["city" := Some p0]> blank_address)
     | [] => False
     end
  /\ (forall tok result,
        parse_state_zip tok result =
        match state_zip_of tok with
        | Some (st, z) => <["zip" := z]> (<["state_code" := Some st]> result)
        | None => result
        end)
  /\ parse_google_address "123 Main St, Syracuse, NY 13202, USA" =
     Ret (address_of (Some "123 Main St") (Some "Syracuse")
                     (Some "NY") (Some "13202"))
  /\ parse_google_address "Rochester, NY, USA" =
     Ret (address_of None (Some "Rochester") (Some "NY") None).
Proof.
  intros Hne without_country.
  split; [apply sub_empty_country_suffix|].
  split; [apply join_split|].
  split; [reflexivity|].
  split; [by apply parse_google_address_cases|].
  split; [apply parse_state_zip_reads|].
  split; vm_compute; reflexivity.
Qed.

Lemma parse_google_address_algorithm_witness :
  "456 Oak Ave, Buffalo, NY, USA" <> ""
  /\ parse_google_address "456 Oak Ave, Buffalo, NY, USA" =
     Ret (address_of (Some "456 Oak Ave") (Some "Buffalo") (Some "NY") None).
Proof.
  split; [discriminate|].
  destruct (parse_google_address_algorithm "456 Oak Ave, Buffalo, NY, USA")
    as (_ & _ & _ & H & _); [discriminate|].
  vm_compute in H. vm_compute. exact H.
Defined.

Lemma parse_google_address_total_witness :
  exists result : address,
    parse_google_address "1 Trade Ctr, New York, NY 10007-0001, USA"
    = Ret result
    /\ result !! "zip" = Some (Some "10007-0001")
    /\ exists st, result !! "state_code" = Some (Some st).
Proof.
  destruct (parse_google_address_total
              "1 Trade Ctr, New York, NY 10007-0001, USA")
    as (result & Hrun & _ & Hzip).
  exists result. split; [exact Hrun|].
  assert (Hz : result !! "zip" = Some (Some "10007-0001")).
  { vm_compute in Hrun. inversion Hrun; subst result. reflexivity. }
  split; [exact Hz|]. exact (Hzip _ Hz).
Defined.

(* ===================================================================== *)
(** * Properties of the scorer *)
(* ===================================================================== *)

Lemma lcs_row_bounded (x : ascii) (b : string) :
  forall (prev : list nat) (diag left i j0 : nat),
    row_bounded i j0 prev ->
    (diag <= i)%nat -> (diag <= j0)%nat ->
    (left <= S i)%nat -> (left <= j0)%nat ->
    row_bounded (S i) j0 (Fuzz.lcs_row x b prev diag left).
Proof.
  induction b as [|y b IH]; intros prev diag left i j0 Hprev Hd1 Hd2 Hl1 Hl2.
  - intros j v Hj. simpl in Hj. rewrite lookup_nil in Hj. discriminate.
  - destruct prev as [|up prev]; simpl.
    { intros j v Hj. rewrite lookup_nil in Hj. discriminate. }
    destruct (Hprev 0%nat up eq_refl) as [Hup1 Hup2].
    set (cur := if Ascii.eqb x y then S diag else Nat.max up left).
    assert (Hcur : (cur <= S i /\ cur <= j0 + 1)%nat).
    { subst cur. destruct (Ascii.eqb x y); lia. }
    intros [|j] v Hj; simpl in Hj.
    + inversion Hj; subst v. lia.
    + assert (Hrec : row_bounded (S i) (S j0)
                       (Fuzz.lcs_row x b prev up cur)).
      { apply IH; try lia.
        intros j' v' Hj'. destruct (Hprev (S j') v' Hj'). lia. }
      destruct (Hrec j v Hj). lia.
Qed.

Lemma lcs_rows_bounded (a b : string) :
  forall (row : list nat) (i : nat),
    row_bounded i 0 row ->
    row_bounded (i + String.length a) 0 (Fuzz.lcs_rows a b row).
Proof.
  induction a as [|x a IH]; intros row i Hrow; simpl.
  - by rewrite Nat.add_0_r.
  - replace (i + S (String.length a))%nat with (S i + String.length a)%nat
      by lia.
    apply IH. apply lcs_row_bounded; auto; lia.
Qed.

Lemma length_lcs_row (x : ascii) (b : string) :
  forall prev diag left,
    length prev = String.length b ->
    length (Fuzz.lcs_row x b prev diag left) = String.length b.
Proof.
  induction b as [|y b IH]; intros prev diag left Hlen; [reflexivity|].
  destruct prev as [|up prev]; [discriminate|]. simpl in *.
  f_equal. apply IH. lia.
Qed.

Lemma length_lcs_rows (a b : string) :
  forall row, length row = String.length b ->
              length (Fuzz.lcs_rows a b row) = String.length b.
Proof.
  induction a as [|x a IH]; intros row Hlen; simpl; [assumption|].
  apply IH. by apply length_lcs_row.
Qed.

(** A common subsequence is no longer than either string. *)
Lemma lcs_bounded (a b : string) :
  (Fuzz.lcs a b <= String.length a /\ Fuzz.lcs a b <= String.length b)%nat.
Proof.
  unfold Fuzz.lcs.
  set (row0 := repeat 0%nat (String.length b)).
  assert (Hrow0 : row_bounded 0 0 row0).
  { intros j v Hj. subst row0.
    apply list_elem_of_lookup_2, list_elem_of_In, repeat_spec in Hj. lia. }
  pose proof (lcs_rows_bounded a b row0 0 Hrow0) as Hb.
  pose proof (length_lcs_rows a b row0 (repeat_length _ _)) as Hlen.
  simpl in Hb. revert Hb Hlen.
  generalize (Fuzz.lcs_rows a b row0) as row. intros row Hb Hlen.
  destruct (decide (row = [])) as [->|Hne]; [simpl; lia|].
  destruct (exists_last Hne) as (row' & v & ->).
  rewrite last_last. rewrite length_app in Hlen. simpl in Hlen.
  destruct (Hb (length row') v) as [H1 H2].
  { rewrite lookup_app_r by lia. by rewrite Nat.sub_diag. }
  lia.
Qed.

Lemma round_half_even_bounds (n d : Z) :
  0 < d -> 0 <= n <= 100 * d -> 0 <= Fuzz.round_half_even n d <= 100.
Proof.
  intros Hd Hn. unfold Fuzz.round_half_even.
  pose proof (Z.div_mod n d ltac:(lia)) as Hdm.
  pose proof (Z.mod_pos_bound n d Hd) as Hr.
  assert (Hq0 : 0 <= n / d) by (apply Z.div_pos; lia).
  assert (Hq1 : n / d <= 100).
  { apply Z.div_le_upper_bound; lia. }
  assert (Hfull : n / d = 100 -> n mod d = 0) by nia.
  destruct (2 * (n mod d) <? d) eqn:E1; [lia|].
  apply Z.ltb_ge in E1.
  assert (n / d < 100) by (destruct (decide (n / d = 100)); [lia|lia]).
  destruct (d <? 2 * (n mod d)); [lia|].
  destruct (Z.even (n / d)); lia.
Qed.

(** The score is a percentage. *)
Lemma ratio_bounds (a b : string) : 0 <= Fuzz.ratio a b <= 100.
Proof.
  unfold Fuzz.ratio. destruct (lcs_bounded a b) as [Ha Hb].
  destruct (Z.of_nat (String.length a + String.length b) =? 0) eqn:E; [lia|].
  apply Z.eqb_neq in E. apply round_half_even_bounds; lia.
Qed.

Lemma token_sort_ratio_bounds (s1 s2 : string) :
  0 <= Fuzz.token_sort_ratio s1 s2 <= 100.
Proof. unfold Fuzz.token_sort_ratio. apply ratio_bounds. Qed.

(** ** The order of the tokens does not matter *)

Lemma leb_total (x y : string) : String.leb x y = true \/ String.leb y x = true.
Proof.
  destruct (total String.le x y) as [H|H]; [left|right];
    by apply Is_true_true.
Qed.

Lemma leb_antisym (x y : string) :
  String.leb x y = true -> String.leb y x = true -> x = y.
Proof.
  intros H1 H2. apply (anti_symm String.le); by apply Is_true_true.
Qed.

Lemma leb_trans (x y z : string) :
  String.leb x y = true -> String.leb y z = true -> String.leb x z = true.
Proof.
  intros H1 H2. apply Is_true_true.
  transitivity y; by apply Is_true_true.
Qed.

Lemma insert_sorted_comm (x y : string) (l : list string) :
  Fuzz.insert_sorted x (Fuzz.insert_sorted y l) =
  Fuzz.insert_sorted y (Fuzz.insert_sorted x l).
Proof.
  induction l as [|z l IH]; simpl.
  - destruct (String.leb x y) eqn:Hxy, (String.leb y x) eqn:Hyx;
      try reflexivity.
    + by rewrite (leb_antisym x y).
    + destruct (leb_total x y); congruence.
  - destruct (String.leb y z) eqn:Hyz, (String.leb x z) eqn:Hxz; simpl;
      rewrite ?Hyz, ?Hxz.
    + destruct (String.leb x y) eqn:Hxy, (String.leb y x) eqn:Hyx;
        try reflexivity.
      * by rewrite (leb_antisym x y).
      * destruct (leb_total x y); congruence.
    + destruct (String.leb x y) eqn:Hxy; [|reflexivity].
      rewrite (leb_trans x y z) in Hxz by assumption. discriminate.
    + destruct (String.leb y x) eqn:Hyx; [|reflexivity].
      rewrite (leb_trans y x z) in Hyz by assumption. discriminate.
    + by rewrite IH.
Qed.

(** Sorting forgets the order of its input. *)
Lemma sorted_permutation (l l' : list string) :
  l ≡ₚ l' -> Fuzz.sorted l = Fuzz.sorted l'.
Proof.
  unfold Fuzz.sorted. induction 1 as [|x l l' _ IH|x y l|l l' l'' _ IH1 _ IH2];
    simpl.
  - reflexivity.
  - by rewrite IH.
  - apply insert_sorted_comm.
  - congruence.
Qed.

(** Two names with the same tokens, in whatever order, score alike. *)
Lemma token_sort_ratio_order (s1 s1' s2 : string) :
  Fuzz.tokens (Fuzz.full_process s1) ≡ₚ Fuzz.tokens (Fuzz.full_process s1') ->
  Fuzz.token_sort_ratio s1 s2 = Fuzz.token_sort_ratio s1' s2
  /\ Fuzz.token_sort_ratio s2 s1 = Fuzz.token_sort_ratio s2 s1'.
Proof.
  intros Hperm. unfold Fuzz.token_sort_ratio.
  by rewrite (sorted_permutation _ _ Hperm).
Qed.

(* ===================================================================== *)
(** * Properties of the deduplicator *)
(* ===================================================================== *)

Lemma text_or_empty_named (candidate : dict) :
  named candidate ->
  OdooClient.text_or_empty candidate "partner_name" = Ret (name_of candidate).
Proof.
  unfold OdooClient.text_or_empty, name_of.
  intros [[s Hs]| Hf].
  - rewrite Hs. destruct s; reflexivity.
  - rewrite Hf. reflexivity.
Qed.

Lemma score_candidate_named (partner_name : string)
      (matches : list dict) (candidate : dict) :
  named candidate ->
  OdooClient.score_candidate partner_name matches candidate =
  Ret (if is_match partner_name candidate
       then matches ++ [with_score partner_name candidate] else matches).
Proof.
  intros Hnamed. unfold OdooClient.score_candidate.
  rewrite (text_or_empty_named _ Hnamed). simpl.
  fold (score partner_name candidate). fold (is_match partner_name candidate).
  destruct (is_match partner_name candidate); [|reflexivity].
  rewrite lookup_insert_ne by discriminate.
  fold (with_score partner_name candidate).
  destruct Hnamed as [[s ->]| ->]; reflexivity.
Qed.

Lemma score_candidates_named (partner_name : string)
      (candidates : list dict) :
  forall matches,
    Forall named candidates ->
    OdooClient.score_candidates partner_name matches candidates =
    Ret (matches ++ (with_score partner_name
                       <$> List.filter (is_match partner_name) candidates)).
Proof.
  induction candidates as [|c cs IH]; intros matches Hall; simpl.
  - by rewrite app_nil_r.
  - apply Forall_cons in Hall as [Hc Hcs].
    rewrite (score_candidate_named _ _ _ Hc). simpl.
    destruct (is_match partner_name c); rewrite IH by assumption.
    + rewrite <- app_assoc. reflexivity.
    + reflexivity.
Qed.

(** [search_duplicate], when the query is answered with named leads. *)
Lemma search_duplicate_named (w : World) (partner_name : string)
      (city : option string) (st : state) (candidates : list dict) :
  execute_search_read w (trace st)
    (OdooClient.duplicate_domain partner_name city)
    OdooClient.duplicate_fields (Some 50) = Ret candidates ->
  Forall named candidates ->
  OdooClient.search_duplicate w partner_name city st =
  (Ret (with_score partner_name
          <$> List.filter (is_match partner_name) candidates),
   {| trace := trace st ++
        [(SearchRead (OdooClient.duplicate_domain partner_name city)
                     OdooClient.duplicate_fields (Some 50), true)];
      url_cache := url_cache st |}).
Proof.
  intros Hans Hnamed.
  unfold OdooClient.search_duplicate, OdooClient.search_leads, bind, perform,
    lift.
  simpl. rewrite Hans. simpl.
  by rewrite (score_candidates_named _ _ [] Hnamed).
Qed.

Lemma strip_blank (s : string) : all_chars is_space s = true -> strip s = "".
Proof.
  unfold strip. induction s as [|c t IH]; simpl; [reflexivity|].
  intros H. apply andb_true_iff in H as [Hc Ht]. rewrite Hc. auto.
Qed.

(** C7.  A record whose company name is empty or made of whitespace only
    is reported as not a duplicate, and the check leaves the state as it
    found it: nothing is added to the trace of calls, so the system of
    record is not queried. *)
Theorem is_duplicate_blank_name (w : World) (record : ProspectRecord)
        (match_on : list string) (st : state) :
  all_chars is_space (partner_name record) = true ->
  Deduplicator.is_duplicate w record match_on st = (Ret false, st).
Proof.
  intros Hblank. unfold Deduplicator.is_duplicate.
  rewrite (strip_blank _ Hblank). simpl. rewrite orb_true_r. reflexivity.
Qed.

Lemma is_duplicate_blank_name_witness :
  all_chars is_space (partner_name (prospect "   " "Syracuse")) = true
  /\ Deduplicator.is_duplicate
       (world_of_leads [lead 1 "   " "Syracuse"] no_adapters_config)
       (prospect "   " "Syracuse") ["partner_name"; "city"] initial
     = (Ret false, initial).
Proof.
  split; [reflexivity|].
  apply (is_duplicate_blank_name
           (world_of_leads [lead 1 "   " "Syracuse"] no_adapters_config)
           (prospect "   " "Syracuse") ["partner_name"; "city"] initial).
  reflexivity.
Defined.

Lemma existsb_filter_nil {A} (p : A -> bool) (l : list A) :
  existsb p l = match List.filter p l with [] => false | _ => true end.
Proof.
  induction l as [|x l IH]; simpl; [reflexivity|].
  destruct (p x); [reflexivity|]. by rewrite IH.
Qed.

(** [is_duplicate] without the street constraint, when the query is
    answered with named leads. *)
Lemma is_duplicate_named (w : World) (record : ProspectRecord)
      (match_on : list string) (st : state) (candidates : list dict) :
  strip (partner_name record) <> "" ->
  "street" ∉ match_on ->
  execute_search_read w (trace st)
    (OdooClient.duplicate_domain (partner_name record)
                                 (query_city record match_on))
    OdooClient.duplicate_fields (Some 50) = Ret candidates ->
  Forall named candidates ->
  (Deduplicator.is_duplicate w record match_on st).1 =
  Ret (existsb (is_match (partner_name record)) candidates).
Proof.
  intros Hname Hstreet Hans Hnamed. unfold Deduplicator.is_duplicate.
  assert (Hguard : is_empty (partner_name record)
                   || is_empty (strip (partner_name record)) = false).
  { destruct (partner_name record) as [|c t]; [by destruct Hname|].
    destruct (strip (String c t)); [by destruct Hname|reflexivity]. }
  rewrite Hguard. fold (query_city record match_on). unfold bind at 1.
  rewrite (search_duplicate_named _ _ _ _ _ Hans Hnamed).
  rewrite existsb_filter_nil.
  destruct (List.filter (is_match (partner_name record)) candidates)
    as [|c cs]; [reflexivity|].
  rewrite bool_decide_eq_false_2 by assumption. reflexivity.
Qed.

(** C6, as the code has it.  For every candidate name and every lead the
    query returns, the score is [token_sort_ratio] of the two lower-cased
    names, a number from 0 to 100 that does not depend on the order of
    the words of a name; [search_duplicate] returns exactly the
    leads that score 85 or more, and [is_duplicate] (with no street
    constraint configured) answers "duplicate" exactly when there is such
    a lead.  "Acme Bakery Inc" against an existing "Acme Bakery
    Incorporated" in the same city scores 77, below the threshold, and is
    not a duplicate; "Acme Bakery" against "Totally Different Co" scores
    32 and is not a duplicate. *)
Theorem is_duplicate_iff_score_at_least_85
        (w : World) (record : ProspectRecord) (match_on : list string)
        (st : state) (candidates : list dict) :
  strip (partner_name record) <> "" ->
  "street" ∉ match_on ->
  execute_search_read w (trace st)
    (OdooClient.duplicate_domain (partner_name record)
                                 (query_city record match_on))
    OdooClient.duplicate_fields (Some 50) = Ret candidates ->
  Forall named candidates ->
  let name := partner_name record in
  (forall c, 0 <= score name c <= 100
             /\ (is_match name c = true <-> 85 <= score name c))
  /\ (forall name' c,
        Fuzz.tokens (Fuzz.full_process (lower name))
          ≡ₚ Fuzz.tokens (Fuzz.full_process (lower name')) ->
        score name c = score name' c)
  /\ (OdooClient.search_duplicate w name (query_city record match_on) st).1 =
     Ret (with_score name <$> List.filter (is_match name) candidates)
  /\ (Deduplicator.is_duplicate w record match_on st).1 =
     Ret (existsb (is_match name) candidates)
  /\ score "Acme Bakery Inc" (lead 1 "Acme Bakery Incorporated" "Syracuse")
     = 77
  /\ (Deduplicator.is_duplicate
        (world_of_leads [lead 1 "Acme Bakery Incorporated" "Syracuse"]
                        no_adapters_config)
        (prospect "Acme Bakery Inc" "Syracuse") ["partner_name"; "city"]
        initial).1 = Ret false
  /\ score "Acme Bakery" (lead 2 "Totally Different Co" "Syracuse") = 32
  /\ (Deduplicator.is_duplicate
        (world_of_leads [lead 2 "Totally Different Co" "Syracuse"]
                        no_adapters_config)
        (prospect "Acme Bakery" "Syracuse") ["partner_name"; "city"]
        initial).1 = Ret false.
Proof.
  intros Hname Hstreet Hans Hnamed name. subst name.
  split; [|split; [|split; [|split]]].
  - intros c. split; [apply token_sort_ratio_bounds|].
    unfold is_match, OdooClient.FUZZY_MATCH_THRESHOLD. apply Z.leb_le.
  - intros name' c Hperm. unfold score.
    by apply token_sort_ratio_order.
  - by rewrite (search_duplicate_named _ _ _ _ _ Hans Hnamed).
  - by apply is_duplicate_named.
  - repeat split; vm_compute; reflexivity.
Qed.

Lemma is_duplicate_iff_score_at_least_85_witness :
  (Deduplicator.is_duplicate
     (world_of_leads [lead 1 "Acme Bakery Inc."  "Syracuse";
                      lead 2 "Totally Different Co" "Syracuse"]
                     no_adapters_config)
     (prospect "Acme Bakery Inc" "Syracuse") ["partner_name"; "city"]
     initial).1 = Ret true.
Proof.
  pose proof
    (is_duplicate_iff_score_at_least_85
       (world_of_leads [lead 1 "Acme Bakery Inc."  "Syracuse";
                        lead 2 "Totally Different Co" "Syracuse"]
                       no_adapters_config)
       (prospect "Acme Bakery Inc" "Syracuse") ["partner_name"; "city"]
       initial
       [lead 1 "Acme Bakery Inc."  "Syracuse";
        lead 2 "Totally Different Co" "Syracuse"]) as H.
  destruct H as (_ & _ & _ & H & _).
  - discriminate.
  - intros Hin. apply list_elem_of_In in Hin. simpl in Hin.
    destruct Hin as [Hin|[Hin|[]]]; discriminate Hin.
  - reflexivity.
  - repeat (constructor; [left; eexists; vm_compute; reflexivity|]).
    constructor.
  - rewrite H. vm_compute. reflexivity.
Defined.

(** The instance of C6 as the specification words it does not hold: the
    pair does not reach 85 and the record is taken for new. *)
Lemma acme_bakery_incorporated_is_not_matched :
  score "Acme Bakery Inc" (lead 1 "Acme Bakery Incorporated" "Syracuse") = 77
  /\ ~ (85 <= score "Acme Bakery Inc"
                    (lead 1 "Acme Bakery Incorporated" "Syracuse"))
  /\ (Deduplicator.is_duplicate
        (world_of_leads [lead 1 "Acme Bakery Incorporated" "Syracuse"]
                        no_adapters_config)
        (prospect "Acme Bakery Inc" "Syracuse") ["partner_name"; "city"]
        initial).1 = Ret false.
Proof.
  split; [vm_compute; reflexivity|].
  split; [vm_compute; intros H; apply H; reflexivity|].
  vm_compute; reflexivity.
Qed.

(* ===================================================================== *)
(** * Properties of the orchestrator *)
(* ===================================================================== *)

Lemma bind_ret_inv {A B} (c : M A) (f : A -> M B) (st st' : state) (b : B) :
  bind c f st = (Ret b, st') ->
  exists a st1, c st = (Ret a, st1) /\ f a st1 = (Ret b, st').
Proof.
  unfold bind. destruct (c st) as [[a|e] st1]; [eauto|discriminate].
Qed.

(** A loop whose every turn adds one to a measure of the accumulator adds
    the length of the list. *)
Lemma for_each_counts {A B} (mu : B -> Z) (body : B -> A -> M B)
      (l : list A) :
  (forall acc x st acc' st',
     body acc x st = (Ret acc', st') -> mu acc' = mu acc + 1) ->
  forall acc st acc' st',
    for_each body acc l st = (Ret acc', st') ->
    mu acc' = mu acc + Z.of_nat (length l).
Proof.
  intros Hbody. induction l as [|x l IH]; intros acc st acc' st' H.
  - inversion H. simpl. lia.
  - simpl in H. apply bind_ret_inv in H as (acc1 & st1 & H1 & H2).
    apply Hbody in H1. apply IH in H2. simpl length. lia.
Qed.

Lemma run_adapters_from (adapters : list BaseAdapter.Adapter)
      (data_sources : gmap string AdapterConfig) (stream : string)
      (profile : Profile) :
  forall all_records st,
    for_each (Main.run_adapter data_sources stream profile) all_records
             adapters st =
    (Ret (all_records
            ++ concat (contributions adapters data_sources stream profile st)),
     state_after adapters data_sources stream profile st).
Proof.
  induction adapters as [|a rest IH]; intros all_records st; simpl.
  - by rewrite app_nil_r.
  - unfold bind, Main.run_adapter at 1.
    destruct (BaseAdapter.is_enabled a data_sources); simpl.
    + unfold try_except, bind.
      destruct (BaseAdapter.fetch a _ stream profile st) as [[records|e] st1];
        simpl; rewrite IH; [by rewrite app_assoc|reflexivity].
    + by rewrite IH.
Qed.

(** C8.  The loop over the registry never raises, whatever the adapters
    do.  The aggregate it returns is the concatenation, in registry
    order, of what each adapter contributes: the records its [fetch]
    returned if the adapter is enabled and [fetch] returned, and no
    record if [fetch] raised.  So an adapter that raises takes nothing
    away from what the adapters before and after it returned; with a
    first adapter that fails after a request and a second that returns two
    records, the aggregate is those two records. *)
Theorem failing_adapter_contributes_no_record
        (ADAPTERS : list BaseAdapter.Adapter)
        (data_sources : gmap string AdapterConfig) (stream : string)
        (profile : Profile) (st : state) :
  Main.run_adapters ADAPTERS data_sources stream profile st =
  (Ret (concat (contributions ADAPTERS data_sources stream profile st)),
   state_after ADAPTERS data_sources stream profile st)
  /\ (forall (before after : list BaseAdapter.Adapter) (a : BaseAdapter.Adapter),
        ADAPTERS = before ++ a :: after ->
        BaseAdapter.is_enabled a data_sources = true ->
        let st_a := state_after before data_sources stream profile st in
        let result :=
          BaseAdapter.fetch a (BaseAdapter.get_adapter_config a data_sources)
                            stream profile st_a in
        concat (contributions ADAPTERS data_sources stream profile st) =
        concat (contributions before data_sources stream profile st)
        ++ match result.1 with Ret records => records | Raise _ => [] end
        ++ concat (contributions after data_sources stream profile result.2))
  /\ (Main.run_adapters
        [failing_adapter "broken";
         fixed_adapter "fixed" [prospect "Acme Bakery Inc" "Syracuse";
                                prospect "Fresh Foods Co" "Rochester"]]
        (Config.data_sources both_enabled_config) "stream_c"
        (profile_excluding []) initial).1
     = Ret [prospect "Acme Bakery Inc" "Syracuse";
            prospect "Fresh Foods Co" "Rochester"].
Proof.
  split; [|split].
  - unfold Main.run_adapters. by rewrite run_adapters_from.
  - intros before after a -> Hen. revert st.
    induction before as [|b before IH]; intros st st_a result.
    + subst st_a result. cbn [app contributions state_after concat].
      rewrite Hen.
      destruct (BaseAdapter.fetch a _ stream profile st) as [[records|e] st1];
        reflexivity.
    + subst st_a result. cbn [app contributions state_after].
      destruct (BaseAdapter.is_enabled b data_sources).
      * destruct (BaseAdapter.fetch b _ stream profile st)
          as [[records|e] st1]; cbn [concat snd];
          rewrite IH; by rewrite <- ?app_assoc.
      * cbn [concat]. by rewrite IH.
  - vm_compute. reflexivity.
Qed.

Lemma failing_adapter_contributes_no_record_witness :
  let registry :=
    [fixed_adapter "fixed" [prospect "Acme Bakery Inc" "Syracuse"];
     failing_adapter "broken";
     fixed_adapter "fixed" [prospect "Fresh Foods Co" "Rochester"]] in
  let data_sources := Config.data_sources both_enabled_config in
  concat (contributions registry data_sources "s" (profile_excluding [])
                        initial)
  = [prospect "Acme Bakery Inc" "Syracuse";
     prospect "Fresh Foods Co" "Rochester"].
Proof.
  intros registry data_sources.
  destruct (failing_adapter_contributes_no_record registry data_sources "s"
              (profile_excluding []) initial) as (_ & Hsplit & _).
  rewrite (Hsplit [fixed_adapter "fixed" [prospect "Acme Bakery Inc" "Syracuse"]]
                  [fixed_adapter "fixed" [prospect "Fresh Foods Co" "Rochester"]]
                  (failing_adapter "broken") eq_refl eq_refl).
  vm_compute. reflexivity.
Defined.

Lemma split_step_counts (w : World) (match_on : list string)
      (acc : list ProspectRecord * list ProspectRecord)
      (rec : ProspectRecord) (st : state)
      (acc' : list ProspectRecord * list ProspectRecord) (st' : state) :
  Deduplicator.split_step w match_on acc rec st = (Ret acc', st') ->
  Main.len acc'.1 + Main.len acc'.2 = Main.len acc.1 + Main.len acc.2 + 1.
Proof.
  destruct acc as [new dups]. unfold Deduplicator.split_step. intros H.
  apply bind_ret_inv in H as ([] & st1 & _ & H); inversion H; subst;
    unfold Main.len; cbn [fst snd]; rewrite length_app; simpl; lia.
Qed.

(** The two lists of [split_new_and_duplicate] share out the input. *)
Lemma split_new_and_duplicate_lengths (w : World)
      (records new dups : list ProspectRecord) (match_on : list string)
      (st st' : state) :
  Deduplicator.split_new_and_duplicate w records match_on st
  = (Ret (new, dups), st') ->
  Main.len records = Main.len new + Main.len dups.
Proof.
  unfold Deduplicator.split_new_and_duplicate. intros H.
  apply (for_each_counts (fun acc => Main.len acc.1 + Main.len acc.2)) in H.
  - cbn [fst snd] in H. unfold Main.len in *. simpl in H. lia.
  - intros. eapply split_step_counts. eassumption.
Qed.

Section CreateLoop.
Variable w : World.
Variables (stream : string) (dry_run : bool) (limit : option Z).
Variables (research_stage_id us_country_id : option Z).
Variable state_id_cache : gmap string (option Z).

(** Each record moves exactly one counter, by one. *)
Lemma create_step_counts (c : Main.counters) (rec : ProspectRecord)
      (st : state) (c' : Main.counters) (st' : state) :
  Main.create_step w stream dry_run limit research_stage_id us_country_id
                   state_id_cache c rec st = (Ret c', st') ->
  Main.created c' + Main.skipped_limit c' + Main.errors c' =
  Main.created c + Main.skipped_limit c + Main.errors c + 1.
Proof.
  unfold Main.create_step.
  destruct (Main.limit_reached limit (Main.created c)).
  { intros H. inversion H; subst. simpl. lia. }
  destruct dry_run.
  { intros H. inversion H; subst. simpl. lia. }
  unfold try_except, bind, OdooClient.create_lead, perform.
  destruct (execute_create w (trace st) _); intros H; inversion H; subst;
    simpl; lia.
Qed.

Lemma create_leads_counts (new_records : list ProspectRecord)
      (st : state) (c : Main.counters) (st' : state) :
  Main.create_leads w stream dry_run limit research_stage_id us_country_id
                    state_id_cache new_records st = (Ret c, st') ->
  Main.created c + Main.skipped_limit c + Main.errors c
  = Main.len new_records.
Proof.
  unfold Main.create_leads. intros H.
  apply (for_each_counts
           (fun c => Main.created c + Main.skipped_limit c + Main.errors c))
    in H; [simpl in H; unfold Main.len; lia|].
  intros. eapply create_step_counts. eassumption.
Qed.

End CreateLoop.

Lemma lookup_summary (t c d l e : Z) :
  Main.summary t c d l e !! "total_fetched" = Some t
  /\ Main.summary t c d l e !! "created" = Some c
  /\ Main.summary t c d l e !! "skipped_dedup" = Some d
  /\ Main.summary t c d l e !! "skipped_limit" = Some l
  /\ Main.summary t c d l e !! "errors" = Some e.
Proof. repeat split; reflexivity. Qed.

(** What [process] returns, in terms of the partition it computed and of
    the counters the creation loop ended with. *)
Lemma process_summary (w : World) (stream : string) (dry_run : bool)
      (limit : option Z) (match_on : list string)
      (research_stage_id us_country_id : option Z)
      (all_records : list ProspectRecord) (st st' : state)
      (s : gmap string Z) :
  Main.process w stream dry_run limit match_on research_stage_id
               us_country_id all_records st = (Ret s, st') ->
  exists (new dups : list ProspectRecord) (c : Main.counters),
    s = Main.summary (Main.len all_records) (Main.created c)
                     (Main.len dups) (Main.skipped_limit c) (Main.errors c)
    /\ Main.len all_records = Main.len new + Main.len dups
    /\ Main.created c + Main.skipped_limit c + Main.errors c = Main.len new
    /\ (all_records <> [] ->
        exists st1 state_id_cache st2 st3,
          Deduplicator.split_new_and_duplicate w all_records match_on st
          = (Ret (new, dups), st1)
          /\ Main.create_leads w stream dry_run limit research_stage_id
                us_country_id state_id_cache new st2 = (Ret c, st3)).
Proof.
  unfold Main.process. destruct all_records as [|r rs].
  { intros H. inversion H; subst.
    exists [], [], {| Main.created := 0; Main.skipped_limit := 0;
                      Main.errors := 0 |}.
    repeat split; try reflexivity. intros Hne. by destruct Hne. }
  intros H.
  apply bind_ret_inv in H as ([new dups] & st1 & Hsplit & H).
  apply bind_ret_inv in H as (cache & st2 & _ & H).
  apply bind_ret_inv in H as (c & st3 & Hcreate & H).
  inversion H; subst.
  exists new, dups, c.
  split; [reflexivity|].
  split; [by eapply split_new_and_duplicate_lengths|].
  split; [by eapply create_leads_counts|]. eauto 8.
Qed.

(** A run that reports a number of fetched records went through
    [process]. *)
Lemma run_reaches_process (w : World) (ADAPTERS : list BaseAdapter.Adapter)
      (stream : string) (dry_run : bool) (limit : option Z)
      (st st' : state) (s : gmap string Z) (total_fetched : Z) :
  Main.run w ADAPTERS stream dry_run limit st = (Ret s, st') ->
  s !! "total_fetched" = Some total_fetched ->
  exists match_on research_stage_id us_country_id all_records st1,
    Main.process w stream dry_run limit match_on research_stage_id
                 us_country_id all_records st1 = (Ret s, st').
Proof.
  intros Hrun Htotal. unfold Main.run in Hrun.
  apply bind_ret_inv in Hrun as (config & st1 & _ & Hrun).
  apply bind_ret_inv in Hrun as ([] & st2 & _ & Hrun).
  apply bind_ret_inv in Hrun as (stage & st3 & _ & Hrun).
  apply bind_ret_inv in Hrun as (country & st4 & _ & Hrun).
  destruct stage as [id|]; [|destruct dry_run].
  - apply bind_ret_inv in Hrun as (all_records & st5 & _ & H). eauto 8.
  - apply bind_ret_inv in Hrun as (all_records & st5 & _ & H). eauto 8.
  - inversion Hrun; subst. discriminate Htotal.
Qed.

(** C9.  When [run] returns a summary that reports a number of fetched
    records (every summary does, but the one of the early stop for a
    missing stage, which is issued before any fetch), that number is the
    sum of the four outcome counts: the records were partitioned into new
    ones and duplicates, [skipped_dedup] counts the duplicates, and every
    new record is counted once, as created, skipped by the limit, or
    failed. *)
Theorem run_summary_adds_up
        (w : World) (ADAPTERS : list BaseAdapter.Adapter)
        (stream : string) (dry_run : bool) (limit : option Z)
        (st st' : state) (s : gmap string Z) (total_fetched : Z) :
  Main.run w ADAPTERS stream dry_run limit st = (Ret s, st') ->
  s !! "total_fetched" = Some total_fetched ->
  exists created skipped_dedup skipped_limit errors : Z,
    s !! "created" = Some created
    /\ s !! "skipped_dedup" = Some skipped_dedup
    /\ s !! "skipped_limit" = Some skipped_limit
    /\ s !! "errors" = Some errors
    /\ total_fetched = created + skipped_dedup + skipped_limit + errors
    /\ exists all_records new dups : list ProspectRecord,
         total_fetched = Main.len all_records
         /\ Main.len all_records = Main.len new + Main.len dups
         /\ skipped_dedup = Main.len dups
         /\ created + skipped_limit + errors = Main.len new
         /\ (0 < total_fetched ->
             exists match_on st1 st2,
               Deduplicator.split_new_and_duplicate w all_records match_on st1
               = (Ret (new, dups), st2)).
Proof.
  intros Hrun Htotal.
  destruct (run_reaches_process _ _ _ _ _ _ _ _ _ Hrun Htotal)
    as (match_on & stage & country & all_records & st1 & Hproc).
  apply process_summary in Hproc
    as (new & dups & c & -> & Hlen & Hsum & Hsplit).
  destruct (lookup_summary (Main.len all_records) (Main.created c)
              (Main.len dups) (Main.skipped_limit c) (Main.errors c))
    as (Ht & Hc & Hd & Hl & He).
  rewrite Ht in Htotal. inversion Htotal; subst total_fetched.
  exists (Main.created c), (Main.len dups), (Main.skipped_limit c),
         (Main.errors c).
  repeat (split; [assumption || lia|]).
  exists all_records, new, dups.
  repeat (split; [assumption || lia|]).
  intros Hpos.
  destruct Hsplit as (st2 & cache & st3 & st4 & Hsplit & _); [|eauto].
  intros ->. unfold Main.len in Hpos. simpl in Hpos. lia.
Qed.

Lemma run_summary_adds_up_witness :
  let w := world_of_leads [lead 1 "Fresh Foods Co" "Rochester"]
                          both_enabled_config in
  let registry :=
    [failing_adapter "broken";
     fixed_adapter "fixed" [prospect "Acme Bakery Inc" "Syracuse";
                            prospect "Fresh Foods Co" "Rochester"]] in
  let result := Main.run w registry "stream_c" false None initial in
  result.1 = Ret (Main.summary 2 1 1 0 0)
  /\ exists created skipped_dedup skipped_limit errors : Z,
       Main.summary 2 1 1 0 0 !! "created" = Some created
       /\ Main.summary 2 1 1 0 0 !! "skipped_dedup" = Some skipped_dedup
       /\ Main.summary 2 1 1 0 0 !! "skipped_limit" = Some skipped_limit
       /\ Main.summary 2 1 1 0 0 !! "errors" = Some errors
       /\ 2 = created + skipped_dedup + skipped_limit + errors.
Proof.
  intros w registry result.
  assert (Hrun : result = (Ret (Main.summary 2 1 1 0 0), result.2))
    by (vm_compute; reflexivity).
  split; [by rewrite Hrun|].
  destruct (run_summary_adds_up w registry "stream_c" false None initial
              result.2 (Main.summary 2 1 1 0 0) 2 Hrun eq_refl)
    as (c & d & l & e & Hc & Hd & Hl & He & Hsum & _).
  exists c, d, l, e. auto.
Defined.

Lemma attempts_snoc (tr : list event) (ev : event) :
  attempts (tr ++ [ev]) = attempts tr + (if is_create ev then 1 else 0).
Proof.
  unfold attempts. rewrite List.filter_app, length_app. simpl.
  destruct (is_create ev); simpl; lia.
Qed.

Lemma create_step_within_cap (w : World) (stream : string) (dry_run : bool)
      (N : Z) (research_stage_id us_country_id : option Z)
      (state_id_cache : gmap string (option Z)) (st0 : state)
      (c : Main.counters) (rec : ProspectRecord) :
  triple (within_cap w dry_run N st0 c)
         (Main.create_step w stream dry_run (Some N) research_stage_id
                           us_country_id state_id_cache c rec)
         (within_cap w dry_run N st0) (fun _ => False).
Proof.
  intros st (Hc & Hs & He & Hskip & Hatt & Hnf).
  unfold Main.create_step, Main.limit_reached.
  destruct (N <=? Main.created c) eqn:Hcap.
  { apply Z.leb_le in Hcap. simpl. unfold within_cap. simpl.
    repeat split; try lia; try assumption. }
  apply Z.leb_gt in Hcap. destruct dry_run.
  { simpl. unfold within_cap. simpl. repeat split; try lia; try assumption. }
  unfold try_except, bind, OdooClient.create_lead, perform.
  pose proof (fun H : create_never_fails w =>
                H (trace st)
                  (to_odoo_values rec stream (default 0 research_stage_id)
                     match state_code rec with
                     | Some code =>
                         if is_empty code then None
                         else default None (state_id_cache !! code)
                     | None => None
                     end us_country_id)) as Hok.
  destruct (execute_create w (trace st) _) as [id|e]; simpl in *;
    unfold within_cap; simpl; rewrite attempts_snoc; simpl.
  - repeat split; try lia; try assumption.
  - repeat split; try lia. intros H. specialize (Hok H). discriminate Hok.
Qed.

Lemma create_leads_within_cap (w : World) (stream : string) (dry_run : bool)
      (N : Z) (research_stage_id us_country_id : option Z)
      (state_id_cache : gmap string (option Z)) (st0 : state)
      (new_records : list ProspectRecord) :
  0 <= N ->
  triple (fun st => st = st0)
         (Main.create_leads w stream dry_run (Some N) research_stage_id
                            us_country_id state_id_cache new_records)
         (within_cap w dry_run N st0) (fun _ => False).
Proof.
  intros HN. unfold Main.create_leads.
  eapply triple_weaken;
    [apply (triple_for_each (within_cap w dry_run N st0) (fun _ => False))
    | |auto|auto].
  - intros c rec _. apply create_step_within_cap.
  - intros st ->. unfold within_cap. simpl.
    repeat split; try lia. destruct dry_run; lia.
Qed.

(** C1, as the code has it.  The cap [N] bounds the leads created, not
    the attempts: the loop over the [M] surviving records always returns,
    counts every record once, never counts more than [N] as created,
    skips a record only once [N] leads are created, and makes one
    [create] call for each lead it created or failed to create (none in a
    dry run, where the creations are only counted).  When no [create]
    fails and [M > N], exactly [N] attempts are made and [M - N] records
    are counted as skipped by the limit.  In the summary of such a run,
    whatever number the deduplication skipped, [created] is [N] and
    [skipped_limit] is the number of surviving records less [N]. *)
Theorem creation_cap_bounds_created_leads
        (w : World) (stream : string) (dry_run : bool) (N : Z)
        (research_stage_id us_country_id : option Z)
        (state_id_cache : gmap string (option Z))
        (new_records : list ProspectRecord) (st : state) :
  0 <= N ->
  (exists c st',
     Main.create_leads w stream dry_run (Some N) research_stage_id
                       us_country_id state_id_cache new_records st
     = (Ret c, st')
     /\ Main.created c + Main.skipped_limit c + Main.errors c
        = Main.len new_records
     /\ Main.created c <= N
     /\ (0 < Main.skipped_limit c -> Main.created c = N)
     /\ attempts (trace st') - attempts (trace st)
        = (if dry_run then 0 else Main.created c + Main.errors c)
     /\ (create_never_fails w -> N < Main.len new_records ->
         Main.created c = N
         /\ Main.skipped_limit c = Main.len new_records - N
         /\ Main.errors c = 0
         /\ attempts (trace st') - attempts (trace st)
            = (if dry_run then 0 else N)))
  /\ (forall ADAPTERS st' s total_fetched skipped_dedup,
        Main.run w ADAPTERS stream dry_run (Some N) st = (Ret s, st') ->
        s !! "total_fetched" = Some total_fetched ->
        s !! "skipped_dedup" = Some skipped_dedup ->
        create_never_fails w ->
        N < total_fetched - skipped_dedup ->
        s !! "created" = Some N
        /\ s !! "skipped_limit" = Some (total_fetched - skipped_dedup - N)
        /\ s !! "errors" = Some 0).
Proof.
  intros HN.
  assert (Hloop : forall stage country cache new st1,
    exists c st',
      Main.create_leads w stream dry_run (Some N) stage country cache new st1
      = (Ret c, st')
      /\ Main.created c + Main.skipped_limit c + Main.errors c = Main.len new
      /\ within_cap w dry_run N st1 c st').
  { intros stage country cache new st1.
    pose proof (create_leads_within_cap w stream dry_run N stage country
                  cache st1 new HN st1 eq_refl) as Hcap.
    destruct (Main.create_leads w stream dry_run (Some N) stage country
                cache new st1) as [[c|e] st'] eqn:Hrun; [|destruct Hcap].
    exists c, st'. split; [reflexivity|]. split; [|assumption].
    by eapply create_leads_counts. }
  assert (Hexact : forall c st1 st' M,
    Main.created c + Main.skipped_limit c + Main.errors c = M ->
    within_cap w dry_run N st1 c st' ->
    create_never_fails w -> N < M ->
    Main.created c = N /\ Main.skipped_limit c = M - N /\ Main.errors c = 0
    /\ attempts (trace st') - attempts (trace st1)
       = (if dry_run then 0 else N)).
  { intros c st1 st' M Hsum (Hc & Hs & He & Hskip & Hatt & Hnf) Hok HM.
    specialize (Hnf Hok).
    assert (Main.created c = N) by (apply Hskip; lia).
    repeat split; try lia. rewrite Hatt. destruct dry_run; lia. }
  split.
  - destruct (Hloop research_stage_id us_country_id state_id_cache
                    new_records st) as (c & st' & Hrun & Hsum & Hcap).
    exists c, st'. split; [assumption|]. split; [assumption|].
    pose proof Hcap as (Hc & Hs & He & Hskip & Hatt & Hnf).
    split; [lia|]. split; [assumption|]. split; [lia|].
    intros Hok HM. by eapply Hexact.
  - intros ADAPTERS st' s total_fetched skipped_dedup Hrun Ht Hd Hok HM.
    destruct (run_reaches_process _ _ _ _ _ _ _ _ _ Hrun Ht)
      as (match_on & stage & country & all_records & st1 & Hproc).
    apply process_summary in Hproc
      as (new & dups & c & -> & Hlen & Hsum & Hparts).
    destruct (lookup_summary (Main.len all_records) (Main.created c)
                (Main.len dups) (Main.skipped_limit c) (Main.errors c))
      as (Ht' & Hc' & Hd' & Hl' & He').
    rewrite Ht' in Ht. rewrite Hd' in Hd.
    inversion Ht; subst total_fetched. inversion Hd; subst skipped_dedup.
    rewrite Hc', Hl', He'.
    destruct Hparts as (st2 & cache & st3 & st4 & _ & Hcreate).
    { intros ->. unfold Main.len in *. simpl in *. lia. }
    destruct (Hloop stage country cache new st3)
      as (c2 & st5 & Hrun2 & _ & Hcap).
    rewrite Hcreate in Hrun2. inversion Hrun2; subst c2 st5.
    destruct (Hexact c st3 st4 (Main.len new) Hsum Hcap Hok ltac:(lia))
      as (-> & -> & -> & _).
    repeat split; f_equal; lia.
Qed.

Lemma creation_cap_bounds_created_leads_witness :
  let w := world_of_leads [] both_enabled_config in
  let new_records := [prospect "Acme Bakery Inc" "Syracuse";
                      prospect "Fresh Foods Co" "Rochester";
                      prospect "Domestic Packaging LLC" "Albany"] in
  0 <= 1
  /\ exists c st',
       Main.create_leads w "stream_c" false (Some 1) (Some 7) (Some 7) ∅
                         new_records initial = (Ret c, st')
       /\ Main.created c = 1 /\ Main.skipped_limit c = 2
       /\ Main.errors c = 0
       /\ attempts (trace st') - attempts (trace initial) = 1.
Proof.
  intros w new_records. split; [lia|].
  destruct (creation_cap_bounds_created_leads w "stream_c" false 1
              (Some 7) (Some 7) ∅ new_records initial ltac:(lia))
    as [(c & st' & Hrun & _ & _ & _ & _ & Hexact) _].
  exists c, st'. split; [exact Hrun|].
  destruct Hexact as (Hc & Hs & He & Ha).
  - intros tr values. reflexivity.
  - vm_compute. reflexivity.
  - rewrite Hc, Hs, He, Ha. repeat split; reflexivity.
Defined.

(** C1 as the specification words it does not hold: with a cap of one
    and two surviving records, a first [create] that fails is followed by
    a second attempt, and no record is counted as skipped by the limit. *)
Lemma failed_creation_does_not_use_up_the_cap :
  let result :=
    Main.run (flaky_world both_enabled_config)
             [fixed_adapter "fixed" [prospect "Acme Bakery Inc" "Syracuse";
                                     prospect "Fresh Foods Co" "Rochester"]]
             "stream_c" false (Some 1) initial in
  result.1 = Ret (Main.summary 2 1 0 0 1)
  /\ attempts (trace result.2) = 2.
Proof. split; vm_compute; reflexivity. Qed.

(* ===================================================================== *)
(** * More on the write payload *)
(* ===================================================================== *)










(* ===================================================================== *)
(** * More on the address parser *)
(* ===================================================================== *)

Lemma rstrip_idem (s : string) : rstrip (rstrip s) = rstrip s.
Proof.
  induction s as [|c t IH]; [reflexivity|]. simpl.
  destruct (is_space c && is_empty (rstrip t)) eqn:E; [reflexivity|].
  simpl. rewrite IH, E. reflexivity.
Qed.

Lemma lstrip_clean (s : string) : starts_clean (lstrip s).
Proof.
  induction s as [|c t IH]; simpl; [exact I|].
  destruct (is_space c) eqn:E; [assumption|]. exact E.
Qed.

Lemma lstrip_of_clean (s : string) : starts_clean s -> lstrip s = s.
Proof. destruct s as [|c t]; simpl; [reflexivity|]. by intros ->. Qed.

Lemma rstrip_clean (s : string) : starts_clean s -> starts_clean (rstrip s).
Proof.
  destruct s as [|c t]; simpl; [auto|]. intros Hc. rewrite Hc. exact Hc.
Qed.

(** Stripping twice is stripping once. *)
Lemma strip_idem (s : string) : strip (strip s) = strip s.
Proof.
  unfold strip.
  rewrite (lstrip_of_clean (rstrip (lstrip s))).
  - apply rstrip_idem.
  - apply rstrip_clean, lstrip_clean.
Qed.

Lemma comma_parts_stripped (a p : string) :
  p ∈ comma_parts a -> strip p = p.
Proof.
  unfold comma_parts. intros Hin.
  apply list_elem_of_fmap in Hin as (q & -> & _). apply strip_idem.
Qed.

Lemma zip_at_shaped (t z : string) : zip_at t = Some z -> zip_shaped z.
Proof.
  unfold zip_at.
  destruct t as [|d1 [|d2 [|d3 [|d4 [|d5 u]]]]]; try discriminate.
  destruct (forallb is_digit [d1; d2; d3; d4; d5]) eqn:H5; [|discriminate].
  assert (Hfive : all_chars is_digit
                    (string_of_list_ascii [d1; d2; d3; d4; d5]) = true).
  { simpl in *. by rewrite H5. }
  intros Hz. exists (string_of_list_ascii [d1; d2; d3; d4; d5]).
  split; [reflexivity|]. split; [exact Hfive|].
  destruct u as [|h [|e1 [|e2 [|e3 [|e4 u']]]]];
    try (left; by inversion Hz).
  destruct (Ascii.eqb_spec "-" h) as [<-|Hh];
    [|left; simpl in Hz; by inversion Hz].
  destruct (forallb is_digit [e1; e2; e3; e4]) eqn:H4;
    [|left; simpl in Hz; by inversion Hz].
  right. exists (string_of_list_ascii [e1; e2; e3; e4]).
  split; [reflexivity|]. split; [simpl in *; by rewrite H4|].
  simpl in Hz. inversion Hz. reflexivity.
Qed.

Lemma state_zip_of_shaped (tok st : string) (z : option string) :
  state_zip_of tok = Some (st, z) ->
  state_shaped st /\ (forall zs, z = Some zs -> zip_shaped zs).
Proof.
  unfold state_zip_of. destruct tok as [|a [|b rest]]; try discriminate.
  destruct (is_upper a) eqn:Ha; [|discriminate].
  destruct (is_upper b) eqn:Hb; [|discriminate].
  simpl. intros H. inversion H; subst. split.
  - exists a, b. auto.
  - intros zs Hzs. by eapply zip_at_shaped.
Qed.

(** What [parse_state_zip] writes is well shaped, if what was there
    before is. *)
Lemma parse_state_zip_shaped (tok : string) (result : address) :
  result !! "state_code" = Some None -> result !! "zip" = Some None ->
  (forall st, parse_state_zip tok result !! "state_code" = Some (Some st) ->
              state_shaped st)
  /\ (forall z, parse_state_zip tok result !! "zip" = Some (Some z) ->
                zip_shaped z)
  /\ parse_state_zip tok result !! "city" = result !! "city"
  /\ parse_state_zip tok result !! "street" = result !! "street".
Proof.
  intros Hs Hz. rewrite parse_state_zip_reads.
  destruct (state_zip_of tok) as [[st z]|] eqn:Htok.
  - apply state_zip_of_shaped in Htok as [Hst Hzip].
    rewrite lookup_insert_ne by discriminate.
    rewrite !lookup_insert_eq.
    rewrite !(lookup_insert_ne _ "zip") by discriminate.
    rewrite !(lookup_insert_ne _ "state_code") by discriminate.
    repeat split.
    + intros st' H. by inversion H; subst.
    + intros z' H. inversion H; subst. by apply Hzip.
  - rewrite Hs, Hz. repeat split; intros ? H; discriminate H.
Qed.

(** X2.  For a non-empty address the parser always names a city (possibly
    the empty string), and whatever it returns is clean: street and city
    carry no whitespace at either end, a state code is exactly two
    capital letters, and a zip code is five digits or five digits, a
    hyphen and four digits. *)
Theorem parse_google_address_components_clean (formatted_address : string) :
  formatted_address <> "" ->
  exists result : address,
    parse_google_address formatted_address = Ret result
    /\ (exists c, result !! "city" = Some (Some c) /\ strip c = c)
    /\ (forall s, result !! "street" = Some (Some s) -> strip s = s)
    /\ (forall st, result !! "state_code" = Some (Some st) -> state_shaped st)
    /\ (forall z, result !! "zip" = Some (Some z) -> zip_shaped z).
Proof.
  intros Hne.
  pose proof (parse_google_address_cases formatted_address Hne) as Hcase.
  pose proof (fun p => comma_parts_stripped
                         (strip (sub_empty country_suffix formatted_address))
                         p) as Hclean.
  fold (address_parts formatted_address) in Hclean.
  destruct (address_parts formatted_address) as [|p0 [|p1 [|p2 ps]]];
    [destruct Hcase| | |]; rewrite Hcase; eexists; (split; [reflexivity|]).
  - split; [exists p0; split; [reflexivity|apply Hclean; by left]|].
    repeat split; intros ? H; discriminate H.
  - destruct (parse_state_zip_shaped (strip p1)
                (<["city" := Some p0]> blank_address) ltac:(by rewrite ?lookup_insert_ne by discriminate)
                ltac:(by rewrite ?lookup_insert_ne by discriminate))
      as (Hst & Hz & Hcity & Hstreet).
    rewrite Hcity, Hstreet.
    split; [exists p0; split; [reflexivity|apply Hclean; by left]|].
    split; [intros ? H; discriminate H|]. split; assumption.
  - destruct (parse_state_zip_shaped (strip p2)
                (<["city" := Some p1]> (<["street" := Some p0]> blank_address))
                ltac:(by rewrite ?lookup_insert_ne by discriminate)
                ltac:(by rewrite ?lookup_insert_ne by discriminate))
      as (Hst & Hz & Hcity & Hstreet).
    rewrite Hcity, Hstreet.
    split; [exists p1; split;
            [reflexivity|apply Hclean; right; by left]|].
    split; [|split; assumption].
    intros s H. inversion H; subst. apply Hclean. by left.
Qed.

Lemma parse_google_address_components_clean_witness :
  "  12 Elm St ,Albany , NY 12201-0001 ,United States" <> ""
  /\ exists result : address,
       parse_google_address
         "  12 Elm St ,Albany , NY 12201-0001 ,United States" = Ret result
       /\ result !! "street" = Some (Some "12 Elm St")
       /\ result !! "zip" = Some (Some "12201-0001")
       /\ zip_shaped "12201-0001".
Proof.
  split; [discriminate|].
  destruct (parse_google_address_components_clean
              "  12 Elm St ,Albany , NY 12201-0001 ,United States")
    as (result & Hrun & _ & _ & _ & Hzip); [discriminate|].
  exists result. split; [exact Hrun|].
  assert (Hr : result = address_of (Some "12 Elm St") (Some "Albany")
                                   (Some "NY") (Some "12201-0001")).
  { vm_compute in Hrun. inversion Hrun. vm_compute. reflexivity. }
  split; [by rewrite Hr|]. split; [by rewrite Hr|].
  apply Hzip. by rewrite Hr.
Defined.

(* ===================================================================== *)
(** * More on the deduplicator *)
(* ===================================================================== *)

Lemma split_from (w : World) (match_on : list string)
      (records : list ProspectRecord) :
  forall new0 dups0 st new dups st',
    for_each (Deduplicator.split_step w match_on) (new0, dups0) records st
    = (Ret (new, dups), st') ->
    exists new1 dups1,
      new = new0 ++ new1 /\ dups = dups0 ++ dups1
      /\ sublist new1 records /\ sublist dups1 records
      /\ records ≡ₚ new1 ++ dups1.
Proof.
  induction records as [|r rs IH]; intros new0 dups0 st new dups st' H.
  - inversion H; subst. exists [], []. rewrite !app_nil_r.
    repeat split; constructor.
  - simpl in H. apply bind_ret_inv in H as ([n1 d1] & st1 & Hstep & Hrest).
    unfold Deduplicator.split_step in Hstep.
    apply bind_ret_inv in Hstep as (dup & st2 & _ & Hstep).
    apply IH in Hrest as (new1 & dups1 & -> & -> & Hn & Hd & Hp).
    destruct dup; inversion Hstep; subst.
    + exists new1, (r :: dups1). rewrite <- app_assoc.
      repeat split; [by apply sublist_cons|by apply sublist_skip|].
      rewrite Hp. apply Permutation_middle.
    + exists (r :: new1), dups1. rewrite <- app_assoc.
      repeat split; [by apply sublist_skip|by apply sublist_cons|].
      simpl. by rewrite Hp.
Qed.

(** X3.  When [split_new_and_duplicate] returns, its two lists share out
    the input: each keeps the order the records came in, and together
    they hold every record exactly once. *)
Theorem split_new_and_duplicate_partitions
        (w : World) (records : list ProspectRecord) (match_on : list string)
        (st st' : state) (new dups : list ProspectRecord) :
  Deduplicator.split_new_and_duplicate w records match_on st
  = (Ret (new, dups), st') ->
  sublist new records /\ sublist dups records /\ records ≡ₚ new ++ dups.
Proof.
  unfold Deduplicator.split_new_and_duplicate. intros H.
  apply split_from in H as (new1 & dups1 & -> & -> & Hn & Hd & Hp).
  auto.
Qed.

Lemma split_new_and_duplicate_partitions_witness :
  let w := world_of_leads [lead 1 "Fresh Foods Co" "Rochester"]
                          no_adapters_config in
  let records := [prospect "Acme Bakery Inc" "Syracuse";
                  prospect "Fresh Foods Co" "Rochester";
                  prospect "Domestic Packaging LLC" "Albany"] in
  exists st',
    Deduplicator.split_new_and_duplicate w records ["partner_name"; "city"]
                                         initial
    = (Ret ([prospect "Acme Bakery Inc" "Syracuse";
             prospect "Domestic Packaging LLC" "Albany"],
            [prospect "Fresh Foods Co" "Rochester"]), st')
    /\ sublist [prospect "Acme Bakery Inc" "Syracuse";
                prospect "Domestic Packaging LLC" "Albany"] records.
Proof.
  intros w records.
  exists (Deduplicator.split_new_and_duplicate w records
            ["partner_name"; "city"] initial).2.
  assert (Hrun : Deduplicator.split_new_and_duplicate w records
                   ["partner_name"; "city"] initial
                 = (Ret ([prospect "Acme Bakery Inc" "Syracuse";
                          prospect "Domestic Packaging LLC" "Albany"],
                         [prospect "Fresh Foods Co" "Rochester"]),
                    (Deduplicator.split_new_and_duplicate w records
                       ["partner_name"; "city"] initial).2))
    by (vm_compute; reflexivity).
  split; [exact Hrun|].
  exact (proj1 (split_new_and_duplicate_partitions _ _ _ _ _ _ _ Hrun)).
Defined.

(** ** The deduplicator only reads *)

Lemma extends_refl (st : state) : extends st [] st.
Proof. split; [by rewrite app_nil_r|reflexivity]. Qed.

Lemma extends_trans (st1 st2 st3 : state) (evs1 evs2 : list event) :
  extends st1 evs1 st2 -> extends st2 evs2 st3 ->
  extends st1 (evs1 ++ evs2) st3.
Proof.
  intros [Ht1 Hc1] [Ht2 Hc2]. split; [|congruence].
  by rewrite Ht2, Ht1, app_assoc.
Qed.

(** [search_duplicate] makes its one query, whatever the answer. *)
Lemma search_duplicate_run (w : World) (partner_name : string)
      (city : option string) (st : state) :
  OdooClient.search_duplicate w partner_name city st =
  (obind (execute_search_read w (trace st)
            (OdooClient.duplicate_domain partner_name city)
            OdooClient.duplicate_fields (Some 50))
         (OdooClient.score_candidates partner_name []),
   {| trace := trace st ++
        [(SearchRead (OdooClient.duplicate_domain partner_name city)
                     OdooClient.duplicate_fields (Some 50),
          is_ret (execute_search_read w (trace st)
                    (OdooClient.duplicate_domain partner_name city)
                    OdooClient.duplicate_fields (Some 50)))];
      url_cache := url_cache st |}).
Proof.
  unfold OdooClient.search_duplicate, OdooClient.search_leads, bind, perform,
    lift.
  simpl. by destruct (execute_search_read w (trace st) _ _ _).
Qed.

(** What one check does to the state: nothing for a record without a
    name, and one query, answered or not, for any other. *)
Lemma is_duplicate_state (w : World) (record : ProspectRecord)
      (match_on : list string) (st : state) :
  let result := Deduplicator.is_duplicate w record match_on st in
  if has_name record
  then exists ok, extends st [(duplicate_query record match_on, ok)] result.2
                  /\ (ok = false -> is_ret result.1 = false)
  else result = (Ret false, st).
Proof.
  unfold has_name, Deduplicator.is_duplicate.
  destruct (is_empty (partner_name record)
            || is_empty (strip (partner_name record))); [reflexivity|].
  cbn [negb]. fold (query_city record match_on).
  unfold bind. rewrite search_duplicate_run.
  destruct (execute_search_read w (trace st) _ _ _) as [candidates|e];
    cbn [is_ret obind].
  - exists true. split; [|discriminate].
    destruct (OdooClient.score_candidates _ _ _) as [[|m ms]|e];
      try (split; reflexivity).
    destruct (bool_decide _ && _).
    + unfold lift. destruct (Deduplicator.same_street _ _) as [[|]|];
        split; reflexivity.
    + split; reflexivity.
  - exists false. split; [split; reflexivity|reflexivity].
Qed.

Lemma split_step_run (w : World) (match_on : list string)
      (new dups : list ProspectRecord) (r : ProspectRecord) (st : state) :
  Deduplicator.split_step w match_on (new, dups) r st =
  match Deduplicator.is_duplicate w r match_on st with
  | (Ret dup, st1) =>
      (Ret (if dup then (new, dups ++ [r]) else (new ++ [r], dups)), st1)
  | (Raise e, st1) => (Raise e, st1)
  end.
Proof.
  unfold Deduplicator.split_step, bind.
  by destruct (Deduplicator.is_duplicate w r match_on st) as [[[]|] st1].
Qed.

(** X4.  Deduplication only reads.  Whether it returns or raises,
    [split_new_and_duplicate] adds nothing but [search_read] calls to the
    trace, at most one for each record, and leaves the page cache alone;
    when it returns, it made exactly one query for each record that has
    a name, all of them answered. *)
Theorem split_new_and_duplicate_only_reads
        (w : World) (records : list ProspectRecord) (match_on : list string)
        (st : state) :
  let result :=
    Deduplicator.split_new_and_duplicate w records match_on st in
  exists evs,
    extends st evs result.2
    /\ Forall (fun ev => is_search_read ev = true) evs
    /\ (length evs <= length records)%nat
    /\ (is_ret result.1 = true ->
        evs = (fun r => (duplicate_query r match_on, true))
                <$> List.filter has_name records).
Proof.
  unfold Deduplicator.split_new_and_duplicate.
  generalize (@nil ProspectRecord, @nil ProspectRecord) as acc.
  revert st. induction records as [|r rs IH]; intros st acc.
  - exists []. simpl. split; [apply extends_refl|]. repeat split; auto.
  - destruct acc as [new dups]. cbn [for_each]. unfold bind.
    rewrite split_step_run.
    pose proof (is_duplicate_state w r match_on st) as Hone.
    cbv zeta in Hone. cbn [List.filter].
    destruct (has_name r) eqn:Hname.
    + destruct Hone as (ok & Hext & Hfail).
      destruct (Deduplicator.is_duplicate w r match_on st) as [[dup|e] st1].
      * assert (ok = true) as ->.
        { destruct ok; [reflexivity|]. by specialize (Hfail eq_refl). }
        destruct (IH st1 (if dup then (new, dups ++ [r])
                          else (new ++ [r], dups)))
          as (evs & Hevs & Hall & Hlen & Hret).
        exists ((duplicate_query r match_on, true) :: evs).
        split; [apply (extends_trans _ _ _ [_] evs Hext Hevs)|].
        split; [constructor; [reflexivity|assumption]|].
        split; [simpl; lia|]. intros Hok.
        rewrite fmap_cons. f_equal. by apply Hret.
      * exists [(duplicate_query r match_on, ok)]. cbn [fst snd].
        split; [assumption|]. split; [by repeat constructor|].
        split; [simpl; lia|]. discriminate.
    + rewrite Hone.
      destruct (IH st (new ++ [r], dups)) as (evs & Hevs & Hall & Hlen & Hret).
      exists evs. split; [assumption|]. split; [assumption|].
      split; [simpl; lia|assumption].
Qed.

Lemma split_new_and_duplicate_only_reads_witness :
  let w := world_of_leads [lead 1 "Fresh Foods Co" "Rochester"]
                          no_adapters_config in
  let records := [prospect "Acme Bakery Inc" "Syracuse";
                  prospect "   " "Troy";
                  prospect "Fresh Foods Co" "Rochester"] in
  let match_on := ["partner_name"; "city"] in
  exists evs,
    extends initial evs
      (Deduplicator.split_new_and_duplicate w records match_on initial).2
    /\ evs = [(duplicate_query (prospect "Acme Bakery Inc" "Syracuse")
                               match_on, true);
              (duplicate_query (prospect "Fresh Foods Co" "Rochester")
                               match_on, true)].
Proof.
  intros w records match_on.
  destruct (split_new_and_duplicate_only_reads w records match_on initial)
    as (evs & Hext & _ & _ & Hret).
  exists evs. split; [exact Hext|]. apply Hret. vm_compute. reflexivity.
Defined.

(** ** The street constraint *)

Lemma text_or_empty_street (candidate : dict) :
  street_readable candidate ->
  OdooClient.text_or_empty candidate "street" = Ret (street_of candidate).
Proof.
  unfold OdooClient.text_or_empty, street_of.
  intros [Hn|[[s Hs]|Hf]].
  - by rewrite Hn.
  - rewrite Hs. by destruct s.
  - by rewrite Hf.
Qed.

Lemma same_street_readable (key : string) (matches : list dict) :
  Forall street_readable matches ->
  Deduplicator.same_street key matches =
  Ret (List.filter (fun m => String.eqb (strip (lower (street_of m))) key)
                   matches).
Proof.
  induction 1 as [|m ms Hm _ IH]; [reflexivity|].
  cbn [Deduplicator.same_street List.filter].
  rewrite (text_or_empty_street _ Hm). cbn [obind]. rewrite IH.
  cbn [obind]. by destruct (String.eqb _ _).
Qed.

Lemma street_of_with_score (name : string) (c : dict) :
  street_of (with_score name c) = street_of c.
Proof.
  unfold street_of, with_score. by rewrite lookup_insert_ne by discriminate.
Qed.

Lemma street_readable_with_score (name : string) (c : dict) :
  street_readable c -> street_readable (with_score name c).
Proof.
  unfold street_readable, with_score.
  by rewrite lookup_insert_ne by discriminate.
Qed.

Lemma existsb_filter_filter {A} (p q : A -> bool) (l : list A) :
  existsb (fun x => p x && q x) l
  = match List.filter q (List.filter p l) with [] => false | _ => true end.
Proof.
  induction l as [|x l IH]; [reflexivity|]. simpl.
  destruct (p x); simpl; [|exact IH]. destruct (q x); [reflexivity|exact IH].
Qed.

Lemma filter_fmap_with_score (name key : string) (l : list dict) :
  List.filter (fun m => String.eqb (strip (lower (street_of m))) key)
              (with_score name <$> l)
  = with_score name
      <$> List.filter (fun c => String.eqb (strip (lower (street_of c))) key)
                      l.
Proof.
  induction l as [|c l IH]; [reflexivity|].
  rewrite fmap_cons. cbn [List.filter]. rewrite street_of_with_score.
  destruct (String.eqb _ _); [rewrite fmap_cons|]; by rewrite IH.
Qed.

(** X5.  With the street among the match fields and a street on the
    record, a record is a duplicate exactly when some lead returned by
    the query both scores 85 or more on the name and has the same street,
    compared in lower case and without surrounding whitespace.  The query
    itself asks Odoo only for [id], [partner_name], [city] and
    [x_bd_stream]: when the leads come back with just those fields, no
    street is there to compare, and a record with a street is never taken
    for a duplicate. *)
Theorem is_duplicate_with_street
        (w : World) (record : ProspectRecord) (match_on : list string)
        (st : state) (candidates : list dict) :
  strip (partner_name record) <> "" ->
  "street" ∈ match_on ->
  Deduplicator.nonempty (street record) = true ->
  execute_search_read w (trace st)
    (OdooClient.duplicate_domain (partner_name record)
                                 (query_city record match_on))
    OdooClient.duplicate_fields (Some 50) = Ret candidates ->
  Forall named candidates ->
  Forall street_readable candidates ->
  (Deduplicator.is_duplicate w record match_on st).1 =
  Ret (existsb (fun c => is_match (partner_name record) c
                         && String.eqb (strip (lower (street_of c)))
                                       (street_key record))
               candidates)
  /\ (street_key record <> "" ->
      Forall (fun c => c !! "street" = None) candidates ->
      (Deduplicator.is_duplicate w record match_on st).1 = Ret false).
Proof.
  intros Hname Hstreet Hrec Hans Hnamed Hread.
  assert (Hmain :
    (Deduplicator.is_duplicate w record match_on st).1 =
    Ret (existsb (fun c => is_match (partner_name record) c
                           && String.eqb (strip (lower (street_of c)))
                                         (street_key record))
                 candidates)).
  { unfold Deduplicator.is_duplicate.
    assert (Hguard : is_empty (partner_name record)
                     || is_empty (strip (partner_name record)) = false).
    { destruct (partner_name record) as [|c t]; [by destruct Hname|].
      destruct (strip (String c t)); [by destruct Hname|reflexivity]. }
    rewrite Hguard. fold (query_city record match_on). unfold bind at 1.
    rewrite (search_duplicate_named _ _ _ _ _ Hans Hnamed).
    rewrite existsb_filter_filter.
    destruct (List.filter (is_match (partner_name record)) candidates)
      as [|c cs] eqn:Hf; [reflexivity|].
    rewrite fmap_cons, <- fmap_cons.
    rewrite bool_decide_eq_true_2 by assumption. rewrite Hrec.
    cbn [andb]. unfold bind, lift. fold (street_key record).
    rewrite same_street_readable.
    - rewrite filter_fmap_with_score.
      by destruct (List.filter _ (c :: cs)).
    - apply Forall_fmap. rewrite <- Hf.
      apply Forall_forall. intros x Hx. simpl.
      apply street_readable_with_score.
      rewrite Forall_forall in Hread. apply Hread.
      apply list_elem_of_In. apply list_elem_of_In in Hx.
      by apply filter_In in Hx as [Hx _]. }
  split; [exact Hmain|].
  intros Hkey Hnone. rewrite Hmain. f_equal.
  apply not_true_is_false. intros Hex.
  apply existsb_exists in Hex as (c & Hin & Hc).
  apply andb_true_iff in Hc as [_ Hc]. apply String.eqb_eq in Hc.
  rewrite Forall_forall in Hnone.
  apply list_elem_of_In in Hin. specialize (Hnone c Hin).
  unfold street_of in Hc. rewrite Hnone in Hc. simpl in Hc.
  by apply Hkey.
Qed.

Lemma is_duplicate_with_street_witness :
  let w := world_of_leads [lead 1 "Downtown Parking" "Syracuse"]
                          no_adapters_config in
  let record := prospect_at "Downtown Parking" "Syracuse" "100 Main St" in
  (Deduplicator.is_duplicate w record ["partner_name"; "city"; "street"]
                             initial).1 = Ret false
  /\ (Deduplicator.is_duplicate w record ["partner_name"; "city"]
                                initial).1 = Ret true.
Proof.
  intros w record. split; [|vm_compute; reflexivity].
  apply (is_duplicate_with_street w record
           ["partner_name"; "city"; "street"] initial
           [lead 1 "Downtown Parking" "Syracuse"]).
  - discriminate.
  - apply list_elem_of_In. simpl. tauto.
  - reflexivity.
  - reflexivity.
  - constructor; [|constructor]. left. eexists. vm_compute. reflexivity.
  - constructor; [|constructor]. left. vm_compute. reflexivity.
  - discriminate.
  - constructor; [|constructor]. vm_compute. reflexivity.
Defined.

(** ** A failing query *)

(** X6.  A [search_read] that raises is not caught by the deduplicator:
    [is_duplicate] raises the same exception, and so does everything
    after the adapters ran when the first fetched record has a name.
    Nothing is created, and the failed query is the only call made. *)
Theorem failed_query_aborts_the_run
        (w : World) (stream : string) (dry_run : bool) (limit : option Z)
        (match_on : list string) (research_stage_id us_country_id : option Z)
        (record : ProspectRecord) (others : list ProspectRecord)
        (st : state) (e : exn) :
  has_name record = true ->
  execute_search_read w (trace st)
    (OdooClient.duplicate_domain (partner_name record)
                                 (query_city record match_on))
    OdooClient.duplicate_fields (Some 50) = Raise e ->
  let st' := {| trace := trace st ++ [(duplicate_query record match_on, false)];
                url_cache := url_cache st |} in
  Deduplicator.is_duplicate w record match_on st = (Raise e, st')
  /\ Main.process w stream dry_run limit match_on research_stage_id
                  us_country_id (record :: others) st = (Raise e, st').
Proof.
  intros Hname Hfail st'.
  assert (Hdup : Deduplicator.is_duplicate w record match_on st
                 = (Raise e, st')).
  { unfold Deduplicator.is_duplicate. unfold has_name in Hname.
    apply negb_true_iff in Hname. rewrite Hname.
    fold (query_city record match_on). unfold bind.
    rewrite search_duplicate_run, Hfail. reflexivity. }
  split; [exact Hdup|].
  unfold Main.process, Deduplicator.split_new_and_duplicate.
  cbn [for_each]. unfold bind. rewrite split_step_run, Hdup. reflexivity.
Qed.

Lemma failed_query_aborts_the_run_witness :
  let w := {| execute_search_read := fun _ _ _ _ =>
                                       Raise (OtherException "Fault");
              execute_create := fun _ _ => Ret 1;
              execute_search := fun _ _ _ => Ret [7];
              http_get := fun _ _ => Raise RequestException;
              environ := odoo_environ;
              stream_config := fun _ => Ret no_adapters_config |} in
  (Main.process w "stream_c" false None ["partner_name"; "city"] (Some 7)
                (Some 7)
                [prospect "Acme Bakery Inc" "Syracuse";
                 prospect "Fresh Foods Co" "Rochester"] initial).1
  = Raise (OtherException "Fault").
Proof.
  intros w.
  destruct (failed_query_aborts_the_run w "stream_c" false None
              ["partner_name"; "city"] (Some 7) (Some 7)
              (prospect "Acme Bakery Inc" "Syracuse")
              [prospect "Fresh Foods Co" "Rochester"] initial
              (OtherException "Fault") eq_refl eq_refl) as [_ H].
  by rewrite H.
Defined.

(* ===================================================================== *)
(** * More on the orchestrator *)
(* ===================================================================== *)

(** X7.  An adapter that the stream does not configure, or configures
    without [enabled], is not run: when that holds of every adapter of
    the registry, the loop returns no record and leaves the state as it
    was, whatever the adapters would have done. *)
Theorem unconfigured_adapters_are_not_run
        (ADAPTERS : list BaseAdapter.Adapter)
        (data_sources : gmap string AdapterConfig) (stream : string)
        (profile : Profile) (st : state) :
  Forall (fun a => data_sources !! BaseAdapter.name a = None
                   \/ exists cfg, data_sources !! BaseAdapter.name a = Some cfg
                                  /\ enabled cfg = false)
         ADAPTERS ->
  Main.run_adapters ADAPTERS data_sources stream profile st = (Ret [], st).
Proof.
  intros Hall. unfold Main.run_adapters.
  induction Hall as [|a rest Ha _ IH]; [reflexivity|].
  cbn [for_each]. unfold bind, Main.run_adapter at 1, BaseAdapter.is_enabled.
  assert (Hoff : enabled (default empty_config
                            (data_sources !! BaseAdapter.name a)) = false).
  { destruct Ha as [->|(cfg & -> & Hcfg)]; [reflexivity|exact Hcfg]. }
  rewrite Hoff. exact IH.
Qed.

Lemma unconfigured_adapters_are_not_run_witness :
  Main.run_adapters
    [failing_adapter "trade_data";
     fixed_adapter "google_maps" [prospect "Acme Bakery Inc" "Syracuse"]]
    (<["google_maps" := empty_config]> ∅) "stream_c" (profile_excluding [])
    initial = (Ret [], initial).
Proof.
  apply unconfigured_adapters_are_not_run.
  constructor; [left; reflexivity|].
  constructor; [right; exists empty_config; split; reflexivity|].
  constructor.
Defined.

(** ** State identifiers *)

Lemma get_state_id_run (w : World) (code : string) (st : state) :
  OdooClient.get_state_id w code "US" st =
  (match execute_search w (trace st) "res.country.state"
           [("code", "=", upper code); ("country_id.code", "=", "US")] with
   | Ret ids => Ret (OdooClient.first_id ids)
   | Raise e => Raise e
   end,
   {| trace := trace st ++
        [(state_lookup code,
          is_ret (execute_search w (trace st) "res.country.state"
                    [("code", "=", upper code);
                     ("country_id.code", "=", "US")]))];
      url_cache := url_cache st |}).
Proof.
  unfold OdooClient.get_state_id, bind, perform, state_lookup.
  change (upper "US") with "US".
  by destruct (execute_search w (trace st) _ _).
Qed.

Lemma resolve_from (w : World) (codes : list string) :
  forall (cache0 : gmap string (option Z)) (st : state) cache st',
    for_each
      (fun (cache : gmap string (option Z)) code =>
         do id <- OdooClient.get_state_id w code "US" ;;
         ret (<[code := id]> cache))
      cache0 codes st = (Ret cache, st') ->
    dom cache = dom cache0 ∪ list_to_set codes
    /\ extends st ((fun code => (state_lookup code, true)) <$> codes) st'.
Proof.
  induction codes as [|code codes IH]; intros cache0 st cache st' H.
  - inversion H; subst. split; [|apply extends_refl].
    by rewrite list_to_set_nil, union_empty_r_L.
  - cbn [for_each] in H. unfold bind at 1 in H. unfold bind at 1 in H.
    rewrite get_state_id_run in H.
    destruct (execute_search w (trace st) _ _) as [ids|e]; [|discriminate].
    cbn [ret is_ret] in H. apply IH in H as [Hdom Hext].
    split.
    + rewrite Hdom, dom_insert_L. simpl.
      rewrite (union_comm_L {[code]} (dom cache0)).
      by rewrite union_assoc_L.
    + rewrite fmap_cons.
      refine (extends_trans _ _ _ [_] _ _ Hext). by split.
Qed.

Lemma remove_dups_shorter {A} `{EqDecision A} (l : list A) :
  (length (remove_dups l) <= length l)%nat.
Proof.
  induction l as [|x l IH]; simpl; [lia|].
  case_decide; simpl; lia.
Qed.

Lemma omap_shorter {A B} (f : A -> option B) (l : list A) :
  (length (omap f l) <= length l)%nat.
Proof.
  induction l as [|x l IH]; [reflexivity|].
  change (omap f (x :: l))
    with (match f x with Some y => y :: omap f l | None => omap f l end).
  destruct (f x); simpl; lia.
Qed.

(** X8.  State identifiers are looked up once for each distinct state
    code: when [_resolve_state_ids] returns, the calls it added to the
    trace are, in some order, one [search] on the states for each
    distinct non-empty code of the records, in upper case and within the
    US; the cache it returns has exactly those codes as keys, so every
    record that has a code finds an entry. *)
Theorem state_ids_resolved_once_per_code
        (w : World) (records : list ProspectRecord) (st st' : state)
        (cache : gmap string (option Z)) :
  Main._resolve_state_ids w records st = (Ret cache, st') ->
  let codes := Main.distinct_state_codes records in
  NoDup codes
  /\ (length codes <= length records)%nat
  /\ (exists evs,
        extends st evs st'
        /\ evs ≡ₚ (fun code => (state_lookup code, true)) <$> codes)
  /\ dom cache = list_to_set codes
  /\ (forall r code, r ∈ records -> state_code r = Some code ->
                     code <> "" -> is_Some (cache !! code)).
Proof.
  intros H codes. unfold Main._resolve_state_ids in H.
  apply resolve_from in H as [Hdom Hext]. fold codes in Hdom, Hext.
  rewrite dom_empty_L, union_empty_l_L in Hdom.
  split; [apply NoDup_remove_dups|].
  split.
  { subst codes. unfold Main.distinct_state_codes.
    etransitivity; [apply remove_dups_shorter|]. apply omap_shorter. }
  split; [by eexists|]. split; [exact Hdom|].
  intros r code Hr Hcode Hne. apply elem_of_dom. rewrite Hdom.
  apply elem_of_list_to_set. subst codes. unfold Main.distinct_state_codes.
  apply elem_of_remove_dups, list_elem_of_omap. exists r.
  split; [exact Hr|]. rewrite Hcode.
  destruct code; [by destruct Hne|reflexivity].
Qed.

Lemma state_ids_resolved_once_per_code_witness :
  let records := [prospect "Acme Bakery Inc" "Syracuse";
                  prospect "Salt City Bread" "Syracuse"] in
  let result := Main._resolve_state_ids
                  (world_of_leads [] no_adapters_config) records initial in
  exists cache, result = (Ret cache, result.2)
                /\ dom cache = list_to_set (Main.distinct_state_codes records).
Proof.
  eexists. split; [reflexivity|].
  refine (proj1 (proj2 (proj2 (proj2
    (state_ids_resolved_once_per_code
       (world_of_leads [] no_adapters_config) _ initial _ _ _))))).
  reflexivity.
Defined.

(** ** The start of a run *)

Lemma from_env_ok (w : World) (st : state) :
  Forall (is_set w) required_variables ->
  OdooClient.from_env w st = (Ret tt, st).
Proof.
  intros H. unfold OdooClient.from_env, required_variables in *.
  repeat match goal with
         | H : Forall _ (_ :: _) |- _ =>
             let s := fresh "s" in
             let Hs := fresh "Hs" in
             let Hne := fresh "Hne" in
             apply Forall_cons_1 in H as [(s & Hs & Hne) H];
             cbn [List.filter]; rewrite Hs;
             destruct s; [by destruct Hne|clear Hs Hne]; cbn [is_empty]
         end.
  reflexivity.
Qed.

Lemma from_env_missing (w : World) (variable : string) (st : state) :
  variable ∈ required_variables -> ~ is_set w variable ->
  OdooClient.from_env w st = (Raise EnvironmentError, st).
Proof.
  intros Hin Hunset. unfold OdooClient.from_env.
  match goal with
  | |- context [List.filter ?p ?l] =>
      assert (Hmissing : In variable (List.filter p l))
  end.
  { apply List.filter_In. split; [by apply list_elem_of_In|].
    destruct (environ w !! variable) as [s|] eqn:Hs; [|reflexivity].
    destruct s; [reflexivity|]. destruct Hunset. by eexists. }
  destruct (List.filter _ _); [destruct Hmissing|reflexivity].
Qed.

(** X9.  Without the "Research" stage nothing is written: in a run that
    is not a dry run, when the lookup of the stage finds nothing or
    fails, the run returns [{created: 0, errors: 1}] after the lookups of
    the stage and of the country and nothing else; no adapter is run,
    whatever the registry holds. *)
Theorem missing_stage_stops_the_run
        (w : World) (ADAPTERS : list BaseAdapter.Adapter) (stream : string)
        (limit : option Z) (config : StreamConfig) (st : state) :
  Forall (is_set w) required_variables ->
  stream_config w stream = Ret config ->
  (execute_search w (trace st) "crm.stage" [("name", "=", "Research")]
     = Ret []
   \/ exists e, execute_search w (trace st) "crm.stage"
                  [("name", "=", "Research")] = Raise e) ->
  exists stage_found country_found : bool,
    Main.run w ADAPTERS stream false limit st =
    (Ret (<["errors" := 1]> (<["created" := 0]> ∅)),
     after st [(stage_lookup, stage_found);
               (country_lookup, country_found)]).
Proof.
  intros Henv Hconfig Hstage. unfold Main.run.
  unfold bind at 1, lift. rewrite Hconfig.
  unfold bind at 1. rewrite (from_env_ok w st Henv).
  unfold bind at 1, Main._get_or_warn, try_except,
    OdooClient.get_stage_id, perform.
  unfold bind at 1.
  exists (is_ret (execute_search w (trace st) "crm.stage"
                    [("name", "=", "Research")])).
  assert (Hnone :
    forall e, (let '(r, st') :=
       match execute_search w (trace st) "crm.stage"
               [("name", "=", "Research")] with
       | Ret a => ret (OdooClient.first_id a)
                      {| trace := trace st ++ [(stage_lookup, e)];
                         url_cache := url_cache st |}
       | Raise e' => (Raise e',
                      {| trace := trace st ++ [(stage_lookup, e)];
                         url_cache := url_cache st |})
       end in
       match r with
       | Ret a => (Ret a, st')
       | Raise e' => ret None st'
       end) = (Ret None, {| trace := trace st ++ [(stage_lookup, e)];
                            url_cache := url_cache st |})).
  { intros b. destruct Hstage as [->|[e ->]]; reflexivity. }
  unfold stage_lookup in *. cbn zeta. rewrite Hnone. clear Hnone.
  unfold bind at 1, Main._get_country_id, try_except, perform.
  unfold bind at 1. cbn [trace url_cache].
  match goal with
  | |- context [execute_search w ?tr "res.country" ?d] =>
      exists (is_ret (execute_search w tr "res.country" d));
      destruct (execute_search w tr "res.country" d)
  end; cbn [ret is_ret]; unfold after, country_lookup;
    by rewrite <- app_assoc.
Qed.

Lemma odoo_environ_set (w : World) :
  environ w = odoo_environ -> Forall (is_set w) required_variables.
Proof.
  intros Henv. unfold is_set. rewrite Henv.
  repeat constructor; eexists; (split; [vm_compute; reflexivity|discriminate]).
Qed.

Lemma missing_stage_stops_the_run_witness :
  exists stage_found country_found : bool,
    Main.run world_without_stage
             [fixed_adapter "google_maps" [prospect "Acme Bakery Inc" "Syracuse"]]
             "stream_c" false (Some 5) initial =
    (Ret (<["errors" := 1]> (<["created" := 0]> ∅)),
     after initial [(stage_lookup, stage_found);
                    (country_lookup, country_found)]).
Proof.
  apply (missing_stage_stops_the_run world_without_stage _ "stream_c"
           (Some 5) both_enabled_config initial).
  - by apply odoo_environ_set.
  - reflexivity.
  - left. reflexivity.
Defined.

(** X10.  A run aborts before it talks to Odoo when the configuration of
    the stream cannot be read or one of ODOO_URL, ODOO_DB, ODOO_USER,
    ODOO_API_KEY is unset or empty: it raises with the state as it was,
    no call made and no page requested; when the configuration was read,
    the exception is [EnvironmentError]. *)
Theorem missing_variable_aborts_before_any_call
        (w : World) (ADAPTERS : list BaseAdapter.Adapter) (stream : string)
        (dry_run : bool) (limit : option Z) (variable : string)
        (st : state) :
  variable ∈ required_variables -> ~ is_set w variable ->
  exists e,
    Main.run w ADAPTERS stream dry_run limit st = (Raise e, st)
    /\ (is_ret (stream_config w stream) = true -> e = EnvironmentError).
Proof.
  intros Hin Hunset. unfold Main.run. unfold bind at 1, lift.
  destruct (stream_config w stream) as [config|e].
  - exists EnvironmentError. split; [|reflexivity].
    unfold bind at 1. by rewrite (from_env_missing w variable st Hin Hunset).
  - exists e. split; [reflexivity|discriminate].
Qed.

Lemma missing_variable_aborts_before_any_call_witness :
  exists e,
    Main.run world_without_key
             [fixed_adapter "google_maps" [prospect "Acme Bakery Inc" "Syracuse"]]
             "stream_c" true None initial = (Raise e, initial)
    /\ (is_ret (stream_config world_without_key "stream_c") = true ->
        e = EnvironmentError).
Proof.
  apply (missing_variable_aborts_before_any_call world_without_key _
           "stream_c" true None "ODOO_API_KEY" initial).
  - unfold required_variables. set_solver.
  - intros (s & Hs & _). vm_compute in Hs. discriminate.
Defined.

(** ** The creation loop without a limit *)

Lemma count_app (p : event -> bool) (evs1 evs2 : list event) :
  count p (evs1 ++ evs2) = count p evs1 + count p evs2.
Proof. unfold count. rewrite List.filter_app, length_app. lia. Qed.

Lemma after_after (st : state) (evs1 evs2 : list event) :
  after (after st evs1) evs2 = after st (evs1 ++ evs2).
Proof. unfold after. simpl. by rewrite app_assoc. Qed.

Lemma after_nil (st : state) : after st [] = st.
Proof. destruct st. unfold after. simpl. by rewrite app_nil_r. Qed.

Lemma create_leads_from (w : World) (stream : string) (dry_run : bool)
      (research_stage_id us_country_id : option Z)
      (state_id_cache : gmap string (option Z))
      (new_records : list ProspectRecord) :
  forall (c0 : Main.counters) (st : state),
  exists (c : Main.counters) (evs : list event),
    for_each (Main.create_step w stream dry_run None research_stage_id
                               us_country_id state_id_cache)
             c0 new_records st = (Ret c, after st evs)
    /\ Main.skipped_limit c = Main.skipped_limit c0
    /\ Forall (fun ev => is_create ev = true) evs
    /\ length evs = (if dry_run then 0 else length new_records)%nat
    /\ Main.created c =
       Main.created c0
       + (if dry_run then Main.len new_records else count answered evs)
    /\ Main.errors c =
       Main.errors c0 + count (fun ev => negb (answered ev)) evs.
Proof.
  induction new_records as [|rec rest IH]; intros c0 st.
  - exists c0, []. rewrite after_nil. cbn [for_each ret].
    repeat split; try constructor; destruct dry_run; unfold count, Main.len;
      simpl; lia.
  - cbn [for_each]. unfold bind at 1.
    unfold Main.create_step at 1. cbn [Main.limit_reached].
    destruct dry_run.
    + cbn [ret].
      match goal with
      | |- context [for_each _ ?c1 rest ?st1] =>
          destruct (IH c1 st1) as (c & evs & -> & Hs & Hall & Hlen & Hc & He)
      end.
      exists c, evs. cbn [Main.created Main.skipped_limit Main.errors] in *.
      repeat split; try assumption; try lia.
      rewrite Hc. unfold Main.len. simpl length. lia.
    + unfold try_except, bind at 1, OdooClient.create_lead, perform.
      match goal with
      | |- context [execute_create w (trace st) ?v] =>
          set (values := v);
          destruct (execute_create w (trace st) values) as [id|e] eqn:Hcreate
      end; cbn [ret is_ret];
        change {| trace := trace st ++ [(Create values, ?b)];
                  url_cache := url_cache st |}
          with (after st [(Create values, b)]);
        match goal with
        | |- context [for_each _ ?c1 rest ?st1] =>
            destruct (IH c1 st1) as (c & evs & -> & Hs & Hall & Hlen & Hc & He)
        end;
        rewrite after_after;
        eexists c, (_ :: evs);
        cbn [Main.created Main.skipped_limit Main.errors] in *;
        (split; [reflexivity|]);
        (split; [assumption|]);
        (split; [by constructor|]);
        (split; [simpl; lia|]);
        rewrite Hc, He;
        change ((?ev : event) :: evs) with ([ev] ++ evs);
        rewrite !count_app; unfold count; simpl; lia.
Qed.

(** X11.  Without a limit the creation loop skips nothing and never
    raises: it returns counters with [skipped_limit = 0]; in a dry run
    it makes no call and counts every record as created, with no error;
    otherwise it makes one [create] for each record and nothing else,
    [created] being the number of those that were answered and [errors]
    the number of those that failed. *)
Theorem creation_without_limit
        (w : World) (stream : string) (dry_run : bool)
        (research_stage_id us_country_id : option Z)
        (state_id_cache : gmap string (option Z))
        (new_records : list ProspectRecord) (st : state) :
  exists (c : Main.counters) (evs : list event),
    Main.create_leads w stream dry_run None research_stage_id us_country_id
                      state_id_cache new_records st = (Ret c, after st evs)
    /\ Main.skipped_limit c = 0
    /\ Forall (fun ev => is_create ev = true) evs
    /\ length evs = (if dry_run then 0 else length new_records)%nat
    /\ Main.created c =
       (if dry_run then Main.len new_records else count answered evs)
    /\ Main.errors c = count (fun ev => negb (answered ev)) evs.
Proof.
  unfold Main.create_leads.
  destruct (create_leads_from w stream dry_run research_stage_id
              us_country_id state_id_cache new_records
              {| Main.created := 0; Main.skipped_limit := 0;
                 Main.errors := 0 |} st)
    as (c & evs & H & Hs & Hall & Hlen & Hc & He).
  exists c, evs. cbn [Main.created Main.skipped_limit Main.errors] in *.
  repeat split; try assumption; lia.
Qed.

(* ===================================================================== *)
(** * More on the adapters *)
(* ===================================================================== *)

Lemma keyed_apart_snoc (key : ProspectRecord -> string)
      (all_records : list ProspectRecord) (seen : gset string)
      (rec : ProspectRecord) :
  keyed_apart key (all_records, seen) -> key rec ∉ seen ->
  keyed_apart key (all_records ++ [rec], {[key rec]} ∪ seen).
Proof.
  intros [Hnodup Hseen] Hfresh. split; cbn [fst snd] in *.
  - rewrite fmap_app. apply NoDup_app. split; [assumption|].
    split; [|apply NoDup_singleton].
    intros k Hk Hk'. apply list_elem_of_singleton in Hk'. subst k.
    apply list_elem_of_fmap in Hk as (r & Hr & Hin).
    rewrite Forall_forall in Hseen. apply Hfresh. rewrite Hr. by apply Hseen.
  - apply Forall_app. split.
    + eapply Forall_impl; [exact Hseen|]. intros r Hr. cbn beta.
      apply elem_of_union. by right.
    + constructor; [|constructor]. apply elem_of_union. left.
      by apply elem_of_singleton.
Qed.

Lemma keyed_apart_seen (key : ProspectRecord -> string)
      (all_records : list ProspectRecord) (seen : gset string) (k : string) :
  keyed_apart key (all_records, seen) ->
  keyed_apart key (all_records, {[k]} ∪ seen).
Proof.
  intros [Hnodup Hseen]. split; [assumption|]. cbn [fst snd] in *.
  eapply Forall_impl; [exact Hseen|]. intros r Hr. cbn beta.
  apply elem_of_union. by right.
Qed.

Lemma accept_keyed_apart (ops : list string)
      (acc : list ProspectRecord * gset string) (rec : ProspectRecord) :
  keyed_apart GoogleMaps.dedup_key acc ->
  keyed_apart GoogleMaps.dedup_key (GoogleMaps.accept ops acc rec).
Proof.
  destruct acc as [all_records seen]. intros Hacc.
  destruct (decide (GoogleMaps.dedup_key rec ∈ seen)) as [Hin|Hfresh].
  - unfold GoogleMaps.accept. by rewrite bool_decide_eq_true_2.
  - rewrite (accept_fresh _ _ _ _ Hfresh).
    destruct (GoogleMaps.excluded ops rec).
    + by apply keyed_apart_seen.
    + by apply keyed_apart_snoc.
Qed.

Lemma foldl_keeps {A B} (good : B -> Prop) (f : B -> A -> B) (l : list A) :
  (forall acc x, good acc -> good (f acc x)) ->
  forall acc, good acc -> good (foldl f acc l).
Proof.
  intros Hf. induction l as [|x l IH]; intros acc Hacc; simpl; auto.
Qed.

(** X12.  The records one call of the Google Maps [fetch] returns have
    pairwise different keys, the key of a record being its place
    identifier or, without one, its lower-cased name: no place comes
    twice, however the queries and cities overlap. *)
Theorem google_maps_fetch_returns_each_place_once
        (api_key : string)
        (str_format : string -> string -> outcome string)
        (_search_text :
           string -> string -> bool -> Z -> M (list ProspectRecord))
        (adapter_config : AdapterConfig) (stream : string)
        (profile : Profile) (st st' : state) (out : list ProspectRecord) :
  GoogleMaps.fetch api_key str_format _search_text adapter_config stream
                   profile st = (Ret out, st') ->
  NoDup (GoogleMaps.dedup_key <$> out).
Proof.
  intros Hfetch.
  assert (Htriple :
    triple (fun _ => True)
           (GoogleMaps.fetch api_key str_format _search_text adapter_config
                             stream profile)
           (fun out _ => NoDup (GoogleMaps.dedup_key <$> out))
           (fun _ => True)).
  { unfold GoogleMaps.fetch.
    destruct (search_queries adapter_config) as [|q qs].
    { apply triple_ret. intros; constructor. }
    set (ops := lower <$> exclude_operators profile).
    set (good := fun (acc : list ProspectRecord * gset string) (_ : state) =>
                   keyed_apart GoogleMaps.dedup_key acc).
    eapply triple_bind with (R := fun _ _ => True).
    { intros s _.
      destruct (GoogleMaps._get_client api_key s) as [[]]; simpl; auto. }
    intros _. eapply triple_bind with (R := good).
    - eapply triple_weaken
        with (P' := good ([], ∅)) (Q' := good) (E' := fun _ => True);
        [|intros; split; constructor|auto|auto].
      apply triple_for_each. intros acc query_template _.
      apply triple_for_each. intros acc' city _.
      unfold GoogleMaps.fetch_city.
      eapply triple_bind with (R := fun _ => good acc').
      + apply triple_lift. intros s H. destruct (str_format _ _); simpl; auto.
      + intros query. eapply triple_bind with (R := fun _ => good acc').
        * intros s H. destruct (_search_text _ _ _ _ s) as [[]]; simpl; auto.
        * intros records. apply triple_ret. intros s H.
          apply foldl_keeps; [apply accept_keyed_apart|exact H].
    - intros acc. apply triple_ret. intros s H. apply H. }
  specialize (Htriple st I). by rewrite Hfetch in Htriple.
Qed.

Lemma google_maps_fetch_returns_each_place_once_witness :
  let result :=
    GoogleMaps.fetch "key" format_plain
      (canned_search (sample_places ++ sample_places))
      parking_config "stream_a" (profile_excluding []) initial in
  is_ret result.1 = true
  /\ NoDup (GoogleMaps.dedup_key <$>
              match result.1 with Ret out => out | Raise _ => [] end).
Proof.
  split; [reflexivity|].
  eapply (google_maps_fetch_returns_each_place_once "key" format_plain
            (canned_search (sample_places ++ sample_places))
            parking_config "stream_a" (profile_excluding []) initial).
  vm_compute. reflexivity.
Defined.



(** ** The trade-data adapter *)

Lemma fetched_since_refl (st : state) : fetched_since st 0 st.
Proof.
  exists []. rewrite app_nil_r.
  split; [reflexivity|]. split; [constructor|]. split; [simpl; lia|done].
Qed.

Lemma fetched_since_trans (st0 st1 st2 : state) (n m : nat) :
  fetched_since st0 n st1 -> fetched_since st1 m st2 ->
  fetched_since st0 (n + m) st2.
Proof.
  intros (evs1 & Ht1 & Hall1 & Hlen1 & Hc1) (evs2 & Ht2 & Hall2 & Hlen2 & Hc2).
  exists (evs1 ++ evs2). rewrite Ht2, Ht1, app_assoc, length_app.
  split; [reflexivity|]. split; [by apply Forall_app|].
  split; [lia|by etransitivity].
Qed.

Lemma fetched_since_mono (st0 st : state) (n m : nat) :
  (n <= m)%nat -> fetched_since st0 n st -> fetched_since st0 m st.
Proof.
  intros Hnm (evs & Ht & Hall & Hlen & Hc). exists evs.
  split; [assumption|]. split; [assumption|]. split; [lia|assumption].
Qed.

Lemma _get_cached_fetched (w : World) (url : string) (st : state) :
  fetched_since st 1 ((TradeData._get_cached w) url st).2.
Proof.
  unfold TradeData._get_cached, perform.
  destruct (url_cache st !! url) as [html|] eqn:Hcache.
  { apply (fetched_since_mono _ _ 0); [lia|apply fetched_since_refl]. }
  destruct (http_get w (trace st) url) as [html|e].
  - exists [(HttpGet url, true)]. cbn.
    split; [reflexivity|]. split; [by repeat constructor|].
    split; [lia|by apply insert_subseteq].
  - assert (H : fetched_since st 1
        {| trace := trace st ++ [(HttpGet url, false)];
           url_cache := url_cache st |}).
    { exists [(HttpGet url, false)]. cbn.
      split; [reflexivity|]. split; [by repeat constructor|].
      split; [lia|reflexivity]. }
    by destruct e.
Qed.

Lemma _fetch_by_hs_code_fetched (w : World) (quote_plus : string -> string) (card : Type)
      (_find_cards : string -> list card)
      (_parse_single_card : card -> string -> string -> option ProspectRecord)
      (hs_code stream : string)
      (exclude_from priority_states : list string) (st : state) :
  fetched_since st 2
    ((TradeData._fetch_by_hs_code w quote_plus card _find_cards
       _parse_single_card) hs_code stream exclude_from priority_states st).2.
Proof.
  unfold TradeData._fetch_by_hs_code.
  match goal with
  | |- context [bind ((TradeData._get_cached w) ?u)] => generalize u; intros url
  end.
  unfold bind at 1. pose proof (_get_cached_fetched w url st) as H1.
  destruct ((TradeData._get_cached w) url st) as [[[html|]|e] st1]; cbn [snd] in *;
    try (apply (fetched_since_mono _ _ 1); [lia|exact H1]).
  destruct (TradeData._parse_company_cards _ _ _ html _ _ _ _);
    [|apply (fetched_since_mono _ _ 1); [lia|exact H1]].
  unfold bind at 1.
  match goal with
  | |- context [(TradeData._get_cached w) ?u st1] =>
      pose proof (_get_cached_fetched w u st1) as H2;
      destruct ((TradeData._get_cached w) u st1) as [[[h2|]|e] st2]
  end; cbn [snd] in *;
    try (destruct (is_empty h2));
    apply (fetched_since_trans _ _ _ 1 1 H1 H2).
Qed.

Lemma fetch_loop_fetched (w : World) (quote_plus : string -> string) (card : Type)
      (_find_cards : string -> list card)
      (_parse_single_card : card -> string -> string -> option ProspectRecord)
      (stream : string)
      (exclude_from priority_states : list string)
      (hs_codes : list string) :
  forall (acc : list ProspectRecord * gset string) (st : state),
    fetched_since st (2 * length hs_codes)
      (for_each
         (fun acc hs_code =>
            do records <- (TradeData._fetch_by_hs_code w quote_plus card _find_cards
       _parse_single_card) hs_code stream exclude_from
                                            priority_states ;;
            ret (foldl TradeData.keep_first acc records))
         acc hs_codes st).2.
Proof.
  induction hs_codes as [|hs_code rest IH]; intros acc st.
  - apply fetched_since_refl.
  - cbn [for_each]. unfold bind at 1. unfold bind at 1.
    pose proof (_fetch_by_hs_code_fetched w quote_plus card _find_cards
                  _parse_single_card hs_code stream exclude_from
                  priority_states st) as H1.
    destruct ((TradeData._fetch_by_hs_code w quote_plus card _find_cards
       _parse_single_card) hs_code stream exclude_from priority_states
                st) as [[records|e] st1]; cbn [snd ret] in *.
    + specialize (IH (foldl TradeData.keep_first acc records) st1).
      replace (2 * length (hs_code :: rest))%nat
        with (2 + 2 * length rest)%nat by (simpl; lia).
      exact (fetched_since_trans _ _ _ _ _ H1 IH).
    + apply (fetched_since_mono _ _ 2); [simpl; lia|exact H1].
Qed.

(** X15.  Whatever its outcome, the trade-data [fetch] only requests
    pages: the calls it makes are GET requests, at most two for each
    configured HS code (the page of the code and the search fallback),
    and it drops no page from the cache. *)
Theorem trade_data_fetch_requests_at_most_two_pages_per_code
        (w : World) (quote_plus : string -> string) (card : Type)
        (_find_cards : string -> list card)
        (_parse_single_card : card -> string -> string -> option ProspectRecord)
        (adapter_config : AdapterConfig) (stream : string)
        (profile : Profile) (st : state) :
  fetched_since st (2 * length (hs_codes adapter_config))
                ((TradeData.fetch w quote_plus card _find_cards
     _parse_single_card) adapter_config stream profile st).2.
Proof.
  unfold TradeData.fetch.
  destruct (hs_codes adapter_config) as [|c cs] eqn:Hcodes.
  { apply fetched_since_refl. }
  unfold bind at 1.
  pose proof (fetch_loop_fetched w quote_plus card _find_cards
                _parse_single_card stream
                (upper <$> exclude_suppliers_from adapter_config)
                (Config.priority_states profile) (c :: cs) ([], ∅) st) as H.
  match goal with
  | |- context [for_each ?b ?a ?l st] => destruct (for_each b a l st) as [[acc|e] st1]
  end; exact H.
Qed.

Lemma keep_first_keyed_apart (acc : list ProspectRecord * gset string)
      (rec : ProspectRecord) :
  keyed_apart name_key acc -> keyed_apart name_key (TradeData.keep_first acc rec).
Proof.
  destruct acc as [all_records seen]. intros Hacc. unfold TradeData.keep_first.
  fold (name_key rec). case_bool_decide; [assumption|].
  by apply keyed_apart_snoc.
Qed.

(** X14.  The records one call of the trade-data [fetch] returns have
    pairwise different names, compared in lower case and without the
    white space around them: an importer found under several HS codes
    comes once. *)
Theorem trade_data_fetch_returns_each_name_once
        (w : World) (quote_plus : string -> string) (card : Type)
        (_find_cards : string -> list card)
        (_parse_single_card : card -> string -> string -> option ProspectRecord)
        (adapter_config : AdapterConfig) (stream : string)
        (profile : Profile) (st st' : state) (out : list ProspectRecord) :
  (TradeData.fetch w quote_plus card _find_cards
     _parse_single_card) adapter_config stream profile st = (Ret out, st') ->
  NoDup (name_key <$> out).
Proof.
  intros Hfetch.
  assert (Htriple :
    triple (fun _ => True) ((TradeData.fetch w quote_plus card _find_cards
     _parse_single_card) adapter_config stream profile)
           (fun out _ => NoDup (name_key <$> out)) (fun _ => True)).
  { unfold TradeData.fetch.
    destruct (hs_codes adapter_config) as [|c cs].
    { apply triple_ret. intros; constructor. }
    set (good := fun (acc : list ProspectRecord * gset string) (_ : state) =>
                   keyed_apart name_key acc).
    eapply triple_bind with (R := good).
    - eapply triple_weaken
        with (P' := good ([], ∅)) (Q' := good) (E' := fun _ => True);
        [|intros; split; constructor|auto|auto].
      apply triple_for_each. intros acc hs_code _.
      eapply triple_bind with (R := fun _ => good acc).
      + intros s H.
        destruct ((TradeData._fetch_by_hs_code w quote_plus card _find_cards
       _parse_single_card) _ _ _ _ s) as [[]]; simpl; auto.
      + intros records. apply triple_ret. intros s H.
        apply foldl_keeps; [apply keep_first_keyed_apart|exact H].
    - intros acc. apply triple_ret. intros s H. apply H. }
  specialize (Htriple st I). by rewrite Hfetch in Htriple.
Qed.

Lemma trade_data_fetch_returns_each_name_once_witness :
  let result :=
    TradeData.fetch (web_world "<html/>") quote_safe string two_cards
                    card_record (codes_config ["3923.30"; "0901.21"])
                    "stream_c" (profile_excluding []) initial in
  result.1 = Ret [prospect "Acme Bakery Inc" "Syracuse"]
  /\ NoDup (name_key <$> [prospect "Acme Bakery Inc" "Syracuse"]).
Proof.
  split; [vm_compute; reflexivity|].
  eapply (trade_data_fetch_returns_each_name_once
            (web_world "<html/>") quote_safe string two_cards card_record
            (codes_config ["3923.30"; "0901.21"]) "stream_c"
            (profile_excluding []) initial).
  vm_compute. reflexivity.
Defined.

Lemma _get_cached_no_raise (w : World) (url : string) :
  only_request_errors w ->
  triple (fun _ => True) ((TradeData._get_cached w) url) (fun _ _ => True)
         (fun _ => False).
Proof.
  intros Honly st _. unfold TradeData._get_cached, perform.
  destruct (url_cache st !! url); [exact I|].
  destruct (http_get w (trace st) url) as [html|e] eqn:Hget; [exact I|].
  apply Honly in Hget. by subst e.
Qed.

Lemma _get_cached_offline (w : World) (url : string) :
  (forall tr u, http_get w tr u = Raise RequestException) ->
  triple (fun st => url_cache st = ∅) ((TradeData._get_cached w) url)
         (fun html st => html = None /\ url_cache st = ∅)
         (fun _ => False).
Proof.
  intros Hoff st Hempty. unfold TradeData._get_cached, perform.
  by rewrite Hempty, lookup_empty, Hoff.
Qed.

(** X16.  Network errors do not leave the trade-data [fetch]: when a
    page request can only fail with [requests.RequestException], [fetch]
    returns; and when every request fails so and no page is cached, it
    returns no record. *)
Theorem trade_data_fetch_survives_network_errors
        (w : World) (quote_plus : string -> string) (card : Type)
        (_find_cards : string -> list card)
        (_parse_single_card : card -> string -> string -> option ProspectRecord)
        (adapter_config : AdapterConfig) (stream : string)
        (profile : Profile) (st : state) :
  (only_request_errors w ->
   is_ret ((TradeData.fetch w quote_plus card _find_cards
     _parse_single_card) adapter_config stream profile st).1 = true)
  /\ ((forall tr url, http_get w tr url = Raise RequestException) ->
      url_cache st = ∅ ->
      ((TradeData.fetch w quote_plus card _find_cards
     _parse_single_card) adapter_config stream profile st).1 = Ret []).
Proof.
  split.
  - intros Honly.
    assert (Htriple :
      triple (fun _ => True) ((TradeData.fetch w quote_plus card _find_cards
     _parse_single_card) adapter_config stream profile)
             (fun _ _ => True) (fun _ => False)).
    { unfold TradeData.fetch.
      destruct (hs_codes adapter_config) as [|c cs].
      { by apply triple_ret. }
      eapply triple_bind with (R := fun _ _ => True);
        [|intros; by apply triple_ret].
      apply (triple_for_each (fun _ _ => True)). intros acc hs_code _.
      eapply triple_bind with (R := fun _ _ => True);
        [|intros; by apply triple_ret].
      unfold TradeData._fetch_by_hs_code.
      eapply triple_bind; [by apply _get_cached_no_raise|].
      intros [html|]; [|by apply triple_ret].
      destruct (TradeData._parse_company_cards _ _ _ html _ _ _ _);
        [|by apply triple_ret].
      eapply triple_bind; [by apply _get_cached_no_raise|].
      intros [h2|]; [|by apply triple_ret].
      destruct (is_empty h2); by apply triple_ret. }
    specialize (Htriple st I).
    by destruct ((TradeData.fetch w quote_plus card _find_cards
     _parse_single_card) adapter_config stream profile st) as [[out|e] st'].
  - intros Hoff Hempty.
    assert (Htriple :
      triple (fun s => url_cache s = ∅) ((TradeData.fetch w quote_plus card _find_cards
     _parse_single_card) adapter_config stream profile)
             (fun out _ => out = []) (fun _ => False)).
    { unfold TradeData.fetch.
      destruct (hs_codes adapter_config) as [|c cs].
      { by apply triple_ret. }
      set (quiet := fun (acc : list ProspectRecord * gset string)
                        (s : state) =>
                      acc.1 = [] /\ url_cache s = ∅).
      eapply triple_bind with (R := quiet);
        [|intros acc; apply triple_ret; by intros s [H _]].
      eapply triple_weaken
        with (P' := quiet ([], ∅)) (Q' := quiet) (E' := fun _ => False);
        [|by intros|auto|auto].
      apply triple_for_each. intros acc hs_code _.
      eapply triple_bind
        with (R := fun records s => records = [] /\ quiet acc s).
      + unfold TradeData._fetch_by_hs_code.
        eapply triple_bind
          with (R := fun html s => html = None /\ quiet acc s).
        * intros s [Hacc Hs].
          pose proof (_get_cached_offline w
                        (TradeData.HS_CODE_URL
                           (let h := replace_char " " ""
                                       (replace_char "." "" hs_code) in
                            if (String.length h =? 6)%nat
                            then h +:+ "00" else h))
                        Hoff s Hs) as H.
          cbn zeta in *.
          destruct ((TradeData._get_cached w) _ s) as [[html|e] s']; [|exact H].
          destruct H as [-> H]. by repeat split.
        * intros [html|]; [by intros s [Hhtml _]|].
          apply triple_ret. by intros s [_ H].
      + intros records. apply triple_ret. by intros s [-> H]. }
    specialize (Htriple st Hempty).
    destruct ((TradeData.fetch w quote_plus card _find_cards
     _parse_single_card) adapter_config stream profile st) as [[out|e] st'];
      [by subst out|destruct Htriple].
Qed.

Lemma trade_data_fetch_survives_network_errors_witness :
  let result :=
    TradeData.fetch offline_world quote_safe string two_cards card_record
                    (codes_config ["3923.30"; "0901.21"]) "stream_c"
                    (profile_excluding []) initial in
  is_ret result.1 = true /\ result.1 = Ret [].
Proof.
  destruct (trade_data_fetch_survives_network_errors
              offline_world quote_safe string two_cards card_record
              (codes_config ["3923.30"; "0901.21"]) "stream_c"
              (profile_excluding []) initial) as [Hreturns Hnone].
  split.
  - apply Hreturns. intros tr url e He. by inversion He.
  - by apply Hnone.
Defined.


